(** * The ping probe engine and its statistics (package main of ping/)

    A shallow embedding of the Go code: the in-flight request table
    [queue] with its mutex, [sendICMP], [unqueuePkt], [processRecv], the
    timeout sweep of [processLoop], one round of [receiveLoop], and the
    statistics aggregator [PingStats] with [Calculate].

    Conventions.
    - Go's [int], [int64] and [time.Duration] are [Z]; where the code can
      overflow the wrap-around is written out ([Int64.wrap]).
    - [float64] is the IEEE 754 binary64 format of the standard library's
      [SpecFloat] (53 bits of precision, round to nearest even).
    - Instants ([time.Time]) are [Z], in nanoseconds.
    - The Go map [queue] is a [gmap Z task]; the iteration order of
      [range] over it is an input of the sweep. *)

From Stdlib Require Import ZArith List Bool Lia String.
From Stdlib Require Import Floats.SpecFloat.
From stdpp Require Import gmap list fin_maps.

Local Open Scope Z_scope.

(** ** 64-bit integers *)

Module Int64.

Definition modulus : Z := 2 ^ 64.
Definition min_signed : Z := - 2 ^ 63.
Definition max_signed : Z := 2 ^ 63 - 1.

(** The value of a mathematical integer once stored in an [int64]. *)
Definition wrap (x : Z) : Z := (x + 2 ^ 63) mod modulus - 2 ^ 63.

(** The value once stored in a [uint64]. *)
Definition uwrap (x : Z) : Z := x mod modulus.

Definition in_range (x : Z) : Prop := min_signed <= x <= max_signed.

Definition in_rangeb (x : Z) : bool := (min_signed <=? x) && (x <=? max_signed).

Definition add (x y : Z) : Z := wrap (x + y).

(** Go's [/] on integers truncates toward zero. *)
Definition div (x y : Z) : Z := wrap (Z.quot x y).

End Int64.

(** ** Instants and durations *)

Module GoTime.

(** [t.Sub(u)]: the duration between two instants, which saturates at
    the bounds of a Duration. *)
Definition Sub (t u : Z) : Z :=
  Z.max Int64.min_signed (Z.min Int64.max_signed (t - u)).

(** [time.Since(t)], where [now] is the reading of the clock. *)
Definition Since (now t : Z) : Z := Sub now t.

End GoTime.

(** ** float64 *)

Module Float64.

Definition prec : Z := 53.
Definition emax : Z := 1024.

Abbreviation float64 := spec_float.

Definition NaN : float64 := S754_nan.
Definition zero : float64 := S754_zero false.

(** The conversion [float64(x)] of an integer. *)
Definition of_int (x : Z) : float64 := binary_normalize prec emax x 0 false.

Definition add : float64 -> float64 -> float64 := SFadd prec emax.
Definition sub : float64 -> float64 -> float64 := SFsub prec emax.
Definition mul : float64 -> float64 -> float64 := SFmul prec emax.
Definition div : float64 -> float64 -> float64 := SFdiv prec emax.
Definition Sqrt : float64 -> float64 := SFsqrt prec emax.

Definition is_zero (x : float64) : bool :=
  match x with S754_zero _ => true | _ => false end.

Definition Signbit (x : float64) : bool :=
  match x with
  | S754_zero s | S754_infinity s | S754_finite s _ _ => s
  | S754_nan => false
  end.

Definition IsNaN (x : float64) : bool :=
  match x with S754_nan => true | _ => false end.

(** Go's [math.IsInf(x, sign)] for [sign] = -1 ([neg = true]) and
    [sign] = 1 ([neg = false]). *)
Definition IsInf (x : float64) (neg : bool) : bool :=
  match x with S754_infinity s => Bool.eqb s neg | _ => false end.

(** [math.Min], with the special cases of the Go library. *)
Definition Min (x y : float64) : float64 :=
  if IsInf x true || IsInf y true then S754_infinity true
  else if IsNaN x || IsNaN y then NaN
  else if is_zero x && is_zero y then (if Signbit x then x else y)
  else if SFltb x y then x else y.

(** [math.Max], with the special cases of the Go library. *)
Definition Max (x y : float64) : float64 :=
  if IsInf x false || IsInf y false then S754_infinity false
  else if IsNaN x || IsNaN y then NaN
  else if is_zero x && is_zero y then (if Signbit x then y else x)
  else if SFltb y x then x else y.

Definition half : float64 := S754_finite false 4503599627370496 (-53).
Definition one : float64 := S754_finite false 4503599627370496 (-52).

(** [math.Pow(x, 2)]: the special cases of the Go library that apply
    to the exponent 2, then its general path, which squares the
    fraction of [Frexp x] and scales the result back with [Ldexp]. *)
Definition Pow_2 (x : float64) : float64 :=
  if SFeqb x one then one
  else if IsNaN x then NaN
  else if is_zero x then zero
  else match x with
       | S754_infinity _ => S754_infinity false
       | _ =>
         let '(x1, xe) := SFfrexp prec emax x in
         let x1 := mul x1 x1 in
         let xe := 2 * xe in
         let '(x1, xe) := if SFltb x1 half then (add x1 x1, xe - 1) else (x1, xe) in
         SFldexp prec emax (mul one x1) xe
       end.

(** The integer part of a finite float, toward zero. *)
Definition trunc (s : bool) (m : positive) (e : Z) : Z :=
  let v := match e with
           | Zneg p => Z.shiftr (Zpos m) (Zpos p)
           | _ => Zpos m * 2 ^ e
           end in
  if s then - v else v.

(** The conversion [int64(f)]. Go leaves the result to the
    implementation when [f] is a NaN, an infinity or out of range;
    [arch] is what the target machine yields then. *)
Definition to_int64 (arch : float64 -> Z) (f : float64) : Z :=
  match f with
  | S754_zero _ => 0
  | S754_finite s m e =>
    let v := trunc s m e in
    if Int64.in_rangeb v then v else arch f
  | _ => arch f
  end.

(** On amd64 the conversion instruction yields the "integer
    indefinite" value, the smallest [int64]. *)
Definition amd64 (_ : float64) : Z := Int64.min_signed.

(** The durations that are not negative and that a float64 holds
    without rounding: up to 2^53 ns, some 104 days. *)
Definition below_2_53 (x : Z) : Prop := 0 <= x < 2 ^ 53.

(** A positive integer below 2^53 shifted to a mantissa of 53 bits. *)
Definition norm_m (p : positive) : positive :=
  match (53 - Z.pos (digits2_pos p))%Z with
  | Z.pos k => Pos.iter xO p k
  | _ => p
  end.

End Float64.

(** ** The statistics aggregator: [PingStats] and [Calculate] *)

Module Stats.

Import Float64.

Record packetStat := {
  successful : bool;
  rtt : option Z          (* *time.Duration, nil is None *)
}.

Record PingStats := {
  startTime : Z;
  packets : list packetStat
}.

Record PingSummary := {
  NumPackets : Z;         (* uint64 *)
  NumReceived : Z;        (* uint64 *)
  TotalDuration : Z;
  MinRTT : Z;
  AvgRTT : Z;
  MaxRTT : Z;
  SdevRTT : Z
}.

(** [&PingStats{}], the value of the global [ps]. *)
Definition empty_stats : PingStats := {| startTime := 0; packets := [] |}.

(** [&PingSummary{}] *)
Definition zero_summary : PingSummary :=
  {| NumPackets := 0; NumReceived := 0; TotalDuration := 0;
     MinRTT := 0; AvgRTT := 0; MaxRTT := 0; SdevRTT := 0 |}.

Definition Start (now : Z) (s : PingStats) : PingStats :=
  {| startTime := now; packets := packets s |}.

Definition PacketReceived (r : Z) (s : PingStats) : PingStats :=
  {| startTime := startTime s;
     packets := packets s ++ [ {| successful := true; rtt := Some r |} ] |}.

Definition PacketLost (s : PingStats) : PingStats :=
  {| startTime := startTime s;
     packets := packets s ++ [ {| successful := false; rtt := None |} ] |}.

(** [ms]: a duration in milliseconds. *)
Definition ms (d : Z) : float64 := div (of_int d) (of_int 1000000).

Section Calculate.

Variable arch : float64 -> Z.

Definition processDurations (fn : float64 -> float64 -> float64) (a b : Z) : Z :=
  to_int64 arch (fn (of_int a) (of_int b)).

(** The variables the first loop of [Calculate] updates. *)
Record loop1 := {
  l_NumPackets : Z;
  l_NumReceived : Z;
  l_MinRTT : Z;
  l_MaxRTT : Z;
  l_rttsum : Z
}.

Definition loop1_init : loop1 :=
  {| l_NumPackets := 0; l_NumReceived := 0; l_MinRTT := 0; l_MaxRTT := 0;
     l_rttsum := 0 |}.

(** One iteration of [for i, p := range s.packets]. *)
Definition loop1_body (i : nat) (p : packetStat) (a : loop1) : loop1 :=
  let np := Int64.uwrap (l_NumPackets a + 1) in
  let nr := if successful p then Int64.uwrap (l_NumReceived a + 1)
            else l_NumReceived a in
  match rtt p with
  | None =>
    {| l_NumPackets := np; l_NumReceived := nr; l_MinRTT := l_MinRTT a;
       l_MaxRTT := l_MaxRTT a; l_rttsum := l_rttsum a |}
  | Some r =>
    let sum := Int64.add (l_rttsum a) r in
    match i with
    | O =>
      {| l_NumPackets := np; l_NumReceived := nr; l_MinRTT := r;
         l_MaxRTT := r; l_rttsum := sum |}
    | S _ =>
      {| l_NumPackets := np; l_NumReceived := nr;
         l_MinRTT := processDurations Min (l_MinRTT a) r;
         l_MaxRTT := processDurations Max (l_MaxRTT a) r;
         l_rttsum := sum |}
    end
  end.

Fixpoint loop1_run (i : nat) (l : list packetStat) (a : loop1) : loop1 :=
  match l with
  | [] => a
  | p :: l' => loop1_run (S i) l' (loop1_body i p a)
  end.

(** One iteration of the second loop, which adds up the squared
    deviations from the average. *)
Definition loop2_body (avg : Z) (p : packetStat) (rttdiffsum : float64) : float64 :=
  match rtt p with
  | None => rttdiffsum
  | Some r => add rttdiffsum (Pow_2 (sub (ms r) (ms avg)))
  end.

Fixpoint loop2_run (avg : Z) (l : list packetStat) (rttdiffsum : float64) : float64 :=
  match l with
  | [] => rttdiffsum
  | p :: l' => loop2_run avg l' (loop2_body avg p rttdiffsum)
  end.

(** The float handed to the conversion [int64(...)] that yields
    [SdevRTT]. *)
Definition sdev_float (avg : Z) (l : list packetStat) : float64 :=
  mul (Sqrt (div (loop2_run avg l zero) (of_int (Z.of_nat (length l) - 1))))
      (of_int 1000000).

(** [Calculate]; [now] is the reading of the clock by [time.Since]. *)
Definition Calculate (now : Z) (s : PingStats) : PingSummary :=
  match packets s with
  | [] => zero_summary
  | _ :: _ =>
    let a := loop1_run 0 (packets s) loop1_init in
    let avg := Int64.div (l_rttsum a) (Z.of_nat (length (packets s))) in
    {| NumPackets := l_NumPackets a;
       NumReceived := l_NumReceived a;
       TotalDuration := GoTime.Since now (startTime s);
       MinRTT := l_MinRTT a;
       AvgRTT := avg;
       MaxRTT := l_MaxRTT a;
       SdevRTT := to_int64 arch (sdev_float avg (packets s)) |}
  end.

End Calculate.

(** A probe as it is recorded: a reply with its round-trip time, or a
    loss. *)
Inductive probe := Reply (r : Z) | Lost.

Definition record (s : PingStats) (o : probe) : PingStats :=
  match o with
  | Reply r => PacketReceived r s
  | Lost => PacketLost s
  end.

(** The record that [record] appends for a probe. *)
Definition stat_of (o : probe) : packetStat :=
  match o with
  | Reply r => {| successful := true; rtt := Some r |}
  | Lost => {| successful := false; rtt := None |}
  end.

(** The aggregator after the probes [os] were recorded, in order. *)
Definition recorded (os : list probe) : PingStats := fold_left record os empty_stats.

(** The round-trip times of the received records. *)
Definition received_rtts (os : list probe) : list Z :=
  omap (fun o => match o with Reply r => Some r | Lost => None end) os.

Definition sum_Z (l : list Z) : Z := fold_right Z.add 0 l.

(** A number of milliseconds as a Duration. *)
Definition ms_ns (n : Z) : Z := n * 1000000.

(** The minimum and the maximum of a list of durations, when there
    is one. *)
Definition min_list (l : list Z) : option Z :=
  match l with
  | [] => None
  | x :: l' => Some (fold_left Z.min l' x)
  end.

Definition max_list (l : list Z) : option Z :=
  match l with
  | [] => None
  | x :: l' => Some (fold_left Z.max l' x)
  end.

(** The record [PacketLost] appends. *)
Definition lost_stat : packetStat := {| successful := false; rtt := None |}.

End Stats.

(** ** The probe engine: [Pinger] *)

Module Ping.

Import Stats.

Definition MaxSendRetries : Z := 5.

Definition ICMPTypeEchoReply : Z := 0.
Definition ICMPTypeEcho : Z := 8.
Definition ICMPTypeTimeExceeded : Z := 11.

(** *** Data *)

Record IPAddr := { IP : string; Zone : string }.

(** The dynamic type of a [net.Addr]. *)
Inductive Addr :=
| AddrIP (a : IPAddr)
| AddrUDP (ip : string) (port : Z) (zone : string)
| AddrOther (name : string).

Record packet := { pkt_bytes : list Z; pkt_addr : Addr }.

Record task := {
  t_id : Z;
  t_seq : Z;
  t_sendTime : Z;
  t_addr : IPAddr
}.

Record response := {
  r_addr : IPAddr;
  r_rtt : Z;
  r_seq : Z;
  r_bytelen : Z;
  r_ttl : Z
}.

(** [task{}] *)
Definition zero_task : task :=
  {| t_id := 0; t_seq := 0; t_sendTime := 0;
     t_addr := {| IP := EmptyString; Zone := EmptyString |} |}.

(** The errno carried by a [*net.OpError]. *)
Inductive Errno := ENOBUFS | EPERM | EHOSTUNREACH | EAGAIN.

(** The field [Err] of a [*net.OpError]: an errno itself, an errno
    wrapped in an [*os.SyscallError], or something else. *)
Inductive inner_error :=
| InnerErrno (e : Errno)
| InnerSyscallError (call : string) (e : Errno)
| InnerOther (msg : string).

(** Errors of the transport: a [*net.OpError] with its inner error and
    the answer of its [Timeout] method, or an error of another type. *)
Inductive net_error :=
| OpError (Err : inner_error) (Timeout : bool)
| OtherError (msg : string).

(** [neterr.Err == syscall.ENOBUFS] for an error [err] that is a
    [*net.OpError]. *)
Definition is_ENOBUFS (err : net_error) : bool :=
  match err with
  | OpError (InnerErrno ENOBUFS) _ => true
  | _ => false
  end.

(** A parsed ICMP message of golang.org/x/net/icmp. *)
Inductive MessageBody :=
| Echo (ID Seq : Z) (Data : list Z)
| TimeExceeded (Data : list Z)
| RawBody (Data : list Z).

Record Message := { Type_ : Z; Code : Z; Body : MessageBody }.

(** The errors [processRecv] and [unqueuePkt] build with [fmt.Errorf],
    one constructor for each format string. *)
Inductive error :=
| ErrUnknownAddrType (name : string)
| ErrParse (msg : string) (b : list Z)
| ErrTTLExceeded (ip : string)
| ErrTTLExceededSeq (ip : string) (seq : Z)
| ErrInvalidReplyType (ty : Z)
| ErrInvalidReplyBody
| ErrInvalidID (id : Z)
| ErrUnexpectedHost (a : IPAddr)
| ErrMarshal (msg : string).

(** Lines written through the [log] package. *)
Inductive line :=
| LogPING (host ip : string) (n : Z)
| LogFailedToPing (ip : string) (seq : Z)
| LogRequestTimeout (seq : Z)
| LogErrorWhenReceiving (e : error)
| LogBytesFrom (r : response)
| LogStopped (msg : string)
| LogDebug (msg : string).

(** *** State

    The fields of [Pinger] that change ([queue], [seq] and the state
    of [mux]), the global [ps] and the lines logged. Two more fields
    observe the run: the responses handed to the callback so far and
    the number of calls of [conn.WriteTo] so far. *)
Record World := {
  queue : gmap Z task;
  seq : Z;
  mux : bool;                 (* true while the mutex is held *)
  ps : PingStats;
  out : list line;
  calls : list response;
  wrote : nat
}.

(** A callback works on the globals of the program: [ps] and the log. *)
Definition ReceiveFunc := response -> PingStats * list line -> PingStats * list line.

(** The fields of [Pinger] that are fixed at construction. *)
Record Config := {
  maxRTT : Z;
  debug : bool;
  callback : option ReceiveFunc
}.

(** Ways the Go runtime ends the program. *)
Inductive fault :=
| UnlockOfUnlockedMutex       (* fatal error: sync: unlock of unlocked mutex *)
| SliceBoundsOutOfRange       (* panic: slice bounds out of range *)
| NilDereference.             (* panic: invalid memory address or nil pointer dereference *)

Inductive Result (A : Type) :=
| Ok (a : A) (w : World)
| Fatal (f : fault)
| Blocked                     (* waits for a mutex that is never released *)
| OutOfFuel.

Arguments Ok {A} a w.
Arguments Fatal {A} f.
Arguments Blocked {A}.
Arguments OutOfFuel {A}.

Definition M (A : Type) : Type := World -> Result A.

Definition ret {A} (a : A) : M A := fun w => Ok a w.

Definition bind {A B} (m : M A) (k : A -> M B) : M B :=
  fun w => match m w with
           | Ok a w' => k a w'
           | Fatal f => Fatal f
           | Blocked => Blocked
           | OutOfFuel => OutOfFuel
           end.

Notation "'let*' x := m 'in' k" := (bind m (fun x => k))
  (at level 10, x name, m at level 100, k at level 200).
Notation "m ;;; k" := (bind m (fun _ => k))
  (at level 100, k at level 200, right associativity).

Definition gets {A} (f : World -> A) : M A := fun w => Ok (f w) w.
Definition modify (f : World -> World) : M unit := fun w => Ok tt (f w).
Definition crash {A} (f : fault) : M A := fun _ => Fatal f.

(** A deferred call runs when the function returns. *)
Definition defer {A} (d : M unit) (body : M A) : M A :=
  let* a := body in d ;;; ret a.

Definition set_queue (q : gmap Z task) (w : World) : World :=
  {| queue := q; seq := seq w; mux := mux w; ps := ps w; out := out w;
     calls := calls w; wrote := wrote w |}.
Definition set_seq (n : Z) (w : World) : World :=
  {| queue := queue w; seq := n; mux := mux w; ps := ps w; out := out w;
     calls := calls w; wrote := wrote w |}.
Definition set_mux (b : bool) (w : World) : World :=
  {| queue := queue w; seq := seq w; mux := b; ps := ps w; out := out w;
     calls := calls w; wrote := wrote w |}.
Definition set_globals (g : PingStats * list line) (w : World) : World :=
  {| queue := queue w; seq := seq w; mux := mux w; ps := fst g; out := snd g;
     calls := calls w; wrote := wrote w |}.
Definition set_ps (s : PingStats) (w : World) : World := set_globals (s, out w) w.
Definition add_out (l : line) (w : World) : World := set_globals (ps w, out w ++ [l]) w.
Definition add_call (r : response) (w : World) : World :=
  {| queue := queue w; seq := seq w; mux := mux w; ps := ps w; out := out w;
     calls := calls w ++ [r]; wrote := wrote w |}.
Definition incr_wrote (w : World) : World :=
  {| queue := queue w; seq := seq w; mux := mux w; ps := ps w; out := out w;
     calls := calls w; wrote := S (wrote w) |}.

(** [p.mux.Lock()] *)
Definition Lock : M unit :=
  fun w => if mux w then Blocked else Ok tt (set_mux true w).

(** [p.mux.Unlock()] *)
Definition Unlock : M unit :=
  fun w => if mux w then Ok tt (set_mux false w) else Fatal UnlockOfUnlockedMutex.

Definition logPrintf (l : line) : M unit := modify (add_out l).

(** [ps.PacketLost()] on the global [ps]. *)
Definition ps_PacketLost : M unit := modify (fun w => set_ps (PacketLost (ps w)) w).

(** [handler], the callback [main] installs. *)
Definition handler : ReceiveFunc :=
  fun resp g => (PacketReceived (r_rtt resp) (fst g), snd g ++ [LogBytesFrom resp]).

(** [p.callback(resp, nil)] *)
Definition invoke (cb : ReceiveFunc) (resp : response) : M unit :=
  modify (fun w => set_globals (cb resp (ps w, out w)) (add_call resp w)).

(** A fresh [Pinger] next to a fresh [ps]. *)
Definition init_world : World :=
  {| queue := ∅; seq := 0; mux := false; ps := empty_stats; out := [];
     calls := []; wrote := 0 |}.

(** The address behind a [net.Addr], as the type switch at the head of
    [processRecv] finds it. *)
Definition addr_ip (a : Addr) : IPAddr + string :=
  match a with
  | AddrIP a => inl a
  | AddrUDP ip _ zone => inl {| IP := ip; Zone := zone |}
  | AddrOther n => inr n
  end.

(** [rand.Intn(n)] draws from the half-open interval from 0 to [n];
    [src] is the value of the random source. *)
Definition rand_Intn (n src : Z) : Z := src mod n.

(** What the surroundings supply to [sendICMP]: the random source,
    the clock, the outcome of [Marshal], and the outcome of each call
    of [conn.WriteTo], the calls being numbered from 0 over the run. *)
Record send_env := {
  rand_src : Z;
  send_now : Z;
  Marshal : list Z + string;
  WriteTo : nat -> option net_error
}.

Section Engine.

Variable cfg : Config.

(** [icmp.ParseMessage(ProtocolICMP, b)] *)
Variable ParseMessage : list Z -> Message + string.

Definition debugf (msg : string) : M unit :=
  if debug cfg then logPrintf (LogDebug msg) else ret tt.

(** [p.conn.WriteTo(bytes, &target)] *)
Definition conn_WriteTo (env : send_env) : M (option net_error) :=
  let* n := gets wrote in
  modify incr_wrote ;;;
  ret (WriteTo env n).

(** The loop around [conn.WriteTo]. *)
Fixpoint write_loop (fuel : nat) (env : send_env) (target : IPAddr) (sq : Z)
         (retries : Z) : M unit :=
  match fuel with
  | O => fun _ => OutOfFuel
  | S fuel' =>
    let* err := conn_WriteTo env in
    match err with
    | Some e =>
      if is_ENOBUFS e then
        let retries := retries + 1 in
        if retries =? MaxSendRetries then
          logPrintf (LogFailedToPing (IP target) sq)
        else write_loop fuel' env target sq retries
      else ret tt
    | None => ret tt
    end
  end.

(** Whether the write with the number [j] of the run is answered with
    ENOBUFS, and whether a send that found [first] writes made and
    left [last] gave up: it made [MaxSendRetries] writes and the last
    one, too, met ENOBUFS. *)
Definition enobufs_at (env : send_env) (j : nat) : bool :=
  match WriteTo env j with
  | Some e => is_ENOBUFS e
  | None => false
  end.

Definition gave_up (env : send_env) (first last : nat) : bool :=
  (last =? first + Z.to_nat MaxSendRetries)%nat && enobufs_at env (last - 1).

(** [sendICMP]: draw an id, store the task under the lock, marshal the
    echo request and write it. [fuel] bounds the rounds of the write
    loop; 5 are enough ([write_loop_spec]). *)
Definition sendICMP (fuel : nat) (env : send_env) (host : string) (target : IPAddr)
  : M (option error) :=
  let id := rand_Intn 0xffff (rand_src env) in
  let timestamp := send_now env in
  Lock ;;;
  let* sq := gets seq in
  modify (fun w => set_seq (Int64.wrap (seq w + 1)) w) ;;;
  modify (fun w => set_queue
            (<[id := {| t_id := id; t_seq := sq; t_sendTime := timestamp;
                        t_addr := target |}]> (queue w)) w) ;;;
  Unlock ;;;
  match Marshal env with
  | inr e => ret (Some (ErrMarshal e))
  | inl b =>
    (if sq =? 0 then logPrintf (LogPING host (IP target) (Z.of_nat (length b)))
     else ret tt) ;;;
    debugf "Send" ;;;
    write_loop fuel env target sq 0 ;;;
    ret None
  end.

(** [unqueuePkt]: under the lock, with the unlock deferred, look the id
    up, and delete and return its task. Without an entry the branch
    unlocks by itself before it returns. *)
Definition unqueuePkt (id : Z) : M (task * option error) :=
  Lock ;;;
  defer Unlock (
    let* q := gets queue in
    match q !! id with
    | None =>
      Unlock ;;;
      ret (zero_task, Some (ErrInvalidID id))
    | Some t =>
      modify (fun w => set_queue (delete id (queue w)) w) ;;;
      ret (t, None)
    end).

(** [b[len(b)-16:]] *)
Definition last16 (b : list Z) : M (list Z) :=
  if (length b <? 16)%nat then crash SliceBoundsOutOfRange
  else ret (drop (length b - 16) b).

(** [processRecv]; [now] is the reading of the clock by
    [time.Since]. *)
Definition processRecv (now : Z) (recv : packet) : M (option error) :=
  match addr_ip (pkt_addr recv) with
  | inr n => ret (Some (ErrUnknownAddrType n))
  | inl ipaddr =>
    match ParseMessage (pkt_bytes recv) with
    | inr e => ret (Some (ErrParse e (pkt_bytes recv)))
    | inl m =>
      if Type_ m =? ICMPTypeEchoReply then
        debugf "Type, Code, Len, Payload" ;;;
        match Body m with
        | Echo ID Seq _ =>
          let* r := unqueuePkt ID in
          match r with
          | (_, Some e) => ret (Some e)
          | (t, None) =>
            let rtt := if Seq =? t_seq t then GoTime.Since now (t_sendTime t) else 0 in
            if negb (String.eqb (IP ipaddr) (IP (t_addr t))) then
              ret (Some (ErrUnexpectedHost ipaddr))
            else
              let resp := {| r_addr := ipaddr; r_rtt := rtt; r_seq := t_seq t;
                             r_bytelen := Z.of_nat (length (pkt_bytes recv));
                             r_ttl := 0 |} in
              match callback cfg with
              | Some cb => invoke cb resp
              | None => ret tt
              end ;;;
              ret None
          end
        | _ => ret (Some ErrInvalidReplyBody)
        end
      else if Type_ m =? ICMPTypeTimeExceeded then
        defer ps_PacketLost (
          let* newBuf := last16 (pkt_bytes recv) in
          match ParseMessage newBuf with
          | inr _ => ret (Some (ErrTTLExceeded (IP ipaddr)))
          | inl origMsg =>
            match Body origMsg with
            | Echo ID Seq _ =>
              let* r := unqueuePkt ID in
              match r with
              | (_, Some e) => ret (Some e)
              | (_, None) => ret (Some (ErrTTLExceededSeq (IP ipaddr) Seq))
              end
            | _ => ret (Some (ErrTTLExceeded (IP ipaddr)))
            end
          end)
      else ret (Some (ErrInvalidReplyType (Type_ m)))
    end
  end.

(** [time.Now().After(t.sendTime.Add(p.maxRTT))], where [clock id]
    is the reading of [time.Now()] when the entry [id] is visited. *)
Definition expired (clock : Z -> Z) (id : Z) (t : task) : bool :=
  t_sendTime t + maxRTT cfg <? clock id.

(** The body of [for id, t := range p.queue] in [processLoop]. *)
Definition sweep_body (clock : Z -> Z) (e : Z * task) : M unit :=
  let '(id, t) := e in
  if expired clock id t then
    ps_PacketLost ;;;
    logPrintf (LogRequestTimeout (t_seq t)) ;;;
    modify (fun w => set_queue (delete id (queue w)) w)
  else ret tt.

(** The [range] loop, visiting the entries in the order [order]. *)
Fixpoint sweep_range (clock : Z -> Z) (order : list (Z * task)) : M unit :=
  match order with
  | [] => ret tt
  | e :: rest => sweep_body clock e ;;; sweep_range clock rest
  end.

(** The [default] case of [processLoop]. *)
Definition sweep (clock : Z -> Z) (order : list (Z * task)) : M unit :=
  Lock ;;; sweep_range clock order ;;; Unlock.

(** The entries a sweep takes out, as a predicate on the pairs of the
    queue, and the line logged for each. *)
Definition Expired (clock : Z -> Z) (e : Z * task) : Prop :=
  expired clock e.1 e.2 = true.

#[global] Instance Expired_dec (clock : Z -> Z) (e : Z * task) :
  Decision (Expired clock e).
Proof. unfold Expired. apply _. Defined.

Definition timeout_line (e : Z * task) : line := LogRequestTimeout (t_seq e.2).

(** The case the [select] of [processLoop] takes. For
    [SelDefault], the order in which [range] visits the queue and
    the clock. *)
Inductive select_case :=
| SelStop
| SelRecv (now : Z) (r : packet)
| SelDefault (clock : Z -> Z) (order : list (Z * task)).

(** Whether the enclosing [for] goes on. *)
Inductive ctl := Continue | Return.

(** One round of the [for] loop of [processLoop]. *)
Definition processLoop_body (c : select_case) : M ctl :=
  match c with
  | SelStop => debugf "processLoop(): <-p.processCtx.stop" ;;; ret Return
  | SelRecv now r =>
    debugf "processLoop(): <-p.recvCh" ;;;
    let* err := processRecv now r in
    match err with
    | Some e => logPrintf (LogErrorWhenReceiving e)
    | None => ret tt
    end ;;;
    ret Continue
  | SelDefault clock order => sweep clock order ;;; ret Continue
  end.

(** What [conn.ReadFrom(buf)] did: the contents it left in the
    cells of the buffer, the count and address it returned, and
    its error. *)
Record read_result := {
  rd_buf : list Z;
  rd_n : Z;
  rd_addr : option Addr;
  rd_err : option net_error
}.

(** [make([]byte, 64, 512)] *)
Definition make_buf : list Z := replicate 64 0.

(** The buffer after the read: a read changes cells, never the
    length of the slice. *)
Definition read_into (buf : list Z) (rd : read_result) : list Z :=
  take (length buf) (rd_buf rd ++ drop (length (rd_buf rd)) buf).

Inductive recv_ctl :=
| RecvContinue
| RecvDone (err : option net_error)    (* sent on recvCtx.done, then returned *)
| RecvReturn
| RecvHandoff (p : packet).            (* sent on recvCh *)

(** One round of the [for] loop of [receiveLoop]. [stop1] and
    [stop2] tell whether a stop request is taken by the first and by
    the second [select]. *)
Definition receiveLoop_body (stop1 stop2 : bool) (rd : read_result) : M recv_ctl :=
  if stop1 then debugf "receiveLoop(): <-p.recvCtx.stop" ;;; ret (RecvDone None)
  else
    let buf := read_into make_buf rd in
    match rd_err rd with
    | Some (OpError e true) => ret RecvContinue
    | Some (OpError e false) =>
      debugf "receiveLoop(): OpError happen" ;;; ret (RecvDone (rd_err rd))
    | _ =>
      match rd_addr rd with
      | None => crash NilDereference
      | Some addr =>
        debugf "Received package from addr" ;;;
        if stop2 then logPrintf (LogStopped "receiveLoop(): <-p.recvCtx.stop") ;;; ret RecvReturn
        else ret (RecvHandoff {| pkt_bytes := buf; pkt_addr := addr |})
      end
    end.

End Engine.

(** A parser in the shape of the one of golang.org/x/net/icmp, for
    running the engine on concrete packets: type, code, two bytes of
    checksum, then the body. *)
Definition be16 (hi lo : Z) : Z := hi * 256 + lo.

Definition icmp_ParseMessage (b : list Z) : Message + string :=
  match b with
  | ty :: code :: _ :: _ :: body =>
    if (ty =? ICMPTypeEchoReply) || (ty =? ICMPTypeEcho) then
      match body with
      | i1 :: i2 :: s1 :: s2 :: data =>
        inl {| Type_ := ty; Code := code; Body := Echo (be16 i1 i2) (be16 s1 s2) data |}
      | _ => inr "message too short"%string
      end
    else if ty =? ICMPTypeTimeExceeded then
      match body with
      | _ :: _ :: _ :: _ :: data =>
        inl {| Type_ := ty; Code := code; Body := TimeExceeded data |}
      | _ => inr "message too short"%string
      end
    else inl {| Type_ := ty; Code := code; Body := RawBody body |}
  | _ => inr "message too short"%string
  end.

End Ping.

(** ** Concrete runs *)

Import Stats Ping.

Definition example_cfg : Config :=
  {| maxRTT := 1000000000; debug := false; callback := Some handler |}.

Definition example_target : IPAddr := {| IP := "1.1.1.1"; Zone := "" |}.

(** An environment that draws the id 7 at the instant 100 and whose
    writes all get the answer [r]. *)
Definition example_env (r : option net_error) : send_env :=
  {| rand_src := 7; send_now := 100; Marshal := inl (replicate 16 0);
     WriteTo := fun _ => r |}.

(** A time-exceeded packet as the engine sees it in its 64-byte buffer,
    the echo request with the id 7 in the last 16 bytes. *)
Definition example_ttl_packet : packet :=
  {| pkt_bytes := [11; 0; 0; 0; 0; 0; 0; 0] ++ replicate 40 0
                  ++ [8; 0; 0; 0; 0; 7; 0; 0] ++ replicate 8 0;
     pkt_addr := AddrIP {| IP := "9.9.9.9"; Zone := "" |} |}.

(** A read that reports the 16 bytes of an echo reply with the id 7. *)
Definition example_read : read_result :=
  {| rd_buf := [0; 0; 0; 0; 0; 7; 0; 0; 1; 2; 3; 4; 5; 6; 7; 8];
     rd_n := 16;
     rd_addr := Some (AddrIP example_target);
     rd_err := None |}.

(** The packet that read is handed over as, a queue that awaits it, and
    the state after [processRecv]. *)
Definition example_reply : packet :=
  {| pkt_bytes := read_into make_buf example_read; pkt_addr := AddrIP example_target |}.

Definition example_waiting : World :=
  set_queue {[ 7 := {| t_id := 7; t_seq := 0; t_sendTime := 100;
                       t_addr := example_target |} ]} init_world.

Definition example_response : response :=
  {| r_addr := example_target; r_rtt := 50; r_seq := 0; r_bytelen := 64; r_ttl := 0 |}.

Definition example_replied : World :=
  set_globals (handler example_response (ps example_waiting, out example_waiting))
              (add_call example_response (set_queue ∅ example_waiting)).

(** ** The report of [run] *)

Module Report.

Import Float64 Stats.

(** The packet loss in percent as [run] computes it for the summary
    line: [(float64(s.NumPackets-s.NumReceived)/float64(s.NumPackets))*100],
    the difference being taken in uint64. *)
Definition loss_percent (s : PingSummary) : float64 :=
  mul (div (of_int (Int64.uwrap (NumPackets s - NumReceived s))) (of_int (NumPackets s)))
      (of_int 100).

End Report.

(** ** Relations between states of the engine *)

(** The state of the mutex, the sequence counter and the count of
    writes are the same in both worlds. *)
Definition same_engine (w w' : World) : Prop :=
  mux w' = mux w /\ seq w' = seq w /\ wrote w' = wrote w.

(** Every entry of [q'] is an entry of [q]. *)
Definition within (q' q : gmap Z task) : Prop :=
  forall i t, q' !! i = Some t -> q !! i = Some t.

(** The response [processRecv] builds for an echo reply with the
    sequence number [Seq] that matches the task [t]. *)
Definition reply_response (now : Z) (recv : packet) (a : IPAddr) (Seq : Z) (t : task)
  : response :=
  {| r_addr := a;
     r_rtt := if Seq =? t_seq t then GoTime.Since now (t_sendTime t) else 0;
     r_seq := t_seq t;
     r_bytelen := Z.of_nat (length (pkt_bytes recv));
     r_ttl := 0 |}.

(** An echo reply for the id 7 that comes from another host than the
    target. *)
Definition example_stranger : packet :=
  {| pkt_bytes := read_into make_buf example_read;
     pkt_addr := AddrIP {| IP := "9.9.9.9"; Zone := "" |} |}.

(** A packet of an ICMP type the engine does not handle (3, destination
    unreachable). *)
Definition example_unreachable : packet :=
  {| pkt_bytes := [3; 1; 0; 0] ++ replicate 60 0; pkt_addr := AddrIP example_target |}.

(** A time-exceeded packet whose last 16 bytes hold no echo message but
    one of type 3. *)
Definition example_ttl_other : packet :=
  {| pkt_bytes := [11; 0; 0; 0; 0; 0; 0; 0] ++ replicate 40 0
                  ++ [3; 0; 0; 0; 0; 7; 0; 0] ++ replicate 8 0;
     pkt_addr := AddrIP {| IP := "9.9.9.9"; Zone := "" |} |}.

(** What a round of [receiveLoop] may do with the outcome of its read:
    go on after a timeout, report a [*net.OpError] that is no timeout,
    and hand the buffer over in every other case, an error that is not
    a [*net.OpError] included. *)
Definition recv_verdict (stop1 stop2 : bool) (rd : read_result) (r : recv_ctl) : Prop :=
  match r with
  | RecvContinue => stop1 = false /\ exists inner, rd_err rd = Some (OpError inner true)
  | RecvDone None => stop1 = true
  | RecvDone (Some e) =>
    stop1 = false /\ rd_err rd = Some e /\ exists inner, e = OpError inner false
  | RecvReturn => stop1 = false /\ stop2 = true
  | RecvHandoff p =>
    stop1 = false /\ stop2 = false
    /\ (rd_err rd = None \/ exists msg, rd_err rd = Some (OtherError msg))
    /\ rd_addr rd = Some (pkt_addr p)
    /\ pkt_bytes p = read_into make_buf rd
  end.

(** A read that fails with an error that is not a [*net.OpError]. *)
Definition example_read_eof : read_result :=
  {| rd_buf := []; rd_n := 0; rd_addr := Some (AddrIP example_target);
     rd_err := Some (OtherError "EOF") |}.

(** An environment whose [Marshal] fails. *)
Definition example_env_nomarshal : send_env :=
  {| rand_src := 7; send_now := 100; Marshal := inr "invalid"%string;
     WriteTo := fun _ => None |}.

(** ** [timeToBytes] *)

(** [Bytes] of a [big.Int] [x >= 0]: its big-endian bytes
    without leading zeros, most significant byte first. [fuel] bounds
    the number of bytes. *)
Fixpoint big_Bytes (fuel : nat) (x : Z) (acc : list Z) : list Z :=
  match fuel with
  | O => acc
  | S f => if x =? 0 then acc else big_Bytes f (x / 256) (x mod 256 :: acc)
  end.

(** [big.NewInt(t.UnixNano()).Bytes()]: [Bytes] gives the absolute
    value, and that of an [int64] has at most 8 bytes. *)
Definition timeToBytes (unixNano : Z) : list Z := big_Bytes 8 (Z.abs unixNano) [].

(** The number that a big-endian byte slice stands for. *)
Definition big_value (l : list Z) : Z := fold_left (fun a b => a * 256 + b) l 0.

(** * The chat: wire format (package [socketchat]) *)

Module SocketChat.

Definition MaxNameByteSize : Z := 32.
Definition MaxDataByteSize : Z := 255.
Definition HeaderSize : Z := 6.
Definition MessageStartBytes : list Z := [0; 255].

(** [Command], a byte. *)
Definition CommandNewClient : Z := 1.
Definition CommandNewChat : Z := 2.
Definition CommandJoinChat : Z := 3.
Definition CommandLeaveChat : Z := 4.
Definition CommandMessage : Z := 5.
Definition CommandLeave : Z := 6.
Definition CommandError : Z := 7.

Record Message := {
  Command : Z;
  Sender : string;
  Receiver : string;
  Data : string
}.

(** An error of the connection underneath; [io.EOF] is told apart by
    the server. *)
Inductive io_error := EOF | IOError (msg : string).

Inductive error :=
| MaxNameSizeError
| MaxDataSizeError
| ReceiveHeaderError
| Underlying (e : io_error)            (* the error of [Write] or [Read], as it is *)
| SendMismatch (n : Z) (size : Z).     (* "error: %v. expected: %d, sent: %d" *)

(** Conversion to [byte]. *)
Definition byte (n : Z) : Z := n mod 256.

(** [len(s)] of a string: its number of bytes. *)
Definition len (s : string) : Z := Z.of_nat (String.length s).

(** [[]byte(s)] and [string(b)]. *)
Definition bytes (s : string) : list Z :=
  map (fun a => Z.of_N (Ascii.N_of_ascii a)) (list_ascii_of_string s).

Definition string_ (b : list Z) : string :=
  string_of_list_ascii (map (fun z => Ascii.ascii_of_N (Z.to_N z)) b).

(** What [c.c.Write(data)] returned. *)
Record write_result := {
  wr_n : Z;
  wr_err : option io_error
}.

(** The bytes [Send] puts together for a message. *)
Definition frame (msg : Message) : list Z :=
  MessageStartBytes
  ++ [byte (Command msg); byte (len (Sender msg)); byte (len (Receiver msg));
      byte (len (Data msg))]
  ++ bytes (Sender msg) ++ bytes (Receiver msg) ++ bytes (Data msg).

(** [Connection.Send]. The first component is the data handed to
    [Write], when the call got that far; the second the error
    returned. *)
Definition Send (write : list Z -> write_result) (msg : Message)
  : option (list Z) * option error :=
  if MaxNameByteSize <? len (Sender msg) then (None, Some MaxNameSizeError)
  else if MaxNameByteSize <? len (Receiver msg) then (None, Some MaxNameSizeError)
  else if MaxDataByteSize <? len (Data msg) then (None, Some MaxDataSizeError)
  else
    let data := frame msg in
    let r := write data in
    match wr_err r with
    | Some e => (Some data, Some (Underlying e))
    | None =>
      if negb (wr_n r =? Z.of_nat (length data))
      then (Some data, Some (SendMismatch (wr_n r) (Z.of_nat (length data))))
      else (Some data, None)
    end.

(** What a [c.r.Read(buf)] did: the bytes it delivered, from the
    start of the buffer on, and its error. *)
Record read := {
  rd_data : list Z;
  rd_fail : option io_error
}.

(** A buffer of [size] fresh cells after the read, and the count the
    read returned. *)
Definition buf_after (size : Z) (r : read) : list Z :=
  take (Z.to_nat size) (rd_data r ++ replicate (Z.to_nat size - length (rd_data r)) 0).

Definition count (size : Z) (r : read) : Z :=
  Z.min size (Z.of_nat (length (rd_data r))).

(** [b[lo:hi]], which panics unless [0 <= lo <= hi <= cap(b)]. *)
Definition slice (b : list Z) (lo hi : Z) : option (list Z) :=
  if (0 <=? lo) && (lo <=? hi) && (hi <=? Z.of_nat (length b))
  then Some (take (Z.to_nat (hi - lo)) (drop (Z.to_nat lo) b))
  else None.

Inductive outcome :=
| Got (m : Message)
| Failed (e : error)
| Panic.                       (* panic: slice bounds out of range *)

(** [Connection.Receive], with the outcomes of its two reads. The
    sizes are [uint8], and so are their sums. *)
Definition Receive (r1 r2 : read) : outcome :=
  let headerbuf := buf_after HeaderSize r1 in
  match rd_fail r1 with
  | Some e => Failed (Underlying e)
  | None =>
    if negb (count HeaderSize r1 =? HeaderSize) then Failed ReceiveHeaderError
    else if negb (bool_decide (take 2 headerbuf = MessageStartBytes))
    then Failed ReceiveHeaderError
    else
      let senderSize := nth 3 headerbuf 0 in
      let receiverSize := nth 4 headerbuf 0 in
      let msgSize := nth 5 headerbuf 0 in
      let totalSize := byte (senderSize + receiverSize + msgSize) in
      let databuf := buf_after totalSize r2 in
      match rd_fail r2 with
      | Some e => Failed (Underlying e)
      | None =>
        if negb (count totalSize r2 =? totalSize) then Failed ReceiveHeaderError
        else
          match slice databuf 0 senderSize,
                slice databuf senderSize (byte (senderSize + receiverSize)),
                slice databuf (byte (senderSize + receiverSize))
                      (Z.of_nat (length databuf)) with
          | Some s, Some r, Some d =>
            Got {| Command := nth 2 headerbuf 0;
                   Sender := string_ s; Receiver := string_ r; Data := string_ d |}
          | _, _, _ => Panic
          end
      end
  end.

End SocketChat.

(** * The chat: server *)

Module ChatServer.

Import SocketChat.

(** A [*socketchat.Connection], by its identity. *)
Definition conn := nat.

(** The errors the server makes with [fmt.Errorf]. *)
Inductive srv_error :=
| ErrGroupExists (group : string)          (* "group %s already exists!" *)
| ErrGroupMissing (group : string)         (* "group %s doesn't exist!" *)
| ErrForwarding (e : SocketChat.error)     (* "error forwarding message: %v" *)
| ErrClientNotFound (receiver : string).   (* "client %q not found" *)

(** The lines of the log. *)
Inductive logline :=
| LogNotInitialized (err : option SocketChat.error)
| LogShutdownEOF (name : string)
| LogErrorReading (err : SocketChat.error)
| LogMessageReceived (msg : Message)
| LogPrint (text : string)
| LogFailedToSend (err : srv_error)
| LogFailedToReturn (err : SocketChat.error)
| LogClientLeft (sender : string)
| LogNotUnderstood (cmd : Z).

(** The [Server], and what it did to the connections: the data
    handed to [Write], by connection, and the connections closed. *)
Record Server := {
  conns : gmap string conn;
  groups : gmap string (gmap string bool);
  connsMux : bool;
  groupsMux : bool;
  log : list logline;
  sent : list (conn * list Z);
  closed : list conn
}.

Definition NewServer : Server :=
  {| conns := ∅; groups := ∅; connsMux := false; groupsMux := false;
     log := []; sent := []; closed := [] |}.

Inductive Outcome (A : Type) :=
| Done (a : A) (s : Server)
| Crashed (f : fault)
| Stuck                       (* waits for a mutex that is never released *)
| Spent.                      (* the model ran out of fuel *)

Arguments Done {A} a s.
Arguments Crashed {A} f.
Arguments Stuck {A}.
Arguments Spent {A}.

Definition Act (A : Type) : Type := Server -> Outcome A.

Definition unit_ {A} (a : A) : Act A := fun s => Done a s.

Definition then_ {A B} (m : Act A) (k : A -> Act B) : Act B :=
  fun s => match m s with
           | Done a s' => k a s'
           | Crashed f => Crashed f
           | Stuck => Stuck
           | Spent => Spent
           end.

Declare Scope chat_scope.
Notation "'let*' x := m 'in' k" := (then_ m (fun x => k))
  (at level 10, x name, m at level 100, k at level 200) : chat_scope.
Notation "m ;;; k" := (then_ m (fun _ => k))
  (at level 100, k at level 200, right associativity) : chat_scope.
Local Open Scope chat_scope.

Definition read_ {A} (f : Server -> A) : Act A := fun s => Done (f s) s.
Definition update (f : Server -> Server) : Act unit := fun s => Done tt (f s).

(** A deferred call runs when the function returns. *)
Definition deferred {A} (d : Act unit) (body : Act A) : Act A :=
  let* a := body in d ;;; unit_ a.

Definition set_conns (m : gmap string conn) (s : Server) : Server :=
  {| conns := m; groups := groups s; connsMux := connsMux s; groupsMux := groupsMux s;
     log := log s; sent := sent s; closed := closed s |}.
Definition set_groups (g : gmap string (gmap string bool)) (s : Server) : Server :=
  {| conns := conns s; groups := g; connsMux := connsMux s; groupsMux := groupsMux s;
     log := log s; sent := sent s; closed := closed s |}.
Definition set_connsMux (b : bool) (s : Server) : Server :=
  {| conns := conns s; groups := groups s; connsMux := b; groupsMux := groupsMux s;
     log := log s; sent := sent s; closed := closed s |}.
Definition set_groupsMux (b : bool) (s : Server) : Server :=
  {| conns := conns s; groups := groups s; connsMux := connsMux s; groupsMux := b;
     log := log s; sent := sent s; closed := closed s |}.
Definition add_log (l : logline) (s : Server) : Server :=
  {| conns := conns s; groups := groups s; connsMux := connsMux s; groupsMux := groupsMux s;
     log := log s ++ [l]; sent := sent s; closed := closed s |}.
Definition add_sent (c : conn) (data : list Z) (s : Server) : Server :=
  {| conns := conns s; groups := groups s; connsMux := connsMux s; groupsMux := groupsMux s;
     log := log s; sent := sent s ++ [(c, data)]; closed := closed s |}.
Definition add_closed (c : conn) (s : Server) : Server :=
  {| conns := conns s; groups := groups s; connsMux := connsMux s; groupsMux := groupsMux s;
     log := log s; sent := sent s; closed := closed s ++ [c] |}.

Definition connsMux_Lock : Act unit :=
  fun s => if connsMux s then Stuck else Done tt (set_connsMux true s).
Definition connsMux_Unlock : Act unit :=
  fun s => if connsMux s then Done tt (set_connsMux false s)
           else Crashed UnlockOfUnlockedMutex.
Definition groupsMux_Lock : Act unit :=
  fun s => if groupsMux s then Stuck else Done tt (set_groupsMux true s).
Definition groupsMux_Unlock : Act unit :=
  fun s => if groupsMux s then Done tt (set_groupsMux false s)
           else Crashed UnlockOfUnlockedMutex.

Definition logPrint (l : logline) : Act unit := update (add_log l).

(** [c.Close()] *)
Definition Close (c : conn) : Act unit := update (add_closed c).

(** A loop [for member := range members] whose body returns an error
    to leave the function with. *)
Definition each (body : string -> Act (option srv_error))
  : list string -> Act (option srv_error) :=
  fix loop (l : list string) : Act (option srv_error) :=
    match l with
    | [] => unit_ None
    | member :: rest =>
      let* err := body member in
      match err with
      | Some e => unit_ (Some e)
      | None => loop rest
      end
    end.

Section Engine.

(** What the [n]-th [Write] of the run of the server returns, the
    text of an error value, and the order in which [range] visits the
    members of a group. *)
Variable Write : nat -> list Z -> write_result.
Variable Error : srv_error -> string.
Variable range : gmap string bool -> list string.

(** [c.Send(msg)] on the connection [c]. *)
Definition conn_Send (c : conn) (msg : Message) : Act (option SocketChat.error) :=
  fun s =>
    match Send (Write (length (sent s))) msg with
    | (Some data, err) => Done err (add_sent c data s)
    | (None, err) => Done err s
    end.

Definition GetConnection (connID : string) : Act (option conn) :=
  connsMux_Lock ;;;
  deferred connsMux_Unlock (read_ (fun s => conns s !! connID)).

Definition SetConnection (connID : string) (c : conn) : Act unit :=
  connsMux_Lock ;;;
  deferred connsMux_Unlock (update (fun s => set_conns (<[connID := c]> (conns s)) s)).

Definition DeleteConnection (connID : string) : Act unit :=
  connsMux_Lock ;;;
  deferred connsMux_Unlock (update (fun s => set_conns (delete connID (conns s)) s)).

(** [sendToClient]; [fuel] bounds the depth of the recursion. *)
Fixpoint sendToClient (fuel : nat) (msg : Message) (overrideReceiver : option string)
  : Act (option srv_error) :=
  match fuel with
  | O => fun _ => Spent
  | S fuel =>
    let receiver := match overrideReceiver with
                    | Some r => r
                    | None => Receiver msg
                    end in
    let* rc := GetConnection receiver in
    match rc with
    | Some receiverc =>
      let* err := conn_Send receiverc msg in
      match err with
      | Some e => unit_ (Some (ErrForwarding e))
      | None => unit_ None
      end
    | None =>
      groupsMux_Lock ;;;
      deferred groupsMux_Unlock (
        let* g := read_ (fun s => groups s !! receiver) in
        match g with
        | None => unit_ (Some (ErrClientNotFound receiver))
        | Some members =>
          each (fun member => sendToClient fuel msg (Some member)) (range members)
        end)
    end
  end.

Definition notifyClients (fuel : nat) (clientOrGroup message : string)
  : Act (option srv_error) :=
  sendToClient fuel {| Command := CommandMessage; Receiver := clientOrGroup;
                       Sender := "server"; Data := message |} None.

Definition returnErrorToClient (c : conn) (err : srv_error) : Act unit :=
  let* e := conn_Send c {| Command := CommandError; Sender := "server"; Receiver := "";
                           Data := Error err |} in
  match e with
  | Some e => logPrint (LogFailedToReturn e)
  | None => unit_ tt
  end.

(** The texts [handleConn] makes with [fmt.Sprintf]. *)
Definition newline : string := String (Ascii.ascii_of_nat 10) EmptyString.

Definition created_text (groupName sender : string) : string :=
  "Group " ++ groupName ++ " created by " ++ sender ++ "!" ++ newline.
Definition joined_text (groupName sender : string) : string :=
  "Client " ++ sender ++ " has joined group " ++ groupName.
Definition left_text (groupName sender : string) : string :=
  "Client " ++ sender ++ " has left group " ++ groupName.

(** The [switch] of [handleConn] on a message that was received. *)
Definition handle_message (fuel : nat) (c : conn) (name : string) (msg : Message)
  : Act ctl :=
  logPrint (LogMessageReceived msg) ;;;
  if Command msg =? CommandNewChat then
    let groupName := Data msg in
    groupsMux_Lock ;;;
    let* g := read_ (fun s => groups s !! groupName) in
    match g with
    | Some _ =>
      groupsMux_Unlock ;;;
      returnErrorToClient c (ErrGroupExists groupName) ;;;
      unit_ Continue
    | None =>
      update (fun s => set_groups (<[groupName := {[ Sender msg := true ]}]> (groups s)) s) ;;;
      groupsMux_Unlock ;;;
      let notifyMsg := created_text groupName (Sender msg) in
      notifyClients fuel groupName notifyMsg ;;;
      logPrint (LogPrint notifyMsg) ;;;
      unit_ Continue
    end
  else if Command msg =? CommandJoinChat then
    let groupName := Data msg in
    groupsMux_Lock ;;;
    let* g := read_ (fun s => groups s !! groupName) in
    match g with
    | None =>
      groupsMux_Unlock ;;;
      returnErrorToClient c (ErrGroupMissing groupName) ;;;
      unit_ Continue
    | Some members =>
      update (fun s => set_groups (<[groupName := <[Sender msg := true]> members]>
                                     (groups s)) s) ;;;
      groupsMux_Unlock ;;;
      let notifyMsg := joined_text groupName (Sender msg) in
      notifyClients fuel groupName notifyMsg ;;;
      logPrint (LogPrint notifyMsg) ;;;
      unit_ Continue
    end
  else if Command msg =? CommandLeaveChat then
    let groupName := Data msg in
    groupsMux_Lock ;;;
    let* g := read_ (fun s => groups s !! groupName) in
    match g with
    | None =>
      groupsMux_Unlock ;;;
      returnErrorToClient c (ErrGroupMissing groupName) ;;;
      unit_ Continue
    | Some members =>
      update (fun s => set_groups (<[groupName := delete (Sender msg) members]>
                                     (groups s)) s) ;;;
      groupsMux_Unlock ;;;
      let notifyMsg := left_text groupName (Sender msg) in
      notifyClients fuel groupName notifyMsg ;;;
      logPrint (LogPrint notifyMsg) ;;;
      unit_ Continue
    end
  else if Command msg =? CommandMessage then
    let* err := sendToClient fuel msg None in
    match err with
    | Some e =>
      logPrint (LogFailedToSend e) ;;;
      returnErrorToClient c e ;;;
      unit_ Continue
    | None => unit_ Continue
    end
  else if Command msg =? CommandLeave then
    DeleteConnection name ;;;
    logPrint (LogClientLeft (Sender msg)) ;;;
    unit_ Return
  else
    logPrint (LogNotUnderstood (Command msg)) ;;;
    unit_ Continue.

(** One round of the [for] loop of [handleConn], with the outcome of
    its [c.Receive()]. *)
Definition handle_round (fuel : nat) (c : conn) (name : string) (rc : outcome) : Act ctl :=
  match rc with
  | Panic => fun _ => Crashed SliceBoundsOutOfRange
  | Failed (Underlying EOF) => logPrint (LogShutdownEOF name) ;;; unit_ Return
  | Failed e => logPrint (LogErrorReading e) ;;; unit_ Continue
  | Got msg => handle_message fuel c name msg
  end.

(** The [for] loop of [handleConn] over the outcomes of the calls of
    [c.Receive()] to come. *)
Fixpoint handle_loop (fuel : nat) (c : conn) (name : string) (rcs : list outcome)
  : Act unit :=
  match rcs with
  | [] => fun _ => Spent
  | rc :: rest =>
    let* k := handle_round fuel c name rc in
    match k with
    | Return => unit_ tt
    | Continue => handle_loop fuel c name rest
    end
  end.

(** [handleConn]: [first] is the outcome of the first
    [c.Receive()]. *)
Definition handleConn (fuel : nat) (c : conn) (first : outcome) (rcs : list outcome)
  : Act unit :=
  deferred (Close c) (
    match first with
    | Panic => fun _ => Crashed SliceBoundsOutOfRange
    | Failed e => logPrint (LogNotInitialized (Some e))
    | Got namemsg =>
      if negb (Command namemsg =? CommandNewClient) then logPrint (LogNotInitialized None)
      else
        let name := Data namemsg in
        SetConnection name c ;;;
        handle_loop fuel c name rcs
    end).

End Engine.

End ChatServer.

(** Two states of the server that differ at most in what was written
    and logged. *)
Definition same_tables (s s' : ChatServer.Server) : Prop :=
  ChatServer.conns s' = ChatServer.conns s
  /\ ChatServer.groups s' = ChatServer.groups s
  /\ ChatServer.connsMux s' = ChatServer.connsMux s
  /\ ChatServer.groupsMux s' = ChatServer.groupsMux s
  /\ ChatServer.closed s' = ChatServer.closed s.

(** A message that [Send] refuses before it writes. *)
Definition oversize (msg : SocketChat.Message) : Prop :=
  32 < SocketChat.len (SocketChat.Sender msg)
  \/ 32 < SocketChat.len (SocketChat.Receiver msg)
  \/ 255 < SocketChat.len (SocketChat.Data msg).

(** Every [Send] of the message works: it passes the size checks and
    each [Write] takes all of the data. *)
Definition Send_works (Write : nat -> list Z -> SocketChat.write_result)
           (msg : SocketChat.Message) : Prop :=
  forall n, SocketChat.Send (Write n) msg = (Some (SocketChat.frame msg), None).

(** ** Examples for the chat *)

(** A connection that takes every write, an order of [range], and a
    text for every error. *)
Definition example_Write : nat -> list Z -> SocketChat.write_result :=
  fun _ data => {| SocketChat.wr_n := Z.of_nat (length data); SocketChat.wr_err := None |}.

Definition example_range : gmap string bool -> list string :=
  fun members => (map_to_list members).*1.

Definition example_Error : ChatServer.srv_error -> string := fun _ => "error"%string.

Definition example_hello : SocketChat.Message :=
  {| SocketChat.Command := SocketChat.CommandMessage; SocketChat.Sender := "ann";
     SocketChat.Receiver := "bob"; SocketChat.Data := "hello" |}.

(** A message with 255 bytes of data, which [Send] accepts. *)
Definition example_big : SocketChat.Message :=
  {| SocketChat.Command := SocketChat.CommandMessage; SocketChat.Sender := "ann";
     SocketChat.Receiver := "bob";
     SocketChat.Data := string_of_list_ascii (repeat (Ascii.ascii_of_nat 120) 255) |}.


(** Ann and Bob are connected and both in the group "room"; Cy is in
    the group "team" with Ann, but has no connection. *)
Definition example_server : ChatServer.Server :=
  {| ChatServer.conns := {[ "ann"%string := 1%nat; "bob"%string := 2%nat ]};
     ChatServer.groups :=
       {[ "room"%string := {[ "ann"%string := true; "bob"%string := true ]};
          "team"%string := {[ "ann"%string := true; "cy"%string := true ]} ]};
     ChatServer.connsMux := false; ChatServer.groupsMux := false;
     ChatServer.log := []; ChatServer.sent := []; ChatServer.closed := [] |}.

Definition example_to (receiver : string) : SocketChat.Message :=
  {| SocketChat.Command := SocketChat.CommandMessage; SocketChat.Sender := "ann";
     SocketChat.Receiver := receiver; SocketChat.Data := "hello" |}.

Definition example_command (cmd : Z) (sender data : string) : SocketChat.Message :=
  {| SocketChat.Command := cmd; SocketChat.Sender := sender;
     SocketChat.Receiver := ""; SocketChat.Data := data |}.

(** * Properties *)

(** Unfolds the operations of the monad. *)
Ltac run_m :=
  unfold defer, logPrintf, ps_PacketLost, invoke, bind, ret, gets, modify, crash;
  cbn [queue seq mux ps out calls wrote set_queue set_seq set_mux set_globals
       set_ps add_out add_call incr_wrote fst snd].

Tactic Notation "run_m" "in" hyp(H) :=
  unfold defer, logPrintf, ps_PacketLost, invoke, bind, ret, gets, modify, crash in H;
  cbn [queue seq mux ps out calls wrote set_queue set_seq set_mux set_globals
       set_ps add_out add_call incr_wrote fst snd] in H.

(** ** 64-bit arithmetic *)

Section Int64Facts.

Import Int64.

Lemma wrap_in_range (x : Z) : in_range (wrap x).
Proof.
  unfold in_range, wrap, min_signed, max_signed, modulus.
  pose proof (Z.mod_pos_bound (x + 2 ^ 63) (2 ^ 64) ltac:(lia)). lia.
Qed.

Lemma wrap_id (x : Z) : in_range x -> wrap x = x.
Proof.
  unfold in_range, wrap, min_signed, max_signed, modulus. intros H.
  rewrite Z.mod_small; lia.
Qed.

Lemma wrap_add_l (a b : Z) : wrap (wrap a + b) = wrap (a + b).
Proof.
  unfold wrap, modulus. f_equal.
  replace ((a + 2 ^ 63) mod 2 ^ 64 - 2 ^ 63 + b + 2 ^ 63)
    with ((a + 2 ^ 63) mod 2 ^ 64 + b) by lia.
  rewrite Zplus_mod_idemp_l. f_equal. lia.
Qed.

Lemma quot_in_range (x n : Z) : in_range x -> 1 <= n -> in_range (Z.quot x n).
Proof.
  unfold in_range, min_signed, max_signed. intros Hx Hn.
  destruct (Z_le_gt_dec 0 x) as [Hpos | Hneg].
  - rewrite Z.quot_div_nonneg by lia.
    pose proof (Z.div_pos x n ltac:(lia) ltac:(lia)).
    pose proof (Z.div_le_upper_bound x n x ltac:(lia) ltac:(nia)). lia.
  - replace x with (- - x) by lia. rewrite Z.quot_opp_l by lia.
    rewrite Z.quot_div_nonneg by lia.
    pose proof (Z.div_pos (- x) n ltac:(lia) ltac:(lia)).
    pose proof (Z.div_le_upper_bound (- x) n (- x) ltac:(lia) ltac:(nia)). lia.
Qed.

Lemma div_no_wrap (x n : Z) : in_range x -> 1 <= n -> Int64.div x n = Z.quot x n.
Proof. intros Hx Hn. unfold Int64.div. apply wrap_id, quot_in_range; assumption. Qed.

End Int64Facts.

(** ** float64 facts used by [Calculate] *)

Section Float64Facts.

Import Float64.

(** A float minus itself is +0, or NaN when it is not finite. *)
Lemma sub_diag (x : float64) : sub x x = zero \/ sub x x = NaN.
Proof.
  destruct x as [s | s | | s m e]; cbn.
  - left. now destruct s.
  - right. now destruct s.
  - now right.
  - left. unfold sub, SFsub. rewrite Z.sub_diag. reflexivity.
Qed.

Lemma Pow_2_zero : Pow_2 zero = zero.
Proof. reflexivity. Qed.

Lemma Pow_2_NaN : Pow_2 NaN = NaN.
Proof. reflexivity. Qed.

Lemma to_int64_NaN (arch : float64 -> Z) : to_int64 arch NaN = arch NaN.
Proof. reflexivity. Qed.

(** Rounding a mantissa that is not negative never gives a NaN or a
    negative float. *)
Lemma iter_pos_inv {A} (f : A -> A) (P : A -> Prop) :
  (forall x, P x -> P (f x)) -> forall n x, P x -> P (SpecFloat.iter_pos f n x).
Proof.
  intros Hf. induction n as [n IH | n IH |]; intros x Hx; cbn; auto.
Qed.

Lemma shr_1_nonneg (mrs : shr_record) : 0 <= shr_m mrs -> 0 <= shr_m (shr_1 mrs).
Proof.
  destruct mrs as [m r s]. cbn. intros H.
  destruct m as [| [p | p |] | p]; cbn; lia.
Qed.

Lemma shr_fexp_nonneg (m e : Z) (l : location) :
  0 <= m -> 0 <= shr_m (fst (shr_fexp prec emax m e l)).
Proof.
  intros H. unfold shr_fexp, shr.
  assert (H0 : 0 <= shr_m (shr_record_of_loc m l)).
  { destruct l as [| []]; exact H. }
  destruct (fexp prec emax (Zdigits2 m + e) - e) as [| p | p]; cbn [fst]; try exact H0.
  apply (iter_pos_inv shr_1 (fun mrs => 0 <= shr_m mrs)); [apply shr_1_nonneg | exact H0].
Qed.

Lemma binary_round_aux_pos (m e : Z) (l : location) :
  0 <= m ->
  match binary_round_aux prec emax false m e l with
  | S754_zero s | S754_infinity s | S754_finite s _ _ => s = false
  | S754_nan => False
  end.
Proof.
  intros H. unfold binary_round_aux.
  pose proof (shr_fexp_nonneg m e l H) as H1.
  destruct (shr_fexp prec emax m e l) as [mrs' e']. cbn [fst] in H1.
  set (m1 := round_nearest_even _ _).
  assert (Hm1 : 0 <= m1).
  { subst m1. unfold round_nearest_even.
    destruct (loc_of_shr_record mrs') as [| []]; try lia.
    destruct (Z.even (shr_m mrs')); lia. }
  pose proof (shr_fexp_nonneg m1 e' loc_Exact Hm1) as H2.
  destruct (shr_fexp prec emax m1 e' loc_Exact) as [mrs'' e'']. cbn [fst] in H2.
  destruct (shr_m mrs'') as [| p | p]; [reflexivity | | lia].
  destruct (e'' <=? emax - prec); reflexivity.
Qed.

(** [float64(x)] for a positive [x] is +0, a positive float or +Inf. *)
Lemma of_int_pos (p : positive) :
  match of_int (Zpos p) with
  | S754_zero s | S754_infinity s | S754_finite s _ _ => s = false
  | S754_nan => False
  end.
Proof.
  unfold of_int, binary_normalize, binary_round.
  destruct (shl_align p 0 _) as [mz ez]. apply binary_round_aux_pos. lia.
Qed.

(** *** Integers below 2^53 go through float64 unchanged *)

(** The number of binary digits of a positive number, and the powers
    of two around it. *)
Lemma digits2_size (p : positive) : digits2_pos p = Pos.size p.
Proof. induction p; cbn; congruence. Qed.

Lemma digits2_bounds (p : positive) :
  2 ^ (Z.pos (digits2_pos p) - 1) <= Z.pos p < 2 ^ Z.pos (digits2_pos p).
Proof.
  rewrite digits2_size. split.
  - pose proof (Pos.size_le p) as H.
    assert (H' : 2 ^ Z.pos (Pos.size p) <= 2 * Z.pos p).
    { rewrite <- Pos2Z.inj_pow. change (2 * Z.pos p) with (Z.pos p~0). lia. }
    replace (Z.pos (Pos.size p)) with (Z.pos (Pos.size p) - 1 + 1) in H' by lia.
    rewrite Z.pow_add_r, Z.pow_1_r in H' by lia. lia.
  - pose proof (Pos.size_gt p) as H. rewrite <- Pos2Z.inj_pow. lia.
Qed.

Lemma digits2_le_53 (p : positive) : Z.pos p < 2 ^ 53 -> Z.pos (digits2_pos p) <= 53.
Proof.
  intros H. destruct (digits2_bounds p) as [Hlo _].
  destruct (Z_le_gt_dec (Z.pos (digits2_pos p)) 53) as [| Hgt]; [assumption |].
  exfalso. assert (2 ^ 53 <= 2 ^ (Z.pos (digits2_pos p) - 1)) by (apply Z.pow_le_mono_r; lia).
  lia.
Qed.

(** Shifting a mantissa to the left, as [shl_align] does. *)
Lemma iter_xO_value (p k : positive) : Z.pos (Pos.iter xO p k) = Z.pos p * 2 ^ Z.pos k.
Proof.
  induction k as [| k IH] using Pos.peano_ind.
  - cbn. lia.
  - rewrite Pos.iter_succ, Pos2Z.inj_succ, Z.pow_succ_r by lia.
    change (Z.pos (Pos.iter xO p k)~0) with (2 * Z.pos (Pos.iter xO p k)). rewrite IH. lia.
Qed.

Lemma iter_xO_digits (p k : positive) :
  Z.pos (digits2_pos (Pos.iter xO p k)) = Z.pos (digits2_pos p) + Z.pos k.
Proof.
  induction k as [| k IH] using Pos.peano_ind.
  - cbn. lia.
  - rewrite Pos.iter_succ. cbn [digits2_pos]. lia.
Qed.

(** A mantissa of 53 bits with an exponent in range is a float as it is. *)
Lemma binary_round_aux_canonical (s : bool) (m : positive) (e : Z) :
  Z.pos (digits2_pos m) = 53 -> -1074 <= e <= 971 ->
  binary_round_aux prec emax s (Z.pos m) e loc_Exact = S754_finite s m e.
Proof.
  intros Hd He. unfold binary_round_aux.
  assert (Hs : shr_fexp prec emax (Z.pos m) e loc_Exact
               = ({| shr_m := Z.pos m; shr_r := false; shr_s := false |}, e)).
  { unfold shr_fexp, fexp, emin, prec, emax. cbn [Zdigits2]. rewrite Hd.
    replace (Z.max (53 + e - 53) (3 - 1024 - 53) - e) with 0 by lia. reflexivity. }
  rewrite Hs. cbn [shr_m loc_of_shr_record round_nearest_even]. rewrite Hs. cbn [shr_m].
  unfold prec, emax. destruct (Z.leb_spec e (1024 - 53)); [reflexivity | lia].
Qed.

(** [float64(p)] for [p] below 2^53: no rounding. *)
Lemma of_int_exact (p : positive) :
  Z.pos p < 2 ^ 53 ->
  of_int (Z.pos p) = S754_finite false (norm_m p) (Z.pos (digits2_pos p) - 53)
  /\ Z.pos (norm_m p) = Z.pos p * 2 ^ (53 - Z.pos (digits2_pos p)).
Proof.
  intros Hp. pose proof (digits2_le_53 p Hp) as Hd.
  unfold of_int, binary_normalize, binary_round, norm_m.
  assert (Hf : fexp prec emax (Z.pos (digits2_pos p) + 0) = Z.pos (digits2_pos p) - 53).
  { unfold fexp, emin, prec, emax. lia. }
  rewrite Hf. unfold shl_align.
  destruct (53 - Z.pos (digits2_pos p)) as [| k | k] eqn:Ek; try lia.
  - replace (Z.pos (digits2_pos p) - 53 - 0) with 0 by lia.
    replace (Z.pos (digits2_pos p) - 53) with 0 by lia.
    split; [| lia]. apply binary_round_aux_canonical; lia.
  - replace (Z.pos (digits2_pos p) - 53 - 0) with (Z.neg k) by lia.
    split; [| apply iter_xO_value].
    apply binary_round_aux_canonical; [rewrite iter_xO_digits |]; lia.
Qed.

(** [int64(float64(x))] is [x]. *)
Lemma to_int64_of_int (arch : float64 -> Z) (x : Z) :
  below_2_53 x -> to_int64 arch (of_int x) = x.
Proof.
  unfold below_2_53. intros Hx. destruct x as [| p | p]; [reflexivity | | lia].
  destruct (of_int_exact p ltac:(lia)) as [-> Hm].
  pose proof (digits2_le_53 p ltac:(lia)) as Hd.
  assert (Ht : trunc false (norm_m p) (Z.pos (digits2_pos p) - 53) = Z.pos p).
  { unfold trunc.
    destruct (Z.pos (digits2_pos p) - 53) as [| k | k] eqn:Ek; try lia.
    - rewrite Hm. replace (53 - Z.pos (digits2_pos p)) with 0 by lia. lia.
    - rewrite Hm. replace (53 - Z.pos (digits2_pos p)) with (Z.pos k) by lia.
      rewrite Z.shiftr_div_pow2 by lia. apply Z.div_mul. lia. }
  cbn [to_int64]. rewrite Ht.
  unfold Int64.in_rangeb, Int64.min_signed, Int64.max_signed.
  destruct (Z.leb_spec (- 2 ^ 63) (Z.pos p)); [| lia].
  destruct (Z.leb_spec (Z.pos p) (2 ^ 63 - 1)); [reflexivity | lia].
Qed.

(** The floats compare as the integers do. *)
Lemma SFltb_of_int (a b : Z) :
  below_2_53 a -> below_2_53 b -> SFltb (of_int a) (of_int b) = (a <? b).
Proof.
  unfold below_2_53. intros Ha Hb.
  destruct a as [| p | p]; destruct b as [| q | q]; try lia.
  - reflexivity.
  - destruct (of_int_exact q ltac:(lia)) as [-> _]. reflexivity.
  - destruct (of_int_exact p ltac:(lia)) as [-> _]. reflexivity.
  - destruct (of_int_exact p ltac:(lia)) as [-> Hp].
    destruct (of_int_exact q ltac:(lia)) as [-> Hq].
    pose proof (digits2_bounds p) as Bp. pose proof (digits2_bounds q) as Bq.
    pose proof (digits2_le_53 p ltac:(lia)) as Dp.
    pose proof (digits2_le_53 q ltac:(lia)) as Dq.
    unfold SFltb, SFcompare.
    destruct (Z.compare_spec (Z.pos (digits2_pos p) - 53) (Z.pos (digits2_pos q) - 53))
      as [He | He | He].
    + assert (Hd : Z.pos (digits2_pos p) = Z.pos (digits2_pos q)) by lia.
      rewrite Hd in Hp.
      assert (H2 : 0 < 2 ^ (53 - Z.pos (digits2_pos q))) by (apply Z.pow_pos_nonneg; lia).
      change (Pos.compare_cont Eq (norm_m p) (norm_m q)) with (Pos.compare (norm_m p) (norm_m q)).
      destruct (Pos.compare_spec (norm_m p) (norm_m q)) as [Hc | Hc | Hc];
        symmetry; [apply Z.ltb_ge | apply Z.ltb_lt | apply Z.ltb_ge]; nia.
    + symmetry. apply Z.ltb_lt.
      assert (2 ^ Z.pos (digits2_pos p) <= 2 ^ (Z.pos (digits2_pos q) - 1))
        by (apply Z.pow_le_mono_r; lia).
      lia.
    + symmetry. apply Z.ltb_ge.
      assert (2 ^ Z.pos (digits2_pos q) <= 2 ^ (Z.pos (digits2_pos p) - 1))
        by (apply Z.pow_le_mono_r; lia).
      lia.
Qed.

Lemma of_int_exact_cases (x : Z) :
  below_2_53 x ->
  (x = 0 /\ of_int x = zero) \/ (exists m e, of_int x = S754_finite false m e).
Proof.
  unfold below_2_53. intros Hx. destruct x as [| p | p]; try lia.
  - left. split; reflexivity.
  - right. destruct (of_int_exact p ltac:(lia)) as [-> _]. eauto.
Qed.

End Float64Facts.

(** ** The statistics aggregator *)

Section StatsFacts.

Import Float64 Stats.

Variable arch : float64 -> Z.

Lemma packets_fold (os : list probe) (s : PingStats) :
  packets (fold_left record os s) = packets s ++ map stat_of os.
Proof.
  revert s. induction os as [| o os IH]; intros s; simpl.
  - now rewrite app_nil_r.
  - rewrite IH. destruct o; simpl; now rewrite <- app_assoc.
Qed.

Lemma packets_recorded (os : list probe) : packets (recorded os) = map stat_of os.
Proof. unfold recorded. now rewrite packets_fold. Qed.

Lemma rtts_recorded (os : list probe) :
  omap rtt (map stat_of os) = received_rtts os.
Proof.
  unfold received_rtts.
  induction os as [| [r |] os IH]; simpl in *; [reflexivity | now f_equal | assumption].
Qed.

Lemma loop1_body_rttsum (i : nat) (p : packetStat) (a : loop1) :
  l_rttsum (loop1_body arch i p a)
  = match rtt p with
    | Some r => Int64.add (l_rttsum a) r
    | None => l_rttsum a
    end.
Proof. unfold loop1_body. destruct (rtt p); [destruct i |]; reflexivity. Qed.

(** The running sum of the first loop is the wrapped sum of the
    round-trip times met so far. *)
Lemma loop1_rttsum (l : list packetStat) (i : nat) (a : loop1) :
  Int64.in_range (l_rttsum a) ->
  l_rttsum (loop1_run arch i l a) = Int64.wrap (l_rttsum a + sum_Z (omap rtt l)).
Proof.
  revert i a. induction l as [| p l IH]; intros i a Ha.
  - simpl. rewrite Z.add_0_r, wrap_id by assumption. reflexivity.
  - cbn [loop1_run]. rewrite IH.
    + rewrite loop1_body_rttsum. simpl. destruct (rtt p) as [r |]; simpl.
      * unfold Int64.add. rewrite wrap_add_l, Z.add_assoc. reflexivity.
      * reflexivity.
    + rewrite loop1_body_rttsum. destruct (rtt p); [apply wrap_in_range | assumption].
Qed.

Lemma Calculate_AvgRTT (now : Z) (s : PingStats) :
  packets s <> [] ->
  AvgRTT (Calculate arch now s)
  = Z.quot (Int64.wrap (sum_Z (omap rtt (packets s)))) (Z.of_nat (length (packets s))).
Proof.
  intros Hne. unfold Calculate. destruct (packets s) as [| p l] eqn:E; [congruence |].
  cbn [AvgRTT]. rewrite loop1_rttsum by (cbn; unfold Int64.in_range, Int64.min_signed, Int64.max_signed; lia).
  cbn [l_rttsum loop1_init]. rewrite Z.add_0_l.
  apply div_no_wrap; [apply wrap_in_range |]. simpl length. lia.
Qed.

(** The minimum of 0 and a positive duration, as [processDurations]
    computes it, is 0. *)
Lemma processDurations_Min_0 (r : Z) : 0 < r -> processDurations arch Min 0 r = 0.
Proof.
  intros Hr. destruct r as [| p | p]; try lia.
  unfold processDurations. pose proof (of_int_pos p) as H.
  change (of_int 0) with zero.
  destruct (of_int (Z.pos p)) as [s | s | | s m e]; try contradiction; subst s; reflexivity.
Qed.

(** Past the index 0 a minimum of 0 stays 0 when the round-trip times
    are positive. *)
Lemma loop1_min_stays_0 (l : list packetStat) (i : nat) (a : loop1) :
  l_MinRTT a = 0 ->
  Forall (fun p => forall r, rtt p = Some r -> 0 < r) l ->
  l_MinRTT (loop1_run arch (S i) l a) = 0.
Proof.
  revert i a. induction l as [| p l IH]; intros i a Ha Hl; [exact Ha |].
  inversion Hl as [| ? ? Hp Hl']; subst. cbn [loop1_run]. apply IH; [| exact Hl'].
  unfold loop1_body. destruct (rtt p) as [r |] eqn:Er; cbn [l_MinRTT]; [| exact Ha].
  rewrite Ha. apply processDurations_Min_0, Hp. reflexivity.
Qed.

(** In the exact range [processDurations] computes the minimum and the
    maximum of the integers. *)
Lemma processDurations_Min (a b : Z) :
  below_2_53 a -> below_2_53 b -> processDurations arch Min a b = Z.min a b.
Proof.
  intros Ha Hb. unfold processDurations, Min.
  pose proof (SFltb_of_int a b Ha Hb) as Hlt.
  pose proof (to_int64_of_int arch a Ha) as Ta.
  pose proof (to_int64_of_int arch b Hb) as Tb.
  destruct (of_int_exact_cases a Ha) as [[-> Ea] | (ma & ea & Ea)];
    destruct (of_int_exact_cases b Hb) as [[-> Eb] | (mb & eb & Eb)];
    rewrite ?Ea, ?Eb in *; cbn [IsInf IsNaN is_zero Signbit orb andb zero];
    try rewrite Hlt; try (destruct (Z.ltb_spec a b)); try (destruct (Z.ltb_spec 0 b));
    try (destruct (Z.ltb_spec a 0)); rewrite ?Ta, ?Tb; try reflexivity; lia.
Qed.

Lemma processDurations_Max (a b : Z) :
  below_2_53 a -> below_2_53 b -> processDurations arch Max a b = Z.max a b.
Proof.
  intros Ha Hb. unfold processDurations, Max.
  pose proof (SFltb_of_int b a Hb Ha) as Hlt.
  pose proof (to_int64_of_int arch a Ha) as Ta.
  pose proof (to_int64_of_int arch b Hb) as Tb.
  destruct (of_int_exact_cases a Ha) as [[-> Ea] | (ma & ea & Ea)];
    destruct (of_int_exact_cases b Hb) as [[-> Eb] | (mb & eb & Eb)];
    rewrite ?Ea, ?Eb in *; cbn [IsInf IsNaN is_zero Signbit orb andb zero];
    try rewrite Hlt; try (destruct (Z.ltb_spec b a)); try (destruct (Z.ltb_spec 0 a));
    try (destruct (Z.ltb_spec b 0)); rewrite ?Ta, ?Tb; try reflexivity; lia.
Qed.

Lemma loop1_body_minmax (i : nat) (p : packetStat) (a : loop1) :
  l_MinRTT (loop1_body arch (S i) p a)
  = match rtt p with
    | Some r => processDurations arch Min (l_MinRTT a) r
    | None => l_MinRTT a
    end
  /\ l_MaxRTT (loop1_body arch (S i) p a)
     = match rtt p with
       | Some r => processDurations arch Max (l_MaxRTT a) r
       | None => l_MaxRTT a
       end.
Proof. unfold loop1_body. destruct (rtt p); split; reflexivity. Qed.

(** Past the index 0 the first loop folds [Z.min] and [Z.max] over the
    round-trip times, as long as they are in the exact range. *)
Lemma loop1_minmax (l : list packetStat) (i : nat) (a : loop1) :
  below_2_53 (l_MinRTT a) ->
  below_2_53 (l_MaxRTT a) ->
  Forall (fun p => forall r, rtt p = Some r -> below_2_53 r) l ->
  l_MinRTT (loop1_run arch (S i) l a) = fold_left Z.min (omap rtt l) (l_MinRTT a)
  /\ l_MaxRTT (loop1_run arch (S i) l a) = fold_left Z.max (omap rtt l) (l_MaxRTT a).
Proof.
  revert i a. induction l as [| p l IH]; intros i a Hmin Hmax Hl; [split; reflexivity |].
  inversion Hl as [| ? ? Hp Hl']; subst. cbn [loop1_run].
  destruct (loop1_body_minmax i p a) as [Emin Emax].
  cbn [omap list_omap]. destruct (rtt p) as [r |] eqn:Er.
  - specialize (Hp r eq_refl).
    rewrite processDurations_Min in Emin by assumption.
    rewrite processDurations_Max in Emax by assumption.
    destruct (IH (S i) (loop1_body arch (S i) p a)) as [-> ->].
    + rewrite Emin. unfold below_2_53 in *. lia.
    + rewrite Emax. unfold below_2_53 in *. lia.
    + exact Hl'.
    + rewrite Emin, Emax. cbn [fold_left]. split; reflexivity.
  - destruct (IH (S i) (loop1_body arch (S i) p a)) as [-> ->].
    + rewrite Emin. exact Hmin.
    + rewrite Emax. exact Hmax.
    + exact Hl'.
    + rewrite Emin, Emax. split; reflexivity.
Qed.

Lemma min_list_pos (l : list Z) (m : Z) :
  Forall (fun r => 0 < r) l -> min_list l = Some m -> 0 < m.
Proof.
  destruct l as [| x l]; [discriminate |]. cbn. intros Hl [= <-].
  inversion Hl as [| ? ? Hx Hl']; subst. clear Hl.
  revert x Hx. induction Hl' as [| y l Hy Hl' IH]; intros x Hx; cbn; [exact Hx |].
  apply IH. lia.
Qed.

(** A property of the round-trip times of the replies holds for the
    records that were appended for them. *)
Lemma Forall_stat_of (P : Z -> Prop) (os : list probe) :
  Forall P (received_rtts os) ->
  Forall (fun p => forall r, rtt p = Some r -> P r) (map stat_of os).
Proof.
  intros H. induction os as [| [r |] os IH]; cbn in *; constructor.
  - intros r' [= <-]. now inversion H.
  - apply IH. now inversion H.
  - discriminate.
  - apply IH. exact H.
Qed.

End StatsFacts.

(** C9. [Calculate] on an aggregator without records returns the
    summary whose fields are all zero: packets sent and received, the
    elapsed time, and the minimum, average, maximum and standard
    deviation of the round-trip time. Nothing is divided. *)
Theorem Calculate_no_records (arch : Float64.float64 -> Z) (now : Z) (s : PingStats) :
  packets s = [] ->
  Calculate arch now s = zero_summary
  /\ NumPackets (Calculate arch now s) = 0
  /\ NumReceived (Calculate arch now s) = 0
  /\ TotalDuration (Calculate arch now s) = 0
  /\ MinRTT (Calculate arch now s) = 0
  /\ AvgRTT (Calculate arch now s) = 0
  /\ MaxRTT (Calculate arch now s) = 0
  /\ SdevRTT (Calculate arch now s) = 0.
Proof.
  intros H. unfold Calculate. rewrite H. repeat split.
Qed.

Lemma Calculate_no_records_witness :
  Calculate Float64.amd64 1500 (Start 1000 empty_stats) = zero_summary.
Proof.
  apply (Calculate_no_records Float64.amd64 1500 (Start 1000 empty_stats)).
  reflexivity.
Defined.

(** C5. For a non-empty sequence of recorded probes the average
    round-trip time is the sum of the round-trip times of the received
    records divided by the number of all records, replies and losses
    alike. The sum is kept in an int64 and the division is Go's
    integer division. *)
Theorem Calculate_avg_over_sent (arch : Float64.float64 -> Z) (now : Z) (os : list probe) :
  os <> [] ->
  AvgRTT (Calculate arch now (recorded os))
  = Z.quot (Int64.wrap (sum_Z (received_rtts os))) (Z.of_nat (length os))
  /\ (Int64.in_range (sum_Z (received_rtts os)) ->
      AvgRTT (Calculate arch now (recorded os))
      = Z.quot (sum_Z (received_rtts os)) (Z.of_nat (length os))).
Proof.
  intros Hne.
  assert (E : AvgRTT (Calculate arch now (recorded os))
              = Z.quot (Int64.wrap (sum_Z (received_rtts os))) (Z.of_nat (length os))).
  { rewrite Calculate_AvgRTT.
    - now rewrite packets_recorded, rtts_recorded, length_map.
    - rewrite packets_recorded. destruct os; [congruence | discriminate]. }
  split; [exact E |].
  intros Hr. rewrite E, wrap_id by assumption. reflexivity.
Qed.

Lemma Calculate_avg_over_sent_witness :
  AvgRTT (Calculate Float64.amd64 0 (recorded [Reply (ms_ns 10); Reply (ms_ns 20); Lost]))
  = ms_ns 10.
Proof.
  destruct (Calculate_avg_over_sent Float64.amd64 0
              [Reply (ms_ns 10); Reply (ms_ns 20); Lost] ltac:(discriminate)) as [E _].
  rewrite E. reflexivity.
Defined.

(** The deviations of a single record add up to +0 or to NaN, and the
    divisor [float64(len(s.packets)-1)] is +0: the quotient is NaN. *)
Lemma sdev_float_single (p : packetStat) (avg : Z) :
  (forall r, rtt p = Some r -> avg = r) ->
  sdev_float avg [p] = Float64.NaN.
Proof.
  intros Havg. unfold sdev_float, loop2_run, loop2_body.
  destruct (rtt p) as [r |] eqn:Er.
  - rewrite (Havg r eq_refl). generalize (ms r) as x. intros x.
    destruct (sub_diag x) as [-> | ->]; reflexivity.
  - reflexivity.
Qed.

(** C4, on the code. With exactly one recorded probe the float that
    [Calculate] converts into [SdevRTT] is NaN (the square root of 0/0),
    so that [SdevRTT] is whatever the machine makes of [int64(NaN)]; it
    is not defined as zero. *)
Theorem Calculate_one_record_sdev (arch : Float64.float64 -> Z) (now : Z)
        (s : PingStats) (p : packetStat) :
  packets s = [p] ->
  (forall r, rtt p = Some r -> Int64.in_range r) ->
  sdev_float (AvgRTT (Calculate arch now s)) (packets s) = Float64.NaN
  /\ SdevRTT (Calculate arch now s) = arch Float64.NaN.
Proof.
  intros Hp Hr.
  assert (Havg : forall r, rtt p = Some r -> AvgRTT (Calculate arch now s) = r).
  { intros r Er. rewrite Calculate_AvgRTT by (rewrite Hp; discriminate).
    rewrite Hp. simpl. rewrite Er. simpl. rewrite Z.add_0_r, Z.quot_1_r.
    apply wrap_id, Hr, Er. }
  assert (E : sdev_float (AvgRTT (Calculate arch now s)) (packets s) = Float64.NaN).
  { rewrite Hp. apply sdev_float_single, Havg. }
  split; [exact E |].
  unfold Calculate in *. rewrite Hp in *. cbn [SdevRTT AvgRTT] in *.
  rewrite E. reflexivity.
Qed.

Lemma Calculate_one_record_sdev_witness :
  SdevRTT (Calculate Float64.amd64 0 (recorded [Reply (ms_ns 10)])) = - 9223372036854775808.
Proof.
  destruct (Calculate_one_record_sdev Float64.amd64 0 (recorded [Reply (ms_ns 10)])
              {| successful := true; rtt := Some (ms_ns 10) |} eq_refl) as [_ E].
  - intros r H. injection H as <-. unfold Int64.in_range. vm_compute. split; discriminate.
  - rewrite E. reflexivity.
Defined.

(** C6, on the code. [MinRTT] is initialised from a record only at
    the index 0. When the first record is a loss, [MinRTT] keeps its
    initial value 0 and every later reply is compared with it: with
    positive round-trip times the result is 0, which is not the minimum
    over the received records. *)
Theorem Calculate_min_after_first_loss (arch : Float64.float64 -> Z) (now : Z)
        (os : list probe) :
  Forall (fun r => 0 < r) (received_rtts os) ->
  MinRTT (Calculate arch now (recorded (Lost :: os))) = 0
  /\ forall m, min_list (received_rtts (Lost :: os)) = Some m ->
               MinRTT (Calculate arch now (recorded (Lost :: os))) <> m.
Proof.
  intros Hpos.
  assert (E : MinRTT (Calculate arch now (recorded (Lost :: os))) = 0).
  { unfold Calculate. rewrite packets_recorded. cbn [map stat_of MinRTT loop1_run].
    apply loop1_min_stays_0; [reflexivity |].
    apply (Forall_stat_of (fun r => 0 < r)), Hpos. }
  split; [exact E |].
  intros m Hm. rewrite E. apply min_list_pos in Hm; [lia | exact Hpos].
Qed.

Lemma Calculate_min_after_first_loss_witness :
  MinRTT (Calculate Float64.amd64 0 (recorded [Lost; Reply (ms_ns 10)])) = 0
  /\ min_list (received_rtts [Lost; Reply (ms_ns 10)]) = Some (ms_ns 10).
Proof.
  split; [| reflexivity].
  apply (Calculate_min_after_first_loss Float64.amd64 0 [Reply (ms_ns 10)]).
  repeat constructor.
Defined.

(** Next to C6: when the first record is a reply, [MinRTT] and [MaxRTT]
    are the minimum and the maximum over the received records, for
    round-trip times up to 2^53 ns. The losses that follow do not
    contribute. *)
Theorem Calculate_min_max_first_received (arch : Float64.float64 -> Z) (now r0 : Z)
        (os : list probe) :
  Float64.below_2_53 r0 ->
  Forall Float64.below_2_53 (received_rtts os) ->
  Some (MinRTT (Calculate arch now (recorded (Reply r0 :: os))))
  = min_list (received_rtts (Reply r0 :: os))
  /\ Some (MaxRTT (Calculate arch now (recorded (Reply r0 :: os))))
     = max_list (received_rtts (Reply r0 :: os)).
Proof.
  intros H0 Hos. unfold Calculate. rewrite packets_recorded.
  cbn [map stat_of MinRTT MaxRTT loop1_run].
  destruct (loop1_minmax arch (map stat_of os) 0
              (loop1_body arch 0 {| successful := true; rtt := Some r0 |} loop1_init))
    as [-> ->]; try exact H0.
  - apply (Forall_stat_of Float64.below_2_53), Hos.
  - rewrite rtts_recorded. split; reflexivity.
Qed.

Lemma Calculate_min_max_first_received_witness :
  Some (MinRTT (Calculate Float64.amd64 0
                          (recorded [Reply (ms_ns 10); Lost; Reply (ms_ns 9)])))
  = Some (ms_ns 9).
Proof.
  refine (proj1 (Calculate_min_max_first_received Float64.amd64 0 (ms_ns 10)
                   [Lost; Reply (ms_ns 9)] _ _)).
  - unfold Float64.below_2_53. vm_compute. split; [discriminate | reflexivity].
  - repeat constructor; vm_compute; discriminate.
Defined.

(** The scenario of five replies, all received. *)
Example Calculate_five_replies :
  let s := Calculate Float64.amd64 0
             (recorded (map (fun x => Reply (ms_ns x)) [10; 12; 11; 9; 13])) in
  NumReceived s = 5 /\ MinRTT s = ms_ns 9 /\ MaxRTT s = ms_ns 13 /\ AvgRTT s = ms_ns 11.
Proof. vm_compute. repeat split. Qed.

(** ** The probe engine *)

Section SendFacts.

Variable cfg : Config.

Lemma debugf_run (msg : string) (w : World) :
  debugf cfg msg w
  = Ok tt (if debug cfg then add_out (LogDebug msg) w else w).
Proof. unfold debugf. destruct (debug cfg); reflexivity. Qed.

(** What [debugf] leaves alone. *)
Lemma debugf_frame (msg : string) (w : World) :
  let w' := if debug cfg then add_out (LogDebug msg) w else w in
  queue w' = queue w /\ seq w' = seq w /\ mux w' = mux w /\ ps w' = ps w
  /\ calls w' = calls w /\ wrote w' = wrote w.
Proof. destruct (debug cfg); repeat split. Qed.

(** The write loop ends within the retries that are left. It returns
    after at least one and at most that many writes, and every write
    but the last one was answered with ENOBUFS. *)
Lemma write_loop_spec (env : send_env) (target : IPAddr) (sq : Z) :
  forall (fuel : nat) (retries : Z) (w : World),
    0 <= retries < MaxSendRetries ->
    (Z.to_nat (MaxSendRetries - retries) <= fuel)%nat ->
    exists w',
      write_loop fuel env target sq retries w = Ok tt w'
      /\ (wrote w < wrote w' <= wrote w + Z.to_nat (MaxSendRetries - retries))%nat
      /\ (forall j, (wrote w <= j)%nat -> (S j < wrote w')%nat ->
                    exists e, WriteTo env j = Some e /\ is_ENOBUFS e = true)
      /\ queue w' = queue w /\ seq w' = seq w /\ mux w' = mux w
      /\ ps w' = ps w /\ calls w' = calls w.
Proof.
  unfold MaxSendRetries.
  induction fuel as [| fuel IH]; intros retries w Hr Hf; [lia |].
  cbn [write_loop]. unfold conn_WriteTo, MaxSendRetries. run_m.
  destruct (WriteTo env (wrote w)) as [e |] eqn:Ew.
  - destruct (is_ENOBUFS e) eqn:Ee.
    + destruct (retries + 1 =? 5) eqn:E5.
      * eexists. split; [reflexivity |]. cbn. repeat split; lia.
      * apply Z.eqb_neq in E5.
        destruct (IH (retries + 1) (incr_wrote w) ltac:(lia) ltac:(lia))
          as (w' & Hrun & Hn & Hj & Hq & Hs & Hm & Hp & Hc).
        exists w'. cbn in Hn, Hq, Hs, Hm, Hp, Hc. repeat split; try assumption; try lia.
        intros j H1 H2. destruct (decide (j = wrote w)) as [-> | Hne].
        -- eauto.
        -- apply Hj; cbn; lia.
    + eexists. split; [reflexivity |]. cbn. repeat split; lia.
  - eexists. split; [reflexivity |]. cbn. repeat split; lia.
Qed.

(** [sendICMP] stores the task under the drawn id, whatever the queue
    held there, and returns nil unless [Marshal] failed. *)
Lemma sendICMP_spec (fuel : nat) (env : send_env) (host : string) (target : IPAddr)
      (w : World) :
  (5 <= fuel)%nat ->
  mux w = false ->
  let id := rand_Intn 65535 (rand_src env) in
  let t := {| t_id := id; t_seq := seq w; t_sendTime := send_now env;
              t_addr := target |} in
  exists err w',
    sendICMP cfg fuel env host target w = Ok err w'
    /\ queue w' = <[id := t]> (queue w)
    /\ seq w' = Int64.wrap (seq w + 1)
    /\ mux w' = false /\ ps w' = ps w /\ calls w' = calls w
    /\ match Marshal env with
       | inr e => err = Some (ErrMarshal e) /\ wrote w' = wrote w
       | inl _ =>
         err = None
         /\ (wrote w < wrote w' <= wrote w + 5)%nat
         /\ (forall j, (wrote w <= j)%nat -> (S j < wrote w')%nat ->
                       exists e, WriteTo env j = Some e /\ is_ENOBUFS e = true)
       end.
Proof.
  intros Hf Hm id t. unfold sendICMP, Lock, Unlock, debugf. fold id. run_m.
  rewrite Hm. cbn.
  destruct (Marshal env) as [b | e].
  - destruct (seq w =? 0); destruct (debug cfg); run_m;
      match goal with
      | |- context [write_loop fuel env target (seq w) 0 ?w3] =>
        destruct (write_loop_spec env target (seq w) fuel 0 w3
                    ltac:(unfold MaxSendRetries; lia)
                    ltac:(unfold MaxSendRetries; lia))
          as (w' & -> & Hn & Hj & Hq & Hs & Hmx & Hp & Hc)
      end;
      exists None, w'; (split; [reflexivity |]);
      unfold MaxSendRetries in Hn; cbn in *;
      repeat split; first [assumption | congruence | lia].
  - eexists _, _. split; [reflexivity |]. cbn. repeat split.
Qed.

(** What the write loop logs, and where it stops: it goes on after
    every ENOBUFS until [MaxSendRetries] writes are made, and logs the
    failure after that one only. *)
Lemma write_loop_exact (env : send_env) (target : IPAddr) (sq : Z) :
  forall (fuel : nat) (retries : Z) (w w' : World),
    0 <= retries < MaxSendRetries ->
    write_loop fuel env target sq retries w = Ok tt w' ->
    ((wrote w' < wrote w + Z.to_nat (MaxSendRetries - retries))%nat ->
     enobufs_at env (wrote w' - 1) = false)
    /\ out w'
       = out w ++ (if (wrote w' =? wrote w + Z.to_nat (MaxSendRetries - retries))%nat
                      && enobufs_at env (wrote w' - 1)
                   then [LogFailedToPing (IP target) sq] else []).
Proof.
  unfold MaxSendRetries, enobufs_at.
  induction fuel as [| fuel IH]; intros retries w w' Hr H; [discriminate |].
  cbn [write_loop] in H. unfold conn_WriteTo, MaxSendRetries in H. run_m in H.
  destruct (WriteTo env (wrote w)) as [e |] eqn:Ew.
  - destruct (is_ENOBUFS e) eqn:Ee.
    + destruct (retries + 1 =? 5) eqn:E5.
      * apply Z.eqb_eq in E5. injection H as <-. cbn [wrote out add_out set_globals incr_wrote fst snd].
        replace (S (wrote w) - 1)%nat with (wrote w) by lia. rewrite Ew, Ee.
        replace (S (wrote w) =? wrote w + Z.to_nat (5 - retries))%nat with true
          by (symmetry; apply Nat.eqb_eq; lia).
        split; [lia | reflexivity].
      * apply Z.eqb_neq in E5.
        destruct (IH (retries + 1) (incr_wrote w) w' ltac:(lia) H) as [H1 H2].
        cbn [wrote out incr_wrote] in H1, H2.
        replace (S (wrote w) + Z.to_nat (5 - (retries + 1)))%nat
          with (wrote w + Z.to_nat (5 - retries))%nat in H1, H2 by lia.
        split; assumption.
    + injection H as <-. cbn [wrote out incr_wrote].
      replace (S (wrote w) - 1)%nat with (wrote w) by lia. rewrite Ew, Ee.
      rewrite andb_false_r, app_nil_r. split; reflexivity.
  - injection H as <-. cbn [wrote out incr_wrote].
    replace (S (wrote w) - 1)%nat with (wrote w) by lia. rewrite Ew.
    rewrite andb_false_r, app_nil_r. split; reflexivity.
Qed.

(** The lines [sendICMP] logs when the message marshals. *)
Lemma sendICMP_log (fuel : nat) (env : send_env) (host : string) (target : IPAddr)
      (b : list Z) (err : option error) (w w' : World) :
  mux w = false ->
  Marshal env = inl b ->
  sendICMP cfg fuel env host target w = Ok err w' ->
  ((wrote w' < wrote w + Z.to_nat MaxSendRetries)%nat ->
   enobufs_at env (wrote w' - 1) = false)
  /\ out w'
     = out w
       ++ (if seq w =? 0 then [LogPING host (IP target) (Z.of_nat (length b))] else [])
       ++ (if debug cfg then [LogDebug "Send"] else [])
       ++ (if gave_up env (wrote w) (wrote w')
           then [LogFailedToPing (IP target) (seq w)] else []).
Proof.
  intros Hm Hb H. unfold sendICMP, Lock, Unlock, debugf in H. run_m in H.
  rewrite Hm in H. cbn in H. rewrite Hb in H. unfold gave_up.
  destruct (seq w =? 0); destruct (debug cfg); run_m in H;
    match type of H with
    | context [write_loop fuel env target (seq w) 0 ?w3] =>
      destruct (write_loop fuel env target (seq w) 0 w3) as [[] w4 | | |] eqn:El;
        try discriminate;
        apply write_loop_exact in El as [H1 H2]; [| unfold MaxSendRetries; lia]
    end;
    injection H as _ <-; cbn in H1, H2; rewrite Z.sub_0_r in H1, H2;
    (split; [exact H1 |]); rewrite H2; cbn [app]; rewrite <- ?app_assoc; reflexivity.
Qed.

End SendFacts.

Section LedgerFacts.

Variable cfg : Config.

(** Removing an id that is in the queue returns its task and no error. *)
Lemma unqueuePkt_found (id : Z) (t : task) (w : World) :
  mux w = false ->
  queue w !! id = Some t ->
  unqueuePkt id w = Ok (t, None) (set_queue (delete id (queue w)) w).
Proof.
  intros Hm Hq. unfold unqueuePkt, Lock, Unlock. run_m.
  rewrite Hm. run_m. rewrite Hq. cbn.
  destruct w; cbn in *; subst; reflexivity.
Qed.

(** Removing an id that is not in the queue unlocks the mutex twice:
    once in the branch, once more through the deferred call. *)
Lemma unqueuePkt_absent (id : Z) (w : World) :
  mux w = false ->
  queue w !! id = None ->
  unqueuePkt id w = Fatal UnlockOfUnlockedMutex.
Proof.
  intros Hm Hq. unfold unqueuePkt, Lock, Unlock. run_m.
  rewrite Hm. run_m. rewrite Hq. reflexivity.
Qed.

End LedgerFacts.

(** C1, on the code. From an empty queue, [sendICMP] under the id [id]
    followed by [unqueuePkt id] returns the task that was stored and no
    error. A second [unqueuePkt id] does not return at all: it unlocks
    the mutex twice and the Go runtime ends the program. *)
Theorem unqueuePkt_twice (cfg : Config) (fuel : nat) (env : send_env) (host : string)
        (target : IPAddr) (w : World) :
  (5 <= fuel)%nat ->
  mux w = false ->
  queue w = ∅ ->
  let id := rand_Intn 65535 (rand_src env) in
  let t := {| t_id := id; t_seq := seq w; t_sendTime := send_now env; t_addr := target |} in
  exists err w1,
    sendICMP cfg fuel env host target w = Ok err w1
    /\ unqueuePkt id w1 = Ok (t, None) (set_queue ∅ w1)
    /\ unqueuePkt id (set_queue ∅ w1) = Fatal UnlockOfUnlockedMutex.
Proof.
  intros Hf Hm Hq id t.
  destruct (sendICMP_spec cfg fuel env host target w Hf Hm)
    as (err & w1 & Hrun & Hq1 & _ & Hm1 & _).
  exists err, w1. split; [exact Hrun |].
  fold id in Hq1. fold t in Hq1. rewrite Hq in Hq1. split.
  - rewrite (unqueuePkt_found id t w1 Hm1).
    + rewrite Hq1, delete_insert_eq, delete_empty. reflexivity.
    + rewrite Hq1. apply lookup_insert_eq.
  - apply unqueuePkt_absent; [exact Hm1 | apply lookup_empty].
Qed.

Lemma unqueuePkt_twice_witness :
  exists err w1,
    sendICMP example_cfg 5 (example_env None) "host" example_target init_world = Ok err w1
    /\ unqueuePkt 7 (set_queue ∅ w1) = Fatal UnlockOfUnlockedMutex.
Proof.
  destruct (unqueuePkt_twice example_cfg 5 (example_env None) "host" example_target
              init_world ltac:(lia) eq_refl eq_refl) as (err & w1 & H1 & _ & H3).
  exists err, w1. split; [exact H1 | exact H3].
Defined.

(** An echo reply whose id is not in the queue ends the program in the
    same way: it is not reported as an error. *)
Lemma processRecv_unknown_id (cfg : Config) (ParseMessage : list Z -> Message + string)
      (now : Z) (recv : packet) (a : IPAddr) (m : Message) (ID Seq : Z) (Data : list Z)
      (w : World) :
  mux w = false ->
  addr_ip (pkt_addr recv) = inl a ->
  ParseMessage (pkt_bytes recv) = inl m ->
  Type_ m = ICMPTypeEchoReply ->
  Body m = Echo ID Seq Data ->
  queue w !! ID = None ->
  processRecv cfg ParseMessage now recv w = Fatal UnlockOfUnlockedMutex.
Proof.
  intros Hm Ha Hp Ht Hb Hq. unfold processRecv. rewrite Ha, Hp, Ht. cbn [Z.eqb ICMPTypeEchoReply].
  unfold bind at 1. rewrite debugf_run. rewrite Hb. unfold bind at 1.
  rewrite unqueuePkt_absent; [reflexivity | | ].
  - now destruct (debugf_frame cfg "Type, Code, Len, Payload" w) as (_ & _ & -> & _).
  - now destruct (debugf_frame cfg "Type, Code, Len, Payload" w) as (-> & _).
Qed.

(** C2, against the claim. A write that fails with EPERM, which is
    not ENOBUFS, is tried once and [sendICMP] returns nil. *)
Lemma sendICMP_write_error_dropped :
  exists w',
    sendICMP example_cfg 5 (example_env (Some (OpError (InnerErrno EPERM) false)))
             "host" example_target init_world = Ok None w'
    /\ wrote w' = 1%nat.
Proof. eexists. split; vm_compute; reflexivity. Qed.

(** C2, amended. Each [sendICMP] whose message marshals writes at
    least once and at most [MaxSendRetries] = 5 times. A write is
    repeated only after an answer that is ENOBUFS, and it is repeated
    after every such answer until five writes are made. The failure is
    logged when the fifth write, too, met ENOBUFS, and in no other
    case; the only other lines are the PING line of the first probe and
    the debug line. And [sendICMP] returns nil whatever the writes
    answered, after which the lock is free and the task is in the
    queue. *)
Theorem sendICMP_write_policy (cfg : Config) (fuel : nat) (env : send_env) (host : string)
        (target : IPAddr) (b : list Z) (w : World) :
  (5 <= fuel)%nat ->
  mux w = false ->
  Marshal env = inl b ->
  exists w',
    sendICMP cfg fuel env host target w = Ok None w'
    /\ (wrote w < wrote w' <= wrote w + Z.to_nat MaxSendRetries)%nat
    /\ (forall j, (wrote w <= j)%nat -> (S j < wrote w')%nat ->
                  exists e, WriteTo env j = Some e /\ is_ENOBUFS e = true)
    /\ ((wrote w' < wrote w + Z.to_nat MaxSendRetries)%nat ->
        enobufs_at env (wrote w' - 1) = false)
    /\ out w'
       = out w
         ++ (if seq w =? 0 then [LogPING host (IP target) (Z.of_nat (length b))] else [])
         ++ (if debug cfg then [LogDebug "Send"] else [])
         ++ (if gave_up env (wrote w) (wrote w')
             then [LogFailedToPing (IP target) (seq w)] else [])
    /\ mux w' = false
    /\ is_Some (queue w' !! rand_Intn 65535 (rand_src env)).
Proof.
  intros Hf Hm Hb.
  destruct (sendICMP_spec cfg fuel env host target w Hf Hm)
    as (err & w' & Hrun & Hq & _ & Hm' & _ & _ & Hw).
  destruct (sendICMP_log cfg fuel env host target b err w w' Hm Hb Hrun) as [Hlast Hout].
  rewrite Hb in Hw. destruct Hw as (-> & Hn & Hj).
  exists w'. split; [exact Hrun |]. split; [unfold MaxSendRetries; lia |].
  split; [exact Hj |]. split; [exact Hlast |]. split; [exact Hout |].
  split; [exact Hm' |].
  rewrite Hq, lookup_insert_eq. eauto.
Qed.

Lemma sendICMP_write_policy_witness :
  exists w',
    sendICMP example_cfg 5 (example_env (Some (OpError (InnerErrno ENOBUFS) false)))
             "host" example_target init_world = Ok None w'
    /\ wrote w' = 5%nat
    /\ out w' = [LogPING "host" "1.1.1.1" 16; LogFailedToPing "1.1.1.1" 0].
Proof.
  destruct (sendICMP_write_policy example_cfg 5
              (example_env (Some (OpError (InnerErrno ENOBUFS) false)))
              "host" example_target (replicate 16 0) init_world
              ltac:(lia) eq_refl eq_refl) as (w' & Hrun & Hn & _ & Hlast & Hout & _).
  assert (Hw : wrote w' = 5%nat).
  { destruct (Nat.eq_dec (wrote w') 5%nat) as [E | E]; [exact E |].
    assert (Hlt : (wrote w' < wrote init_world + Z.to_nat MaxSendRetries)%nat)
      by (unfold MaxSendRetries in Hn |- *; cbn [wrote init_world] in Hn |- *; lia).
    specialize (Hlast Hlt). discriminate Hlast. }
  exists w'. split; [exact Hrun |]. split; [exact Hw |].
  rewrite Hout, Hw. reflexivity.
Defined.

(** Five writes that all meet ENOBUFS: the fifth failure is logged and
    [sendICMP] returns nil. *)
Example sendICMP_gives_up_after_five :
  exists w',
    sendICMP example_cfg 5 (example_env (Some (OpError (InnerErrno ENOBUFS) false)))
             "host" example_target init_world = Ok None w'
    /\ wrote w' = 5%nat
    /\ out w' = [LogPING "host" "1.1.1.1" 16; LogFailedToPing "1.1.1.1" 0].
Proof. eexists. repeat split; vm_compute; reflexivity. Qed.

(** An ENOBUFS that arrives wrapped in an [*os.SyscallError] is not
    retried. *)
Example sendICMP_wrapped_ENOBUFS :
  exists w',
    sendICMP example_cfg 5
             (example_env (Some (OpError (InnerSyscallError "sendto" ENOBUFS) false)))
             "host" example_target init_world = Ok None w'
    /\ wrote w' = 1%nat.
Proof. eexists. split; vm_compute; reflexivity. Qed.

(** C3, against the claim. The queue holds a task under the id 7; a
    send that draws 7 again puts its own task there and the task stored
    first is gone. *)
Lemma sendICMP_overwrites :
  let t0 := {| t_id := 7; t_seq := 0; t_sendTime := 100; t_addr := example_target |} in
  let w := set_seq 1 (set_queue {[ 7 := t0 ]} init_world) in
  exists w',
    queue w !! 7 = Some t0
    /\ sendICMP example_cfg 5 (example_env None) "host" example_target w = Ok None w'
    /\ queue w' !! 7 <> Some t0
    /\ size (queue w') = 1%nat.
Proof.
  eexists. split; [reflexivity |]. split; [vm_compute; reflexivity |].
  split; [vm_compute; discriminate | vm_compute; reflexivity].
Qed.

(** C3, amended. [sendICMP] draws the id with [rand.Intn(0xffff)],
    without looking at the queue: the id lies in 0 .. 65534, the new
    task is stored under it whether or not the id was in use, replacing
    what was there, and the other entries stay as they were. An id has at
    most one task at a time, the last one stored under it. *)
Theorem sendICMP_stores_under_drawn_id (cfg : Config) (fuel : nat) (env : send_env)
        (host : string) (target : IPAddr) (w : World) :
  (5 <= fuel)%nat ->
  mux w = false ->
  let id := rand_Intn 65535 (rand_src env) in
  let t := {| t_id := id; t_seq := seq w; t_sendTime := send_now env; t_addr := target |} in
  0 <= id < 65535
  /\ exists err w',
      sendICMP cfg fuel env host target w = Ok err w'
      /\ queue w' !! id = Some t
      /\ (forall j, j <> id -> queue w' !! j = queue w !! j)
      /\ queue w' = <[id := t]> (queue w).
Proof.
  intros Hf Hm id t. split.
  - unfold id, rand_Intn. apply Z.mod_pos_bound. lia.
  - destruct (sendICMP_spec cfg fuel env host target w Hf Hm)
      as (err & w' & Hrun & Hq & _).
    exists err, w'. fold id in Hq. fold t in Hq. rewrite Hq.
    repeat split; [exact Hrun | apply lookup_insert_eq |].
    intros j Hj. apply lookup_insert_ne. congruence.
Qed.

Lemma sendICMP_stores_under_drawn_id_witness :
  exists err w',
    sendICMP example_cfg 5 (example_env None) "host" example_target init_world = Ok err w'
    /\ queue w' !! 7
       = Some {| t_id := 7; t_seq := 0; t_sendTime := 100; t_addr := example_target |}.
Proof.
  destruct (sendICMP_stores_under_drawn_id example_cfg 5 (example_env None) "host"
              example_target init_world ltac:(lia) eq_refl)
    as (_ & err & w' & H1 & H2 & _).
  exists err, w'. split; [exact H1 | exact H2].
Defined.

Section RecvFacts.

Variable cfg : Config.
Variable ParseMessage : list Z -> Message + string.

Lemma last16_run (b : list Z) (w : World) :
  (16 <= length b)%nat ->
  last16 b w = Ok (drop (length b - 16) b) w.
Proof.
  intros H. unfold last16. destruct (Nat.ltb_spec (length b) 16); [lia | reflexivity].
Qed.

(** The time-exceeded branch of [processRecv] for an embedded echo
    whose id is in the queue. *)
Lemma processRecv_ttl_exceeded (now : Z) (recv : packet) (a : IPAddr) (m om : Message)
      (ID Seq : Z) (Data : list Z) (t : task) (w : World) :
  mux w = false ->
  addr_ip (pkt_addr recv) = inl a ->
  ParseMessage (pkt_bytes recv) = inl m ->
  Type_ m = ICMPTypeTimeExceeded ->
  (16 <= length (pkt_bytes recv))%nat ->
  ParseMessage (drop (length (pkt_bytes recv) - 16) (pkt_bytes recv)) = inl om ->
  Body om = Echo ID Seq Data ->
  queue w !! ID = Some t ->
  processRecv cfg ParseMessage now recv w
  = Ok (Some (ErrTTLExceededSeq (IP a) Seq))
       (set_ps (PacketLost (ps w)) (set_queue (delete ID (queue w)) w)).
Proof.
  intros Hm Ha Hp Ht Hl Hom Hb Hq. unfold processRecv.
  rewrite Ha, Hp, Ht. cbn [Z.eqb ICMPTypeEchoReply ICMPTypeTimeExceeded Pos.eqb].
  unfold defer. unfold bind at 1 2. rewrite (last16_run _ _ Hl), Hom, Hb.
  unfold bind at 1. rewrite (unqueuePkt_found ID t w Hm Hq). reflexivity.
Qed.

(** When [unqueuePkt] returns, it returns a task that was in the
    queue and no error. *)
Lemma unqueuePkt_Ok (id : Z) (r : task * option error) (w w1 : World) :
  unqueuePkt id w = Ok r w1 ->
  exists t, r = (t, None) /\ mux w = false /\ queue w !! id = Some t
            /\ w1 = set_queue (delete id (queue w)) w.
Proof.
  intros H. destruct (mux w) eqn:Hm.
  - unfold unqueuePkt, Lock in H. run_m in H. rewrite Hm in H. discriminate.
  - destruct (queue w !! id) as [t |] eqn:Hq.
    + rewrite (unqueuePkt_found id t w Hm Hq) in H. injection H as <- <-. eauto.
    + rewrite (unqueuePkt_absent id w Hm Hq) in H. discriminate.
Qed.

(** [processRecv] returns nil on one path only: an echo reply whose
    id is in the queue and whose sender is the target of the task. The
    task is removed, and the callback, if there is one, gets a response
    whose [bytelen] is the length of the buffer of the packet. *)
Lemma processRecv_nil (now : Z) (recv : packet) (w w' : World) :
  processRecv cfg ParseMessage now recv w = Ok None w' ->
  exists a m ID Seq Data t,
    addr_ip (pkt_addr recv) = inl a
    /\ ParseMessage (pkt_bytes recv) = inl m
    /\ Type_ m = ICMPTypeEchoReply
    /\ Body m = Echo ID Seq Data
    /\ queue w !! ID = Some t
    /\ IP a = IP (t_addr t)
    /\ queue w' = delete ID (queue w)
    /\ let resp := {| r_addr := a;
                      r_rtt := if Seq =? t_seq t then GoTime.Since now (t_sendTime t) else 0;
                      r_seq := t_seq t;
                      r_bytelen := Z.of_nat (length (pkt_bytes recv));
                      r_ttl := 0 |} in
       calls w' = calls w ++ match callback cfg with Some _ => [resp] | None => [] end.
Proof.
  unfold processRecv. intros H.
  destruct (addr_ip (pkt_addr recv)) as [a | n]; [| discriminate].
  destruct (ParseMessage (pkt_bytes recv)) as [m | e]; [| discriminate].
  destruct (Type_ m =? ICMPTypeEchoReply) eqn:Ety.
  - apply Z.eqb_eq in Ety. unfold bind at 1 in H. rewrite debugf_run in H.
    destruct (debugf_frame cfg "Type, Code, Len, Payload" w) as (Hq0 & _ & Hm0 & _ & Hc0 & _).
    set (w0 := if debug cfg then _ else w) in *.
    destruct (Body m) as [ID Seq Data | |] eqn:Eb; [| discriminate | discriminate].
    unfold bind at 1 in H.
    destruct (unqueuePkt ID w0) as [r w1 | | |] eqn:Eu; try discriminate.
    apply unqueuePkt_Ok in Eu as (t & -> & _ & Hq & ->).
    destruct (negb (IP a =? IP (t_addr t))%string) eqn:Eip; [discriminate |].
    apply negb_false_iff, String.eqb_eq in Eip.
    exists a, m, ID, Seq, Data, t. rewrite Hq0 in Hq.
    repeat (split; [first [reflexivity | assumption] |]).
    destruct (callback cfg) as [cb |]; run_m in H; injection H as <-; cbn;
      rewrite ?app_nil_r; split; congruence.
  - destruct (Type_ m =? ICMPTypeTimeExceeded); [| discriminate].
    exfalso. unfold defer, last16 in H. unfold bind at 1 2 in H.
    destruct (length (pkt_bytes recv) <? 16)%nat; [discriminate |].
    unfold ret at 1 in H.
    destruct (ParseMessage _) as [om | e]; [| discriminate].
    destruct (Body om); try discriminate.
    unfold bind at 1 in H.
    destruct (unqueuePkt ID w) as [[t [e |]] w1 | | |]; discriminate.
Qed.

End RecvFacts.

(** C7. A time-exceeded packet whose embedded echo request carries an
    id that is in the queue: the round of [processLoop] that takes it
    removes that id and no other, appends one [PacketLost] record to the
    statistics, logs the error, hands nothing to the callback, and the
    loop goes on. *)
Theorem processLoop_ttl_exceeded (cfg : Config) (ParseMessage : list Z -> Message + string)
        (now : Z) (recv : packet) (a : IPAddr) (m om : Message)
        (ID Seq : Z) (Data : list Z) (t : task) (w : World) :
  mux w = false ->
  addr_ip (pkt_addr recv) = inl a ->
  ParseMessage (pkt_bytes recv) = inl m ->
  Type_ m = ICMPTypeTimeExceeded ->
  (16 <= length (pkt_bytes recv))%nat ->
  ParseMessage (drop (length (pkt_bytes recv) - 16) (pkt_bytes recv)) = inl om ->
  Body om = Echo ID Seq Data ->
  queue w !! ID = Some t ->
  exists w',
    processLoop_body cfg ParseMessage (SelRecv now recv) w = Ok Continue w'
    /\ queue w' = delete ID (queue w)
    /\ packets (ps w') = packets (ps w) ++ [ {| successful := false; rtt := None |} ]
    /\ out w' = out w
                ++ (if debug cfg then [LogDebug "processLoop(): <-p.recvCh"] else [])
                ++ [LogErrorWhenReceiving (ErrTTLExceededSeq (IP a) Seq)]
    /\ calls w' = calls w
    /\ mux w' = false /\ seq w' = seq w /\ wrote w' = wrote w.
Proof.
  intros Hm Ha Hp Ht Hl Hom Hb Hq.
  unfold processLoop_body. unfold bind at 1. rewrite debugf_run.
  set (w0 := if debug cfg then _ else w).
  assert (H0 : mux w0 = false /\ queue w0 = queue w /\ ps w0 = ps w /\ calls w0 = calls w
               /\ seq w0 = seq w /\ wrote w0 = wrote w
               /\ out w0 = out w
                           ++ (if debug cfg then [LogDebug "processLoop(): <-p.recvCh"] else [])).
  { subst w0. destruct (debug cfg); cbn; rewrite ?app_nil_r; repeat split; assumption. }
  destruct H0 as (Hm0 & Hq0 & Hp0 & Hc0 & Hs0 & Hw0 & Ho0).
  unfold bind at 1 2.
  rewrite (processRecv_ttl_exceeded cfg ParseMessage now recv a m om ID Seq Data t w0)
    by (try assumption; rewrite Hq0; assumption).
  eexists. split; [reflexivity |]. cbn.
  rewrite Hq0, Hp0, Hc0, Hs0, Hw0, Ho0, Hm0, <- app_assoc. repeat split.
Qed.

Lemma processLoop_ttl_exceeded_witness :
  let w := set_queue {[ 7 := zero_task ]} init_world in
  exists w',
    processLoop_body example_cfg icmp_ParseMessage (SelRecv 150 example_ttl_packet) w
    = Ok Continue w'
    /\ queue w' = delete 7 (queue w)
    /\ packets (ps w') = [ {| successful := false; rtt := None |} ].
Proof.
  intros w.
  destruct (processLoop_ttl_exceeded example_cfg icmp_ParseMessage 150 example_ttl_packet
              {| IP := "9.9.9.9"; Zone := "" |}
              {| Type_ := 11; Code := 0;
                 Body := TimeExceeded (replicate 40 0 ++ [8; 0; 0; 0; 0; 7; 0; 0]
                                       ++ replicate 8 0) |}
              {| Type_ := 8; Code := 0; Body := Echo 7 0 (replicate 8 0) |}
              7 0 (replicate 8 0) zero_task w
              eq_refl eq_refl eq_refl eq_refl ltac:(vm_compute; lia) eq_refl eq_refl eq_refl)
    as (w' & H1 & H2 & H3 & _).
  exists w'. split; [exact H1 |]. split; [exact H2 | exact H3].
Defined.

Section SweepFacts.

Variable cfg : Config.
Variable clock : Z -> Z.

(** The [range] loop over any list of entries: it deletes the ids of
    the expired entries of the list, and records and logs one loss for
    each of them, in the order of the visit. *)
Lemma sweep_range_spec (l : list (Z * task)) :
  forall w : World,
  exists w',
    sweep_range cfg clock l w = Ok tt w'
    /\ (forall i, queue w' !! i
                  = if decide (i ∈ (filter (Expired cfg clock) l).*1) then None else queue w !! i)
    /\ packets (ps w') = packets (ps w) ++ replicate (length (filter (Expired cfg clock) l)) lost_stat
    /\ startTime (ps w') = startTime (ps w)
    /\ out w' = out w ++ (timeout_line <$> filter (Expired cfg clock) l)
    /\ mux w' = mux w /\ seq w' = seq w /\ calls w' = calls w /\ wrote w' = wrote w.
Proof.
  induction l as [| [id t] rest IH]; intros w.
  - exists w. cbn. rewrite !app_nil_r. repeat split.
  - cbn [sweep_range sweep_body]. unfold bind at 1.
    destruct (expired cfg clock id t) eqn:E.
    + run_m.
      match goal with
      | |- context [sweep_range cfg clock rest ?w1] =>
        destruct (IH w1) as (w' & Hrun & Hq & Hp & Hst & Ho & Hm & Hs & Hc & Hw)
      end.
      exists w'. rewrite filter_cons_True by exact E.
      cbn in Hq, Hp, Hst, Ho, Hm, Hs, Hc, Hw.
      split; [exact Hrun |]. split; [| repeat split].
      * intros i. rewrite Hq. cbn [fmap list_fmap fst].
        change (list_fmap _ _ fst (filter (Expired cfg clock) rest)) with ((filter (Expired cfg clock) rest).*1).
        destruct (decide (i = id)) as [-> | Hne].
        -- rewrite lookup_delete_eq.
           rewrite (decide_True (P := id ∈ id :: _)) by apply list_elem_of_here.
           now case_decide.
        -- rewrite lookup_delete_ne by congruence.
           destruct (decide (i ∈ (filter (Expired cfg clock) rest).*1)) as [Hin | Hnin].
           ++ now rewrite decide_True by (apply list_elem_of_further; exact Hin).
           ++ rewrite decide_False; [reflexivity |].
              intros Hin. apply elem_of_cons in Hin as [? | ?]; contradiction.
      * rewrite Hp. cbn [length replicate]. rewrite <- app_assoc. reflexivity.
      * exact Hst.
      * rewrite Ho. cbn [fmap list_fmap]. rewrite <- app_assoc. reflexivity.
      * exact Hm.
      * exact Hs.
      * exact Hc.
      * exact Hw.
    + run_m. destruct (IH w) as (w' & Hrun & Hrest).
      exists w'. rewrite filter_cons_False by (unfold Expired; cbn; congruence).
      split; [exact Hrun | exact Hrest].
Qed.

(** The number of expired entries visited is the number of expired
    entries of the queue. *)
Lemma expired_count (order : list (Z * task)) (q : gmap Z task) :
  order ≡ₚ map_to_list q ->
  length (filter (Expired cfg clock) order) = size (filter (Expired cfg clock) q).
Proof.
  intros Hperm. rewrite Hperm, map_filter_alt, map_size_list_to_map; [reflexivity |].
  eapply sublist_NoDup; [apply (NoDup_fst_map_to_list q) |].
  apply fmap_sublist, sublist_filter.
Qed.

(** The [default] case of [processLoop]: the sweep. *)
Lemma sweep_spec (order : list (Z * task)) (w : World) :
  mux w = false ->
  order ≡ₚ map_to_list (queue w) ->
  exists w',
    sweep cfg clock order w = Ok tt w'
    /\ queue w' = filter (fun e => ~ Expired cfg clock e) (queue w)
    /\ packets (ps w')
       = packets (ps w) ++ replicate (size (filter (Expired cfg clock) (queue w))) lost_stat
    /\ startTime (ps w') = startTime (ps w)
    /\ out w' = out w ++ (timeout_line <$> filter (Expired cfg clock) order)
    /\ mux w' = false /\ seq w' = seq w /\ calls w' = calls w /\ wrote w' = wrote w.
Proof.
  intros Hm Hperm. unfold sweep, Lock, Unlock. unfold bind at 1. rewrite Hm.
  destruct (sweep_range_spec order (set_mux true w))
    as (w1 & Hrun & Hq & Hp & Hst & Ho & Hm1 & Hs & Hc & Hw).
  unfold bind. rewrite Hrun, Hm1. cbn [mux set_mux].
  eexists. split; [reflexivity |].
  cbn [queue seq mux ps out calls wrote set_mux] in *.
  rewrite Hp, Ho, (expired_count order (queue w) Hperm).
  split; [| repeat split; assumption].
  apply map_eq. intros i. rewrite Hq. case_decide as Hin.
  - symmetry. apply map_lookup_filter_None. right. intros t Ht Hnot.
    apply list_elem_of_fmap in Hin as ([i' t'] & -> & Hin).
    apply list_elem_of_filter in Hin as [Hexp Hin].
    rewrite Hperm in Hin. apply elem_of_map_to_list in Hin. cbn in Ht.
    rewrite Hin in Ht. injection Ht as <-. contradiction.
  - destruct (queue w !! i) as [t |] eqn:Ht; symmetry.
    + apply map_lookup_filter_Some. split; [exact Ht |].
      intros Hexp. apply Hin. apply list_elem_of_fmap. exists (i, t). split; [reflexivity |].
      apply list_elem_of_filter. split; [exact Hexp |].
      rewrite Hperm. apply elem_of_map_to_list. exact Ht.
    + apply map_lookup_filter_None. left. exact Ht.
Qed.

End SweepFacts.

(** C8. A sweep at the instant [now] with the deadline [maxRTT],
    whatever the order in which [range] visits the queue: the entries
    left are the entries that are not older than [now - maxRTT], each
    with the task it had; one [PacketLost] record is appended and one
    timeout line is logged for each entry that is older; nothing is
    handed to the callback, the lock is free again and the loop goes
    on. *)
Theorem sweep_removes_expired (cfg : Config) (ParseMessage : list Z -> Message + string)
        (now : Z) (order : list (Z * task)) (w : World) :
  mux w = false ->
  order ≡ₚ map_to_list (queue w) ->
  let older := fun e : Z * task => t_sendTime e.2 < now - maxRTT cfg in
  exists w',
    processLoop_body cfg ParseMessage (SelDefault (fun _ => now) order) w = Ok Continue w'
    /\ queue w' = filter (fun e => ~ older e) (queue w)
    /\ (forall id t, queue w !! id = Some t ->
                     if decide (older (id, t)) then queue w' !! id = None
                     else queue w' !! id = Some t)
    /\ packets (ps w')
       = packets (ps w) ++ replicate (size (filter older (queue w))) lost_stat
    /\ out w' = out w ++ (timeout_line <$> filter older order)
    /\ calls w' = calls w /\ mux w' = false /\ seq w' = seq w.
Proof.
  intros Hm Hperm older.
  assert (Hiff : forall e, Expired cfg (fun _ => now) e <-> older e).
  { intros [id t]. unfold Expired, expired, older. cbn. rewrite Z.ltb_lt. lia. }
  destruct (sweep_spec cfg (fun _ => now) order w Hm Hperm)
    as (w' & Hrun & Hq & Hp & _ & Ho & Hm' & Hs & Hc & _).
  assert (Hq' : queue w' = filter (fun e => ~ older e) (queue w)).
  { rewrite Hq. apply map_filter_ext. intros i t _. now rewrite Hiff. }
  exists w'. unfold processLoop_body, bind. rewrite Hrun.
  split; [reflexivity |]. split; [exact Hq' |]. split; [| repeat split; try assumption].
  - intros id t Ht. rewrite Hq'. case_decide as Hold.
    + apply map_lookup_filter_None. right. intros t' Ht' Hn. apply Hn.
      rewrite Ht in Ht'. injection Ht' as <-. exact Hold.
    + apply map_lookup_filter_Some. split; [exact Ht | exact Hold].
  - rewrite Hp. do 2 f_equal. f_equal. apply map_filter_ext. intros i t _. apply Hiff.
  - rewrite Ho. do 2 f_equal. apply list_filter_iff. exact Hiff.
Qed.

Lemma sweep_removes_expired_witness :
  let t1 := {| t_id := 7; t_seq := 0; t_sendTime := 100; t_addr := example_target |} in
  let t2 := {| t_id := 9; t_seq := 1; t_sendTime := 900000000; t_addr := example_target |} in
  let w := set_queue (<[7 := t1]> {[ 9 := t2 ]}) init_world in
  exists w',
    processLoop_body example_cfg icmp_ParseMessage
                     (SelDefault (fun _ => 1000000200) (map_to_list (queue w))) w
    = Ok Continue w'
    /\ queue w' !! 7 = None
    /\ queue w' !! 9 = Some t2.
Proof.
  intros t1 t2 w.
  destruct (sweep_removes_expired example_cfg icmp_ParseMessage 1000000200
              (map_to_list (queue w)) w eq_refl ltac:(reflexivity))
    as (w' & H1 & _ & H3 & _).
  exists w'. split; [exact H1 |]. split.
  - exact (H3 7 t1 eq_refl).
  - exact (H3 9 t2 eq_refl).
Defined.

Section ReceiveFacts.

Variable cfg : Config.

Lemma read_into_length (buf : list Z) (rd : read_result) :
  length (read_into buf rd) = length buf.
Proof.
  unfold read_into. rewrite length_take, length_app, length_drop. lia.
Qed.

(** What [receiveLoop] hands to [processLoop] is the buffer of 64
    cells, whatever count the read returned. *)
Lemma receiveLoop_handoff (stop1 stop2 : bool) (rd : read_result) (w w1 : World)
      (pkt : packet) :
  receiveLoop_body cfg stop1 stop2 rd w = Ok (RecvHandoff pkt) w1 ->
  pkt_bytes pkt = read_into make_buf rd
  /\ length (pkt_bytes pkt) = 64%nat
  /\ rd_addr rd = Some (pkt_addr pkt).
Proof.
  unfold receiveLoop_body. intros H.
  destruct stop1.
  - unfold bind in H. rewrite debugf_run in H. discriminate.
  - destruct (rd_err rd) as [[e [|] | msg] |]; unfold bind, ret in H;
      rewrite ?debugf_run in H; try discriminate;
      destruct (rd_addr rd) as [addr |]; try discriminate;
      rewrite ?debugf_run in H; destruct stop2; try discriminate;
      injection H as <- _; cbn [pkt_bytes pkt_addr];
      (split; [reflexivity |]); (split; [apply read_into_length | reflexivity]).
Qed.

End ReceiveFacts.

(** C10. A packet that [receiveLoop] handed over and for which
    [processRecv] returns nil: the response given to the callback
    carries [bytelen] = 64, the length of the receive buffer, whatever
    number of bytes the read reported. *)
Theorem reply_bytelen_is_64 (cfg : Config) (ParseMessage : list Z -> Message + string)
        (stop1 stop2 : bool) (rd : read_result) (w0 w1 : World) (pkt : packet)
        (now : Z) (w w' : World) :
  receiveLoop_body cfg stop1 stop2 rd w0 = Ok (RecvHandoff pkt) w1 ->
  processRecv cfg ParseMessage now pkt w = Ok None w' ->
  exists resp,
    r_bytelen resp = 64
    /\ calls w' = calls w ++ match callback cfg with Some _ => [resp] | None => [] end.
Proof.
  intros Hrecv Hproc.
  destruct (receiveLoop_handoff cfg stop1 stop2 rd w0 w1 pkt Hrecv) as (_ & Hlen & _).
  destruct (processRecv_nil cfg ParseMessage now pkt w w' Hproc)
    as (a & m & ID & Seq & Data & t & _ & _ & _ & _ & _ & _ & _ & Hcalls).
  eexists. split; [| exact Hcalls]. cbn. rewrite Hlen. reflexivity.
Qed.

Lemma reply_bytelen_is_64_witness :
  exists resp, r_bytelen resp = 64 /\ calls example_replied = [] ++ [resp].
Proof.
  exact (reply_bytelen_is_64 example_cfg icmp_ParseMessage false false example_read
           init_world init_world example_reply 150 example_waiting example_replied
           eq_refl ltac:(vm_compute; reflexivity)).
Defined.

(** * Further properties *)

(** ** Counting and the report *)

Section CountFacts.

Import Float64 Stats.

Variable arch : float64 -> Z.

(** The counters of the first loop, as long as they stay below 2^64. *)
Lemma loop1_counts (l : list packetStat) (i : nat) (a : loop1) :
  0 <= l_NumPackets a ->
  0 <= l_NumReceived a ->
  l_NumPackets a + Z.of_nat (length l) < 2 ^ 64 ->
  l_NumReceived a + Z.of_nat (length l) < 2 ^ 64 ->
  l_NumPackets (loop1_run arch i l a) = l_NumPackets a + Z.of_nat (length l)
  /\ l_NumReceived (loop1_run arch i l a)
     = l_NumReceived a + Z.of_nat (length (filter (fun p => successful p = true) l)).
Proof.
  revert i a. induction l as [| p l IH]; intros i a Hp Hr Hpl Hrl.
  - cbn. split; lia.
  - cbn [loop1_run length] in *.
    assert (Hlen : (length (filter (fun p => successful p = true) l) <= length l)%nat)
      by apply length_filter.
    assert (Enp : l_NumPackets (loop1_body arch i p a) = l_NumPackets a + 1).
    { unfold loop1_body. destruct (rtt p); [destruct i |]; cbn [l_NumPackets];
        unfold Int64.uwrap, Int64.modulus; apply Z.mod_small; lia. }
    assert (Enr : l_NumReceived (loop1_body arch i p a)
                  = l_NumReceived a + if successful p then 1 else 0).
    { unfold loop1_body. destruct (rtt p); [destruct i |]; cbn [l_NumReceived];
        destruct (successful p); try lia;
        unfold Int64.uwrap, Int64.modulus; apply Z.mod_small; lia. }
    destruct (IH (S i) (loop1_body arch i p a)) as [-> ->];
      rewrite ?Enp, ?Enr; try (destruct (successful p); lia).
    split; [lia |].
    destruct (successful p) eqn:Es.
    + rewrite filter_cons_True by exact Es. cbn [length]. lia.
    + rewrite filter_cons_False by congruence. lia.
Qed.

Lemma successful_recorded (os : list probe) :
  length (filter (fun p => successful p = true) (map stat_of os))
  = length (received_rtts os).
Proof.
  unfold received_rtts.
  induction os as [| [r |] os IH]; cbn [map omap list_omap stat_of].
  - reflexivity.
  - rewrite filter_cons_True by reflexivity. cbn [length]. now rewrite IH.
  - rewrite filter_cons_False by discriminate. exact IH.
Qed.

End CountFacts.

(** The two counters of the summary, read off the records. *)
Lemma Calculate_counters (arch : Float64.float64 -> Z) (now : Z) (os : list probe) :
  Z.of_nat (length os) < 2 ^ 64 ->
  NumPackets (Calculate arch now (recorded os)) = Z.of_nat (length os)
  /\ NumReceived (Calculate arch now (recorded os)) = Z.of_nat (length (received_rtts os)).
Proof.
  intros Hlen. unfold Calculate. rewrite packets_recorded.
  destruct os as [| o os]; [split; reflexivity |].
  set (l := map stat_of (o :: os)).
  change (match l with [] => zero_summary | _ :: _ => ?x end) with x.
  cbn [NumPackets NumReceived].
  destruct (loop1_counts arch l 0 (loop1_init)) as [-> ->]; cbn [l_NumPackets l_NumReceived loop1_init];
    subst l; rewrite ?length_map; try lia.
  rewrite successful_recorded. split; lia.
Qed.

(** X1. [Calculate] counts what was recorded: after any sequence of
    [PacketReceived] and [PacketLost] calls, [NumPackets] is the number
    of calls and [NumReceived] the number of [PacketReceived] calls
    (counts below 2^64), so that no more probes are reported received
    than were sent. *)
Theorem Calculate_counts (arch : Float64.float64 -> Z) (now : Z) (os : list probe) :
  Z.of_nat (length os) < 2 ^ 64 ->
  NumPackets (Calculate arch now (recorded os)) = Z.of_nat (length os)
  /\ NumReceived (Calculate arch now (recorded os)) = Z.of_nat (length (received_rtts os))
  /\ NumReceived (Calculate arch now (recorded os))
     <= NumPackets (Calculate arch now (recorded os)).
Proof.
  intros Hlen. destruct (Calculate_counters arch now os Hlen) as [Hnp Hnr].
  split; [exact Hnp |]. split; [exact Hnr |]. rewrite Hnp, Hnr.
  unfold received_rtts. apply Nat2Z.inj_le. clear.
  induction os as [| [r |] os IH]; cbn [omap list_omap length]; lia.
Qed.

Lemma Calculate_counts_witness :
  NumPackets (Calculate Float64.amd64 0 (recorded [Reply 5; Lost; Reply 7])) = 3
  /\ NumReceived (Calculate Float64.amd64 0 (recorded [Reply 5; Lost; Reply 7])) = 2.
Proof.
  destruct (Calculate_counts Float64.amd64 0 [Reply 5; Lost; Reply 7]) as (Hnp & Hnr & _);
    [reflexivity |].
  split; [exact Hnp | exact Hnr].
Defined.

Section LossFacts.

Import Float64 Stats Report.

Variable arch : float64 -> Z.

(** Records without a round-trip time leave the minimum, the maximum
    and the sum of the first loop alone, and add nothing to the squared
    deviations of the second. *)
Lemma loop1_no_rtt (l : list packetStat) (i : nat) (a : loop1) :
  Forall (fun p => rtt p = None) l ->
  l_MinRTT (loop1_run arch i l a) = l_MinRTT a
  /\ l_MaxRTT (loop1_run arch i l a) = l_MaxRTT a
  /\ l_rttsum (loop1_run arch i l a) = l_rttsum a.
Proof.
  revert i a. induction l as [| p l IH]; intros i a Hl; [repeat split |].
  inversion Hl as [| ? ? Hp Hl']; subst. cbn [loop1_run].
  destruct (IH (S i) (loop1_body arch i p a) Hl') as (-> & -> & ->).
  unfold loop1_body. rewrite Hp. repeat split.
Qed.

Lemma loop2_no_rtt (avg : Z) (l : list packetStat) (d : float64) :
  Forall (fun p => rtt p = None) l -> loop2_run avg l d = d.
Proof.
  revert d. induction l as [| p l IH]; intros d Hl; [reflexivity |].
  inversion Hl as [| ? ? Hp Hl']; subst. cbn [loop2_run].
  rewrite IH by exact Hl'. unfold loop2_body. now rewrite Hp.
Qed.

Lemma no_rtt_recorded (os : list probe) :
  received_rtts os = [] -> Forall (fun p => rtt p = None) (map stat_of os).
Proof.
  unfold received_rtts. induction os as [| [r |] os IH]; cbn [map omap list_omap stat_of].
  - constructor.
  - discriminate.
  - intros H. constructor; [reflexivity | exact (IH H)].
Qed.

(** A float of 53 bits divided by itself is 1. *)
Lemma norm_m_digits (p : positive) :
  Z.pos p < 2 ^ 53 -> Z.pos (digits2_pos (norm_m p)) = 53.
Proof.
  intros Hp. pose proof (digits2_le_53 p Hp) as Hd. unfold norm_m.
  destruct (53 - Z.pos (digits2_pos p)) as [| k | k] eqn:Ek; try lia.
  rewrite iter_xO_digits. lia.
Qed.

Lemma div_diag_53 (m : positive) (e : Z) :
  Z.pos (digits2_pos m) = 53 ->
  div (S754_finite false m e) (S754_finite false m e) = one.
Proof.
  intros Hd. unfold div, SFdiv, SFdiv_core_binary. cbn [Zdigits2 xorb]. rewrite Hd.
  replace (53 + e - (53 + e)) with 0 by lia. rewrite Z.sub_diag.
  change (Z.min (fexp prec emax 0) 0) with (-53).
  change (0 - -53) with 53.
  assert (Hq : Z.div_eucl (Z.shiftl (Z.pos m) 53) (Z.pos m) = (2 ^ 53, 0)).
  { rewrite Z.shiftl_mul_pow2 by lia.
    pose proof (Z.div_mul (2 ^ 53) (Z.pos m) ltac:(lia)) as Hdiv.
    pose proof (Z.mod_mul (2 ^ 53) (Z.pos m) ltac:(lia)) as Hmod.
    rewrite (Z.mul_comm (Z.pos m)).
    unfold Z.div, Z.modulo in Hdiv, Hmod.
    destruct (Z.div_eucl (2 ^ 53 * Z.pos m) (Z.pos m)) as [q r]. cbn in Hdiv, Hmod.
    now subst. }
  cbv iota. change IntDef.Z.div_eucl with Z.div_eucl. rewrite Hq.
  assert (Hl : new_location (Z.pos m) 0 = loc_Exact).
  { unfold new_location. destruct (Z.even (Z.pos m)); reflexivity. }
  rewrite Hl. reflexivity.
Qed.

Lemma div_diag_of_int (n : Z) : 0 < n < 2 ^ 53 -> div (of_int n) (of_int n) = one.
Proof.
  intros Hn. destruct n as [| p | p]; try lia.
  destruct (of_int_exact p ltac:(lia)) as [-> _].
  apply div_diag_53, norm_m_digits. lia.
Qed.

Lemma div_zero_of_int (n : Z) : 0 < n < 2 ^ 53 -> div zero (of_int n) = zero.
Proof.
  intros Hn. destruct n as [| p | p]; try lia.
  destruct (of_int_exact p ltac:(lia)) as [-> _]. reflexivity.
Qed.

End LossFacts.

(** X2. When every recorded probe was lost, and there are at least
    two of them, the summary counts them and all four round-trip
    fields, the standard deviation included, are zero. *)
Theorem Calculate_all_lost (arch : Float64.float64 -> Z) (now : Z) (os : list probe) :
  received_rtts os = [] ->
  (2 <= length os)%nat ->
  Z.of_nat (length os) < 2 ^ 53 ->
  NumPackets (Calculate arch now (recorded os)) = Z.of_nat (length os)
  /\ NumReceived (Calculate arch now (recorded os)) = 0
  /\ MinRTT (Calculate arch now (recorded os)) = 0
  /\ AvgRTT (Calculate arch now (recorded os)) = 0
  /\ MaxRTT (Calculate arch now (recorded os)) = 0
  /\ SdevRTT (Calculate arch now (recorded os)) = 0.
Proof.
  intros Hno Hlen Hbig.
  destruct (Calculate_counters arch now os ltac:(lia)) as [Hnp Hnr].
  rewrite Hno in Hnr. split; [exact Hnp |]. split; [exact Hnr |].
  pose proof (no_rtt_recorded os Hno) as Hall.
  unfold Calculate. rewrite packets_recorded.
  destruct (map stat_of os) as [| p l] eqn:El.
  { apply (f_equal (@length _)) in El. rewrite length_map in El. cbn in El. lia. }
  rewrite <- El in *. cbn [MinRTT AvgRTT MaxRTT SdevRTT].
  destruct (loop1_no_rtt arch (map stat_of os) 0 loop1_init Hall) as (-> & -> & ->).
  cbn [l_MinRTT l_MaxRTT l_rttsum loop1_init].
  assert (Havg : Int64.div 0 (Z.of_nat (length (map stat_of os))) = 0).
  { unfold Int64.div. rewrite Z.quot_0_l; [reflexivity |]. rewrite length_map.
    clear -Hlen. lia. }
  rewrite Havg. repeat split.
  unfold sdev_float. rewrite loop2_no_rtt by exact Hall. rewrite length_map.
  rewrite div_zero_of_int by lia. reflexivity.
Qed.

Lemma Calculate_all_lost_witness :
  SdevRTT (Calculate Float64.amd64 0 (recorded [Lost; Lost; Lost; Lost; Lost])) = 0.
Proof.
  apply (Calculate_all_lost Float64.amd64 0 [Lost; Lost; Lost; Lost; Lost]).
  - reflexivity.
  - cbn. lia.
  - reflexivity.
Defined.

(** X3. The packet loss that [run] reports, computed on the summary
    of [Calculate]: it is not a number when nothing was recorded (0/0),
    exactly 100 when every probe was lost, and 0 when every probe was
    answered. *)
Theorem loss_percent_ends (arch : Float64.float64 -> Z) (now : Z) (os : list probe) :
  Z.of_nat (length os) < 2 ^ 53 ->
  (os = [] ->
   Report.loss_percent (Calculate arch now (recorded os)) = Float64.NaN)
  /\ (os <> [] -> received_rtts os = [] ->
      Report.loss_percent (Calculate arch now (recorded os)) = Float64.of_int 100)
  /\ (os <> [] -> length (received_rtts os) = length os ->
      Report.loss_percent (Calculate arch now (recorded os)) = Float64.zero).
Proof.
  intros Hbig.
  destruct (Calculate_counters arch now os ltac:(lia)) as [Hnp Hnr].
  assert (Hpos : os <> [] -> 0 < Z.of_nat (length os) < 2 ^ 53).
  { intros Hne. destruct os; [congruence | cbn [length] in *; lia]. }
  unfold Report.loss_percent. rewrite Hnp, Hnr. repeat split.
  - intros ->. reflexivity.
  - intros Hne Hno. rewrite Hno. cbn [length]. rewrite Z.sub_0_r.
    assert (Hu : Int64.uwrap (Z.of_nat (length os)) = Z.of_nat (length os)).
    { unfold Int64.uwrap, Int64.modulus. apply Z.mod_small. specialize (Hpos Hne). lia. }
    rewrite Hu, div_diag_of_int by auto. reflexivity.
  - intros Hne Hall. rewrite Hall, Z.sub_diag.
    change (Float64.of_int (Int64.uwrap 0)) with Float64.zero.
    rewrite div_zero_of_int by auto. reflexivity.
Qed.

Lemma loss_percent_ends_witness :
  Report.loss_percent (Calculate Float64.amd64 0 (recorded [Lost; Lost])) = Float64.of_int 100.
Proof.
  apply (loss_percent_ends Float64.amd64 0 [Lost; Lost]).
  - reflexivity.
  - discriminate.
  - reflexivity.
Defined.

(** ** Packets through [processRecv] *)

Section ProcessFacts.

Variable cfg : Config.
Variable ParseMessage : list Z -> Message + string.

Lemma within_refl (q : gmap Z task) : within q q.
Proof. intros i t H. exact H. Qed.

Lemma within_delete (i : Z) (q : gmap Z task) : within (delete i q) q.
Proof.
  intros j t H. destruct (decide (i = j)) as [-> | Hne].
  - rewrite lookup_delete_eq in H. discriminate.
  - now rewrite lookup_delete_ne in H.
Qed.

(** Whenever [processRecv] returns, the mutex is as it was, [seq] and
    the count of writes are untouched, and the queue has lost entries at
    most. *)
Lemma processRecv_frame (now : Z) (recv : packet) (e : option error) (w w' : World) :
  processRecv cfg ParseMessage now recv w = Ok e w' ->
  same_engine w w' /\ within (queue w') (queue w).
Proof.
  unfold processRecv, same_engine. intros H.
  destruct (addr_ip (pkt_addr recv)) as [a | n];
    [| injection H as <- <-; repeat split; apply within_refl].
  destruct (ParseMessage (pkt_bytes recv)) as [m | err];
    [| injection H as <- <-; repeat split; apply within_refl].
  destruct (Type_ m =? ICMPTypeEchoReply).
  - unfold bind at 1 in H. rewrite debugf_run in H.
    destruct (debugf_frame cfg "Type, Code, Len, Payload" w) as (Hq0 & Hs0 & Hm0 & _ & _ & Hw0).
    set (w0 := if debug cfg then _ else w) in *.
    destruct (Body m) as [ID Seq Data | |];
      [| injection H as <- <-; rewrite Hq0; repeat split; try assumption; apply within_refl ..].
    unfold bind at 1 in H.
    destruct (unqueuePkt ID w0) as [r w1 | | |] eqn:Eu; try discriminate.
    apply unqueuePkt_Ok in Eu as (t & -> & Hmf & Hq & ->).
    assert (Hw : within (delete ID (queue w0)) (queue w)).
    { rewrite <- Hq0. apply within_delete. }
    destruct (negb (IP a =? IP (t_addr t))%string).
    + injection H as <- <-. cbn. repeat split; assumption.
    + destruct (callback cfg) as [cb |]; run_m in H; injection H as <- <-; cbn;
        repeat split; assumption.
  - destruct (Type_ m =? ICMPTypeTimeExceeded);
      [| injection H as <- <-; repeat split; apply within_refl].
    unfold defer, last16 in H. unfold bind at 1 2 in H.
    destruct (length (pkt_bytes recv) <? 16)%nat; [discriminate |].
    unfold ret at 1 in H.
    destruct (ParseMessage _) as [om | err];
      [| run_m in H; injection H as <- <-; cbn; repeat split; apply within_refl].
    destruct (Body om) as [ID Seq Data | |];
      [| run_m in H; injection H as <- <-; cbn; repeat split; apply within_refl ..].
    unfold bind at 1 in H.
    destruct (unqueuePkt ID w) as [r w1 | | |] eqn:Eu; try discriminate.
    apply unqueuePkt_Ok in Eu as (t & -> & Hmf & Hq & ->).
    run_m in H. injection H as <- <-. cbn. repeat split. apply within_delete.
Qed.

(** The only ways [processRecv] ends the program: the double unlock of
    [unqueuePkt], and the slice of the last 16 bytes of a buffer that is
    shorter than that. *)
Lemma processRecv_fatal (now : Z) (recv : packet) (f : fault) (w : World) :
  processRecv cfg ParseMessage now recv w = Fatal f ->
  f = UnlockOfUnlockedMutex
  \/ (f = SliceBoundsOutOfRange /\ (length (pkt_bytes recv) < 16)%nat).
Proof.
  unfold processRecv. intros H.
  assert (Hu : forall ID w0 f0, unqueuePkt ID w0 = Fatal f0 -> f0 = UnlockOfUnlockedMutex).
  { intros ID w0 f0 E. destruct (mux w0) eqn:Hm.
    - unfold unqueuePkt, Lock in E. run_m in E. rewrite Hm in E. discriminate.
    - destruct (queue w0 !! ID) as [t |] eqn:Hq.
      + rewrite (unqueuePkt_found ID t w0 Hm Hq) in E. discriminate.
      + rewrite (unqueuePkt_absent ID w0 Hm Hq) in E. now injection E as <-. }
  destruct (addr_ip (pkt_addr recv)) as [a | n]; [| discriminate].
  destruct (ParseMessage (pkt_bytes recv)) as [m | err]; [| discriminate].
  destruct (Type_ m =? ICMPTypeEchoReply).
  - unfold bind at 1 in H. rewrite debugf_run in H.
    destruct (Body m) as [ID Seq Data | |]; try discriminate.
    unfold bind at 1 in H.
    destruct (unqueuePkt ID _) as [[t [e |]] w1 | f0 | |] eqn:Eu; try discriminate.
    + destruct (negb (IP a =? IP (t_addr t))%string); [discriminate |].
      destruct (callback cfg); discriminate.
    + injection H as <-. left. exact (Hu _ _ _ Eu).
  - destruct (Type_ m =? ICMPTypeTimeExceeded); [| discriminate].
    unfold defer, last16 in H. unfold bind at 1 2 in H.
    destruct (Nat.ltb_spec (length (pkt_bytes recv)) 16).
    { injection H as <-. right. split; [reflexivity | assumption]. }
    unfold ret at 1 in H.
    destruct (ParseMessage _) as [om | err]; [| discriminate].
    destruct (Body om) as [ID Seq Data | |]; try discriminate.
    unfold bind at 1 in H.
    destruct (unqueuePkt ID w) as [[t [e |]] w1 | f0 | |] eqn:Eu; try discriminate.
    injection H as <-. left. exact (Hu _ _ _ Eu).
Qed.

End ProcessFacts.

(** The world after [processRecv] took an echo reply for the task [t]
    under [ID] from the target of [t]. *)
Lemma processRecv_reply_run (cfg : Config) (ParseMessage : list Z -> Message + string)
      (now : Z) (recv : packet) (a : IPAddr) (m : Message) (ID Seq : Z) (Data : list Z)
      (t : task) (w : World) :
  mux w = false ->
  addr_ip (pkt_addr recv) = inl a ->
  ParseMessage (pkt_bytes recv) = inl m ->
  Type_ m = ICMPTypeEchoReply ->
  Body m = Echo ID Seq Data ->
  queue w !! ID = Some t ->
  IP a = IP (t_addr t) ->
  let resp := reply_response now recv a Seq t in
  let w0 := if debug cfg then add_out (LogDebug "Type, Code, Len, Payload") w else w in
  let w1 := set_queue (delete ID (queue w)) w0 in
  processRecv cfg ParseMessage now recv w
  = Ok None match callback cfg with
            | Some cb => set_globals (cb resp (ps w1, out w1)) (add_call resp w1)
            | None => w1
            end.
Proof.
  intros Hm Ha Hp Ht Hb Hq Hip resp w0 w1. unfold processRecv.
  rewrite Ha, Hp, Ht. cbn [Z.eqb ICMPTypeEchoReply].
  unfold bind at 1. rewrite debugf_run, Hb. fold w0.
  assert (H0 : queue w0 = queue w /\ mux w0 = mux w).
  { subst w0. destruct (debug cfg); split; reflexivity. }
  destruct H0 as [Hq0 Hm0].
  unfold bind at 1. rewrite (unqueuePkt_found ID t w0) by (rewrite ?Hm0, ?Hq0; assumption).
  rewrite Hip, String.eqb_refl. cbn [negb].
  fold (reply_response now recv a Seq t). fold resp. rewrite Hq0. fold w1.
  destruct (callback cfg); reflexivity.
Qed.

(** X4. An echo reply whose id is in the queue and whose sender is the
    target of the task: [processRecv] returns nil, the id is removed,
    and the callback gets one response with the sequence number of the
    task, a TTL of 0, and as round-trip time the time since the send
    when the sequence number of the reply is that of the task, 0
    otherwise. With [handler] installed that is one [PacketReceived]. *)
Theorem processRecv_reply (cfg : Config) (ParseMessage : list Z -> Message + string)
        (now : Z) (recv : packet) (a : IPAddr) (m : Message) (ID Seq : Z) (Data : list Z)
        (t : task) (w : World) :
  mux w = false ->
  addr_ip (pkt_addr recv) = inl a ->
  ParseMessage (pkt_bytes recv) = inl m ->
  Type_ m = ICMPTypeEchoReply ->
  Body m = Echo ID Seq Data ->
  queue w !! ID = Some t ->
  IP a = IP (t_addr t) ->
  let resp := reply_response now recv a Seq t in
  exists w',
    processRecv cfg ParseMessage now recv w = Ok None w'
    /\ queue w' = delete ID (queue w)
    /\ calls w' = calls w ++ match callback cfg with Some _ => [resp] | None => [] end
    /\ same_engine w w'
    /\ (callback cfg = Some handler -> ps w' = PacketReceived (r_rtt resp) (ps w))
    /\ (callback cfg = None -> ps w' = ps w).
Proof.
  intros Hm Ha Hp Ht Hb Hq Hip resp.
  rewrite (processRecv_reply_run cfg ParseMessage now recv a m ID Seq Data t w) by assumption.
  fold resp. eexists. split; [reflexivity |]. unfold same_engine.
  destruct (callback cfg) as [cb |]; destruct (debug cfg); cbn; rewrite ?app_nil_r;
    repeat split; try discriminate; intros [= ->]; reflexivity.
Qed.

Lemma processRecv_reply_witness :
  exists w',
    processRecv example_cfg icmp_ParseMessage 150 example_reply example_waiting = Ok None w'
    /\ queue w' = delete 7 (queue example_waiting)
    /\ calls w' = [example_response].
Proof.
  destruct (processRecv_reply example_cfg icmp_ParseMessage 150 example_reply example_target
              {| Type_ := 0; Code := 0; Body := Echo 7 0 ([1; 2; 3; 4; 5; 6; 7; 8] ++ replicate 48 0) |}
              7 0 _ {| t_id := 7; t_seq := 0; t_sendTime := 100; t_addr := example_target |}
              example_waiting eq_refl eq_refl eq_refl eq_refl eq_refl eq_refl eq_refl)
    as (w' & H1 & H2 & H3 & _).
  exists w'. split; [exact H1 |]. split; [exact H2 | exact H3].
Defined.

(** X5. An echo reply whose id is in the queue but which comes from
    another address than the target of the task: [processRecv] returns
    the error "did not expect packet from host", after the task has been
    removed from the queue. Nothing is handed to the callback and no
    loss is recorded: the probe is counted neither as received nor as
    lost, and no later sweep can find it. *)
Theorem processRecv_wrong_host (cfg : Config) (ParseMessage : list Z -> Message + string)
        (now : Z) (recv : packet) (a : IPAddr) (m : Message) (ID Seq : Z) (Data : list Z)
        (t : task) (w : World) :
  mux w = false ->
  addr_ip (pkt_addr recv) = inl a ->
  ParseMessage (pkt_bytes recv) = inl m ->
  Type_ m = ICMPTypeEchoReply ->
  Body m = Echo ID Seq Data ->
  queue w !! ID = Some t ->
  IP a <> IP (t_addr t) ->
  exists w',
    processRecv cfg ParseMessage now recv w = Ok (Some (ErrUnexpectedHost a)) w'
    /\ queue w' = delete ID (queue w)
    /\ queue w' !! ID = None
    /\ ps w' = ps w
    /\ calls w' = calls w
    /\ same_engine w w'.
Proof.
  intros Hm Ha Hp Ht Hb Hq Hip. unfold processRecv.
  rewrite Ha, Hp, Ht. cbn [Z.eqb ICMPTypeEchoReply].
  unfold bind at 1. rewrite debugf_run, Hb.
  destruct (debugf_frame cfg "Type, Code, Len, Payload" w) as (Hq0 & Hs0 & Hm0 & Hp0 & Hc0 & Hw0).
  set (w0 := if debug cfg then _ else w) in *.
  unfold bind at 1. rewrite (unqueuePkt_found ID t w0) by congruence.
  apply String.eqb_neq in Hip. rewrite Hip. cbn [negb].
  eexists. split; [reflexivity |]. unfold same_engine. cbn.
  rewrite Hq0, lookup_delete_eq. repeat split; assumption.
Qed.

Lemma processRecv_wrong_host_witness :
  exists w',
    processRecv example_cfg icmp_ParseMessage 150 example_stranger example_waiting
    = Ok (Some (ErrUnexpectedHost {| IP := "9.9.9.9"; Zone := "" |})) w'
    /\ queue w' !! 7 = None
    /\ ps w' = ps example_waiting.
Proof.
  destruct (processRecv_wrong_host example_cfg icmp_ParseMessage 150 example_stranger
              {| IP := "9.9.9.9"; Zone := "" |}
              {| Type_ := 0; Code := 0;
                 Body := Echo 7 0 ([1; 2; 3; 4; 5; 6; 7; 8] ++ replicate 48 0) |}
              7 0 _ {| t_id := 7; t_seq := 0; t_sendTime := 100; t_addr := example_target |}
              example_waiting eq_refl eq_refl eq_refl eq_refl eq_refl eq_refl
              ltac:(discriminate))
    as (w' & H1 & _ & H3 & H4 & _).
  exists w'. split; [exact H1 |]. split; [exact H3 | exact H4].
Defined.

(** X6. A packet that [processRecv] turns down before it looks at the
    queue (an address that is neither an IP nor a UDP address, bytes
    that do not parse, an ICMP type other than echo reply and time
    exceeded, an echo reply type without an echo body) gives an error and
    leaves the queue, the statistics, the record of callbacks and the
    mutex as they were, whether or not the mutex is held. *)
Theorem processRecv_rejected (cfg : Config) (ParseMessage : list Z -> Message + string)
        (now : Z) (recv : packet) (w : World) :
  (exists n, addr_ip (pkt_addr recv) = inr n)
  \/ (exists e, ParseMessage (pkt_bytes recv) = inr e)
  \/ (exists m, ParseMessage (pkt_bytes recv) = inl m
                /\ (Type_ m <> ICMPTypeEchoReply /\ Type_ m <> ICMPTypeTimeExceeded
                    \/ Type_ m = ICMPTypeEchoReply
                       /\ forall ID Seq Data, Body m <> Echo ID Seq Data)) ->
  exists e w',
    processRecv cfg ParseMessage now recv w = Ok (Some e) w'
    /\ queue w' = queue w /\ ps w' = ps w /\ calls w' = calls w /\ same_engine w w'.
Proof.
  intros H. unfold processRecv, same_engine.
  destruct (addr_ip (pkt_addr recv)) as [a | n] eqn:Ea.
  2: { eexists _, _. split; [reflexivity |]. repeat split. }
  destruct H as [[n Hn] | H]; [discriminate |].
  destruct (ParseMessage (pkt_bytes recv)) as [m | err] eqn:Ep.
  2: { eexists _, _. split; [reflexivity |]. repeat split. }
  destruct H as [[e He] | (m' & [= <-] & H)]; [discriminate |].
  destruct H as [[Hne1 Hne2] | [Hty Hbody]].
  - apply Z.eqb_neq in Hne1, Hne2. rewrite Hne1, Hne2.
    eexists _, _. split; [reflexivity |]. repeat split.
  - rewrite Hty. cbn [Z.eqb ICMPTypeEchoReply]. unfold bind at 1. rewrite debugf_run.
    destruct (debugf_frame cfg "Type, Code, Len, Payload" w) as (Hq0 & Hs0 & Hm0 & Hp0 & Hc0 & Hw0).
    destruct (Body m) as [ID Seq Data | |] eqn:Eb; [exfalso; exact (Hbody _ _ _ eq_refl) | |];
      eexists _, _; (split; [reflexivity |]); repeat split; assumption.
Qed.

Lemma processRecv_rejected_witness :
  exists e w',
    processRecv example_cfg icmp_ParseMessage 150 example_unreachable example_waiting
    = Ok (Some e) w'
    /\ queue w' = queue example_waiting.
Proof.
  destruct (processRecv_rejected example_cfg icmp_ParseMessage 150 example_unreachable
              example_waiting) as (e & w' & H1 & H2 & _).
  - right. right. eexists. split; [reflexivity |]. left. split; discriminate.
  - exists e, w'. split; [exact H1 | exact H2].
Defined.

(** X7. A time-exceeded packet whose last 16 bytes do not parse, or
    parse as something other than an echo message: one loss is
    recorded, the queue stays as it is, and the error names the hop
    only. *)
Theorem processRecv_ttl_no_echo (cfg : Config) (ParseMessage : list Z -> Message + string)
        (now : Z) (recv : packet) (a : IPAddr) (m : Message) (w : World) :
  addr_ip (pkt_addr recv) = inl a ->
  ParseMessage (pkt_bytes recv) = inl m ->
  Type_ m = ICMPTypeTimeExceeded ->
  (16 <= length (pkt_bytes recv))%nat ->
  (forall om, ParseMessage (drop (length (pkt_bytes recv) - 16) (pkt_bytes recv)) = inl om ->
              forall ID Seq Data, Body om <> Echo ID Seq Data) ->
  processRecv cfg ParseMessage now recv w
  = Ok (Some (ErrTTLExceeded (IP a))) (set_ps (PacketLost (ps w)) w).
Proof.
  intros Ha Hp Ht Hl Hno. unfold processRecv.
  rewrite Ha, Hp, Ht. cbn [Z.eqb ICMPTypeEchoReply ICMPTypeTimeExceeded Pos.eqb].
  unfold defer. unfold bind at 1 2. rewrite (last16_run _ _ Hl).
  destruct (ParseMessage (drop _ _)) as [om | err] eqn:Eo; [| reflexivity].
  destruct (Body om) as [ID Seq Data | |] eqn:Eb; [| reflexivity ..].
  exfalso. exact (Hno om eq_refl _ _ _ Eb).
Qed.

Lemma processRecv_ttl_no_echo_witness :
  processRecv example_cfg icmp_ParseMessage 150 example_ttl_other example_waiting
  = Ok (Some (ErrTTLExceeded "9.9.9.9"))
       (set_ps (PacketLost (ps example_waiting)) example_waiting).
Proof.
  apply (processRecv_ttl_no_echo example_cfg icmp_ParseMessage 150 example_ttl_other
           {| IP := "9.9.9.9"; Zone := "" |}
           {| Type_ := 11; Code := 0;
              Body := TimeExceeded (replicate 40 0 ++ [3; 0; 0; 0; 0; 7; 0; 0]
                                    ++ replicate 8 0) |}).
  - reflexivity.
  - reflexivity.
  - reflexivity.
  - vm_compute. lia.
  - intros om H ID Seq Data. vm_compute in H. injection H as <-. discriminate.
Defined.

(** X8. A round of [processLoop] that takes a packet, an echo reply
    or a time-exceeded notification, whose id is not in the queue does
    not log an error and go on: [unqueuePkt] unlocks the mutex twice and
    the program ends. *)
Theorem processLoop_unknown_id (cfg : Config) (ParseMessage : list Z -> Message + string)
        (now : Z) (recv : packet) (a : IPAddr) (m : Message) (ID Seq : Z) (Data : list Z)
        (w : World) :
  mux w = false ->
  addr_ip (pkt_addr recv) = inl a ->
  ParseMessage (pkt_bytes recv) = inl m ->
  (Type_ m = ICMPTypeEchoReply /\ Body m = Echo ID Seq Data
   \/ Type_ m = ICMPTypeTimeExceeded
      /\ (16 <= length (pkt_bytes recv))%nat
      /\ exists om, ParseMessage (drop (length (pkt_bytes recv) - 16) (pkt_bytes recv))
                    = inl om
                    /\ Body om = Echo ID Seq Data) ->
  queue w !! ID = None ->
  processLoop_body cfg ParseMessage (SelRecv now recv) w = Fatal UnlockOfUnlockedMutex.
Proof.
  intros Hm Ha Hp Hcase Hq.
  unfold processLoop_body. unfold bind at 1. rewrite debugf_run.
  destruct (debugf_frame cfg "processLoop(): <-p.recvCh" w) as (Hq0 & _ & Hm0 & _).
  set (w0 := if debug cfg then _ else w) in *.
  unfold bind at 1. unfold processRecv. rewrite Ha, Hp.
  destruct Hcase as [[Ht Hb] | (Ht & Hl & om & Hom & Hb)]; rewrite Ht;
    cbn [Z.eqb ICMPTypeEchoReply ICMPTypeTimeExceeded Pos.eqb].
  - unfold bind at 1. rewrite debugf_run, Hb.
    destruct (debugf_frame cfg "Type, Code, Len, Payload" w0) as (Hq1 & _ & Hm1 & _).
    unfold bind at 1. rewrite unqueuePkt_absent; [reflexivity | |].
    + rewrite Hm1, Hm0. exact Hm.
    + rewrite Hq1, Hq0. exact Hq.
  - unfold defer. unfold bind at 1 2. rewrite (last16_run _ _ Hl), Hom, Hb.
    unfold bind at 1. rewrite unqueuePkt_absent; [reflexivity | |].
    + rewrite Hm0. exact Hm.
    + rewrite Hq0. exact Hq.
Qed.

Lemma processLoop_unknown_id_witness :
  processLoop_body example_cfg icmp_ParseMessage (SelRecv 150 example_ttl_packet) init_world
  = Fatal UnlockOfUnlockedMutex.
Proof.
  apply (processLoop_unknown_id example_cfg icmp_ParseMessage 150 example_ttl_packet
           {| IP := "9.9.9.9"; Zone := "" |}
           {| Type_ := 11; Code := 0;
              Body := TimeExceeded (replicate 40 0 ++ [8; 0; 0; 0; 0; 7; 0; 0]
                                    ++ replicate 8 0) |}
           7 0 (replicate 8 0)); try reflexivity.
  right. split; [reflexivity |]. split; [vm_compute; lia |].
  eexists. split; reflexivity.
Defined.

(** X9. Whatever a round of [processLoop] does (stop, a packet, a
    sweep in any order and with any clock): when it returns, the mutex
    is as it was before, the sequence counter and the count of writes are
    untouched, and the queue holds no entry that it did not hold before.
    The loop ends on the stop request only. *)
Theorem processLoop_round_keeps (cfg : Config) (ParseMessage : list Z -> Message + string)
        (c : select_case) (r : ctl) (w w' : World) :
  processLoop_body cfg ParseMessage c w = Ok r w' ->
  same_engine w w'
  /\ within (queue w') (queue w)
  /\ (r = Return <-> c = SelStop).
Proof.
  unfold processLoop_body. intros H. destruct c as [| now recv | clock order].
  - unfold bind in H. rewrite debugf_run in H. injection H as <- <-.
    destruct (debugf_frame cfg "processLoop(): <-p.processCtx.stop" w)
      as (Hq0 & Hs0 & Hm0 & _ & _ & Hw0).
    unfold same_engine. rewrite Hq0. repeat split; try assumption. apply within_refl.
  - unfold bind at 1 in H. rewrite debugf_run in H.
    destruct (debugf_frame cfg "processLoop(): <-p.recvCh" w)
      as (Hq0 & Hs0 & Hm0 & _ & _ & Hw0).
    set (w0 := if debug cfg then _ else w) in *.
    unfold bind at 1 in H.
    destruct (processRecv cfg ParseMessage now recv w0) as [e w1 | | |] eqn:Er;
      try discriminate.
    apply processRecv_frame in Er as ((Hm1 & Hs1 & Hw1) & Hin).
    assert (Hfin : same_engine w w1 /\ within (queue w1) (queue w)).
    { unfold same_engine. rewrite <- Hq0.
      repeat split; [rewrite Hm1; exact Hm0 | rewrite Hs1; exact Hs0
                     | rewrite Hw1; exact Hw0 | exact Hin]. }
    destruct e as [e |]; run_m in H; injection H as <- <-;
      (split; [| split; [| split; discriminate]]); cbn; apply Hfin.
  - unfold sweep, Lock, Unlock, bind in H.
    destruct (mux w) eqn:Hm; [discriminate |].
    destruct (sweep_range_spec cfg clock order (set_mux true w))
      as (w1 & Hrun & Hq & _ & _ & _ & Hm1 & Hs1 & _ & Hw1).
    rewrite Hrun in H. cbn [mux set_mux] in Hm1.
    rewrite Hm1 in H. run_m in H. injection H as <- <-.
    unfold same_engine. cbn. cbn in Hq, Hs1, Hw1.
    repeat split; try congruence; try discriminate.
    intros i t Hi. rewrite Hq in Hi. case_decide; [discriminate | exact Hi].
Qed.

Lemma processLoop_round_keeps_witness :
  same_engine example_waiting example_replied
  /\ within (queue example_replied) (queue example_waiting)
  /\ (Continue = Return <-> SelRecv 150 example_reply = SelStop).
Proof.
  apply (processLoop_round_keeps example_cfg icmp_ParseMessage (SelRecv 150 example_reply)
           Continue example_waiting example_replied).
  vm_compute. reflexivity.
Defined.

(** ** [receiveLoop] *)

(** X10. A round of [receiveLoop] that returns has touched nothing
    but the log, and what it does follows from the read: it goes on after
    a timeout, it reports on [recvCtx.done] only a [*net.OpError] that is
    no timeout, and it hands the buffer over in every other case, also
    when the read returned an error that is not a [*net.OpError]. *)
Theorem receiveLoop_round (cfg : Config) (stop1 stop2 : bool) (rd : read_result)
        (r : recv_ctl) (w w' : World) :
  receiveLoop_body cfg stop1 stop2 rd w = Ok r w' ->
  recv_verdict stop1 stop2 rd r
  /\ queue w' = queue w /\ ps w' = ps w /\ calls w' = calls w /\ same_engine w w'.
Proof.
  unfold receiveLoop_body, same_engine. intros H.
  assert (Hfr : forall msg, let w1 := if debug cfg then add_out (LogDebug msg) w else w in
                queue w1 = queue w /\ ps w1 = ps w /\ calls w1 = calls w
                /\ mux w1 = mux w /\ seq w1 = seq w /\ wrote w1 = wrote w).
  { intros msg. destruct (debug cfg); repeat split. }
  destruct stop1.
  - unfold bind in H. rewrite debugf_run in H. injection H as <- <-.
    split; [reflexivity | apply Hfr].
  - destruct (rd_err rd) as [[inner [|] | msg] |] eqn:Ee; unfold bind, ret in H;
      rewrite ?debugf_run in H.
    + injection H as <- <-. split; [cbn; eauto | repeat split].
    + injection H as <- <-. split; [cbn; eauto | apply Hfr].
    + destruct (rd_addr rd) as [addr |] eqn:Ea; [| discriminate].
      rewrite debugf_run in H. destruct stop2; run_m in H; injection H as <- <-.
      * split; [cbn; auto |]. destruct (debug cfg); repeat split.
      * split; [cbn; eauto 10 | apply Hfr].
    + destruct (rd_addr rd) as [addr |] eqn:Ea; [| discriminate].
      rewrite debugf_run in H. destruct stop2; run_m in H; injection H as <- <-.
      * split; [cbn; auto |]. destruct (debug cfg); repeat split.
      * split; [cbn; eauto 10 | apply Hfr].
Qed.

Lemma receiveLoop_round_witness :
  recv_verdict false false example_read_eof
               (RecvHandoff {| pkt_bytes := make_buf; pkt_addr := AddrIP example_target |}).
Proof.
  apply (receiveLoop_round example_cfg false false example_read_eof _ init_world init_world).
  reflexivity.
Defined.

(** X11. A packet that [receiveLoop] handed over never makes
    [processRecv] slice out of range, whatever the parser makes of it:
    the buffer has 64 cells and the time-exceeded branch takes the last
    16. *)
Theorem handoff_never_slices (cfg : Config) (ParseMessage : list Z -> Message + string)
        (stop1 stop2 : bool) (rd : read_result) (w0 w1 : World) (pkt : packet)
        (now : Z) (w : World) :
  receiveLoop_body cfg stop1 stop2 rd w0 = Ok (RecvHandoff pkt) w1 ->
  processRecv cfg ParseMessage now pkt w <> Fatal SliceBoundsOutOfRange.
Proof.
  intros Hrecv Hf.
  destruct (receiveLoop_handoff cfg stop1 stop2 rd w0 w1 pkt Hrecv) as (_ & Hlen & _).
  destruct (processRecv_fatal cfg ParseMessage now pkt _ w Hf) as [? | [_ Hshort]];
    [discriminate | lia].
Qed.

Lemma handoff_never_slices_witness :
  processRecv example_cfg icmp_ParseMessage 150 example_ttl_packet init_world
  <> Fatal SliceBoundsOutOfRange.
Proof.
  apply (handoff_never_slices example_cfg icmp_ParseMessage false false
           {| rd_buf := pkt_bytes example_ttl_packet; rd_n := 44;
              rd_addr := Some (pkt_addr example_ttl_packet); rd_err := None |}
           init_world init_world example_ttl_packet 150 init_world).
  reflexivity.
Defined.

(** ** Sending, and what becomes of a probe *)

(** X12. When [Marshal] fails, [sendICMP] returns its error without a
    write and without a line in the log; the task was stored and the
    sequence number used up before, and they stay. *)
Theorem sendICMP_marshal_error (cfg : Config) (fuel : nat) (env : send_env) (host : string)
        (target : IPAddr) (e : string) (w : World) :
  mux w = false ->
  Marshal env = inr e ->
  let id := rand_Intn 0xffff (rand_src env) in
  sendICMP cfg fuel env host target w
  = Ok (Some (ErrMarshal e))
       (set_queue (<[id := {| t_id := id; t_seq := seq w; t_sendTime := send_now env;
                              t_addr := target |}]> (queue w))
                  (set_seq (Int64.wrap (seq w + 1)) w)).
Proof.
  intros Hm He id. unfold sendICMP, Lock, Unlock. fold id. run_m.
  rewrite Hm, He. cbn [mux set_mux set_queue set_seq].
  destruct w; cbn in *; subst; reflexivity.
Qed.

Lemma sendICMP_marshal_error_witness :
  exists w',
    sendICMP example_cfg 0 example_env_nomarshal "host" example_target init_world
    = Ok (Some (ErrMarshal "invalid")) w'
    /\ wrote w' = 0%nat /\ out w' = [] /\ is_Some (queue w' !! 7).
Proof.
  eexists. split.
  - apply (sendICMP_marshal_error example_cfg 0 example_env_nomarshal "host" example_target
             "invalid" init_world); reflexivity.
  - repeat split. vm_compute. eauto.
Defined.

(** X13. A probe that gets no reply. After [sendICMP] the next sweep
    of [processLoop], in whatever order it visits the queue, looks at
    the new task with the deadline [sendTime + maxRTT]: when the clock
    read at that entry is past it, the id is gone, a timeout line with
    the sequence number of the probe is logged and at least one loss is
    recorded; otherwise the task is still queued as it was stored. *)
Theorem probe_times_out (cfg : Config) (ParseMessage : list Z -> Message + string)
        (fuel : nat) (env : send_env) (host : string) (target : IPAddr)
        (clock : Z -> Z) (w : World) :
  (5 <= fuel)%nat ->
  mux w = false ->
  let id := rand_Intn 0xffff (rand_src env) in
  let t := {| t_id := id; t_seq := seq w; t_sendTime := send_now env; t_addr := target |} in
  exists err w1,
    sendICMP cfg fuel env host target w = Ok err w1
    /\ forall order, order ≡ₚ map_to_list (queue w1) ->
       exists w2,
         processLoop_body cfg ParseMessage (SelDefault clock order) w1 = Ok Continue w2
         /\ if send_now env + maxRTT cfg <? clock id
            then queue w2 !! id = None
                 /\ (exists rest, out w2 = out w1 ++ rest /\ LogRequestTimeout (seq w) ∈ rest)
                 /\ (exists n, packets (ps w2) = packets (ps w) ++ replicate (S n) lost_stat)
            else queue w2 !! id = Some t.
Proof.
  intros Hf Hm id t.
  destruct (sendICMP_spec cfg fuel env host target w Hf Hm)
    as (err & w1 & Hrun & Hq1 & _ & Hm1 & Hp1 & _).
  fold id in Hq1. fold t in Hq1.
  exists err, w1. split; [exact Hrun |]. intros order Hperm.
  destruct (sweep_spec cfg clock order w1 Hm1 Hperm)
    as (w2 & Hsw & Hq2 & Hp2 & _ & Ho2 & _).
  exists w2. cbn [processLoop_body]. unfold bind. rewrite Hsw. split; [reflexivity |].
  assert (Hin : queue w1 !! id = Some t) by (rewrite Hq1; apply lookup_insert_eq).
  destruct (send_now env + maxRTT cfg <? clock id) eqn:E.
  - assert (Hexp : Expired cfg clock (id, t)) by exact E.
    split; [| split].
    + rewrite Hq2. apply map_lookup_filter_None. right. intros t' Ht' Hnot.
      rewrite Hin in Ht'. injection Ht' as <-. contradiction.
    + eexists. split; [exact Ho2 |].
      apply list_elem_of_fmap. exists (id, t). split; [reflexivity |].
      apply list_elem_of_filter. split; [exact Hexp |].
      rewrite Hperm. apply elem_of_map_to_list. exact Hin.
    + rewrite Hp2, Hp1.
      destruct (size (filter (Expired cfg clock) (queue w1))) as [| n] eqn:Es; [| eauto].
      apply map_size_empty_iff in Es.
      assert (Hl : filter (Expired cfg clock) (queue w1) !! id = Some t)
        by (apply map_lookup_filter_Some; split; assumption).
      rewrite Es, lookup_empty in Hl. discriminate.
  - rewrite Hq2. apply map_lookup_filter_Some. split; [exact Hin |].
    unfold Expired, expired. cbn. fold id. rewrite E. discriminate.
Qed.

Lemma probe_times_out_witness :
  exists err w1 w2,
    sendICMP example_cfg 5 (example_env None) "host" example_target init_world = Ok err w1
    /\ processLoop_body example_cfg icmp_ParseMessage
         (SelDefault (fun _ => 2000000000) (map_to_list (queue w1))) w1 = Ok Continue w2
    /\ queue w2 !! 7 = None.
Proof.
  destruct (probe_times_out example_cfg icmp_ParseMessage 5 (example_env None) "host"
              example_target (fun _ => 2000000000) init_world)
    as (err & w1 & Hrun & Hsweep); [lia | reflexivity |].
  destruct (Hsweep (map_to_list (queue w1))) as (w2 & Hw2 & Hgone & _); [reflexivity |].
  exists err, w1, w2. repeat split; assumption.
Defined.

(** X14. A probe that is answered is counted once. After [sendICMP],
    an echo reply with the drawn id from the target, taken by
    [processLoop] with the callback of [run], and then a sweep at any
    clock: the id is gone, and the records are those before the send,
    then one received record with the round-trip time (0 when the
    sequence number of the reply is not that of the probe), then one
    loss for each other entry of the queue that expired, and none for
    this probe. *)
Theorem probe_answered_once (cfg : Config) (ParseMessage : list Z -> Message + string)
        (fuel : nat) (env : send_env) (host : string) (target : IPAddr)
        (now : Z) (recv : packet) (a : IPAddr) (m : Message) (Seq : Z) (Data : list Z)
        (clock : Z -> Z) (w : World) :
  (5 <= fuel)%nat ->
  mux w = false ->
  callback cfg = Some handler ->
  let id := rand_Intn 0xffff (rand_src env) in
  addr_ip (pkt_addr recv) = inl a ->
  ParseMessage (pkt_bytes recv) = inl m ->
  Type_ m = ICMPTypeEchoReply ->
  Body m = Echo id Seq Data ->
  IP a = IP target ->
  exists err w1 w2,
    sendICMP cfg fuel env host target w = Ok err w1
    /\ processLoop_body cfg ParseMessage (SelRecv now recv) w1 = Ok Continue w2
    /\ forall order, order ≡ₚ map_to_list (queue w2) ->
       exists w3,
         processLoop_body cfg ParseMessage (SelDefault clock order) w2 = Ok Continue w3
         /\ queue w3 !! id = None
         /\ packets (ps w3)
            = packets (ps w)
              ++ [ {| successful := true;
                      rtt := Some (if Seq =? seq w then GoTime.Since now (send_now env)
                                   else 0) |} ]
              ++ replicate (size (filter (Expired cfg clock) (delete id (queue w)))) lost_stat.
Proof.
  intros Hf Hm Hcb id Ha Hp Ht Hb Hip.
  destruct (sendICMP_spec cfg fuel env host target w Hf Hm)
    as (err & w1 & Hrun & Hq1 & _ & Hm1 & Hp1 & _).
  fold id in Hq1.
  set (t := {| t_id := id; t_seq := seq w; t_sendTime := send_now env; t_addr := target |})
    in *.
  exists err, w1.
  set (w0 := if debug cfg then add_out (LogDebug "processLoop(): <-p.recvCh") w1 else w1).
  assert (H0 : queue w0 = queue w1 /\ mux w0 = false /\ ps w0 = ps w1).
  { subst w0. destruct (debug cfg); repeat split; assumption. }
  destruct H0 as (Hq0 & Hm0 & Hp0).
  assert (Hin : queue w0 !! id = Some t) by (rewrite Hq0, Hq1; apply lookup_insert_eq).
  pose proof (processRecv_reply_run cfg ParseMessage now recv a m id Seq Data t w0
                Hm0 Ha Hp Ht Hb Hin Hip) as Hrecv.
  cbv zeta in Hrecv. rewrite Hcb in Hrecv.
  eexists. split; [exact Hrun |]. split.
  { cbn [processLoop_body]. unfold bind at 1. rewrite debugf_run. fold w0.
    unfold bind at 1. unfold bind at 1. rewrite Hrecv. run_m. reflexivity. }
  intros order Hperm.
  match type of Hperm with
  | _ ≡ₚ map_to_list (queue ?w2) =>
    assert (Hq2 : queue w2 = delete id (queue w));
    [| assert (Hm2 : mux w2 = false);
       [| assert (Hp2 : packets (ps w2)
                        = packets (ps w)
                          ++ [ {| successful := true;
                                  rtt := Some (if Seq =? seq w
                                               then GoTime.Since now (send_now env)
                                               else 0) |} ]);
          [| destruct (sweep_spec cfg clock order w2 Hm2 Hperm)
               as (w3 & Hsw & Hq3 & Hp3 & _) ] ] ]
  end.
  - cbn. rewrite Hq0, Hq1. apply delete_insert_eq.
  - cbn. destruct (debug cfg); cbn; exact Hm0 || (subst w0; exact Hm1).
  - cbn. destruct (debug cfg); cbn; rewrite <- Hp1; subst w0; reflexivity.
  - exists w3. cbn [processLoop_body]. unfold bind. rewrite Hsw.
    split; [reflexivity |]. split.
    + rewrite Hq3, Hq2. apply map_lookup_filter_None. left. apply lookup_delete_eq.
    + rewrite Hp3, Hp2, Hq2, <- app_assoc. reflexivity.
Qed.

Lemma probe_answered_once_witness :
  exists err w1 w2 w3,
    sendICMP example_cfg 5 (example_env None) "host" example_target init_world = Ok err w1
    /\ processLoop_body example_cfg icmp_ParseMessage (SelRecv 150 example_reply) w1
       = Ok Continue w2
    /\ processLoop_body example_cfg icmp_ParseMessage
         (SelDefault (fun _ => 2000000000) (map_to_list (queue w2))) w2 = Ok Continue w3
    /\ packets (ps w3) = [ {| successful := true; rtt := Some 50 |} ].
Proof.
  destruct (probe_answered_once example_cfg icmp_ParseMessage 5 (example_env None) "host"
              example_target 150 example_reply example_target
              {| Type_ := 0; Code := 0;
                 Body := Echo 7 0 ([1; 2; 3; 4; 5; 6; 7; 8] ++ replicate 48 0) |}
              0 ([1; 2; 3; 4; 5; 6; 7; 8] ++ replicate 48 0) (fun _ => 2000000000) init_world)
    as (err & w1 & w2 & Hrun & Hrecv & Hsweep);
    [lia | reflexivity | reflexivity | reflexivity | reflexivity | reflexivity | reflexivity
     | reflexivity |].
  destruct (Hsweep (map_to_list (queue w2))) as (w3 & Hw3 & _ & Hps); [reflexivity |].
  exists err, w1, w2, w3. repeat split; assumption.
Defined.

(** ** The payload of a probe *)

Lemma big_Bytes_value (fuel : nat) :
  forall (x : Z) (acc : list Z),
    0 <= x < 256 ^ Z.of_nat fuel ->
    fold_left (fun a b => a * 256 + b) (big_Bytes fuel x acc) 0
    = fold_left (fun a b => a * 256 + b) acc x.
Proof.
  induction fuel as [| f IH]; intros x acc Hx.
  - cbn in *. replace x with 0 by lia. reflexivity.
  - cbn [big_Bytes]. destruct (x =? 0) eqn:E.
    + apply Z.eqb_eq in E. subst x. reflexivity.
    + rewrite IH.
      * cbn [fold_left]. f_equal. pose proof (Z.div_mod x 256). lia.
      * rewrite Nat2Z.inj_succ, Z.pow_succ_r in Hx by lia.
        split; [apply Z.div_pos; lia | apply Z.div_lt_upper_bound; lia].
Qed.

Lemma big_Bytes_bytes (fuel : nat) :
  forall (x : Z) (acc : list Z),
    Forall (fun b => 0 <= b < 256) acc ->
    Forall (fun b => 0 <= b < 256) (big_Bytes fuel x acc).
Proof.
  induction fuel as [| f IH]; intros x acc Hacc; [exact Hacc |].
  cbn [big_Bytes]. destruct (x =? 0); [exact Hacc |].
  apply IH. constructor; [apply Z.mod_pos_bound; lia | exact Hacc].
Qed.

Lemma big_Bytes_length_le (fuel : nat) :
  forall (x : Z) (acc : list Z),
    (length acc <= length (big_Bytes fuel x acc) <= fuel + length acc)%nat.
Proof.
  induction fuel as [| f IH]; intros x acc; [cbn; lia |].
  cbn [big_Bytes]. destruct (x =? 0); [lia |].
  specialize (IH (x / 256) (x mod 256 :: acc)). cbn [length] in IH. lia.
Qed.

Lemma big_Bytes_length_ge (n : nat) :
  forall (fuel : nat) (x : Z) (acc : list Z),
    (n < fuel)%nat ->
    256 ^ Z.of_nat n <= x ->
    (length acc + n + 1 <= length (big_Bytes fuel x acc))%nat.
Proof.
  induction n as [| n IH]; intros [| f] x acc Hf Hx; try lia.
  - cbn [big_Bytes]. cbn in Hx. destruct (x =? 0) eqn:E; [apply Z.eqb_eq in E; lia |].
    pose proof (big_Bytes_length_le f (x / 256) (x mod 256 :: acc)) as H.
    cbn [length] in H. lia.
  - cbn [big_Bytes]. rewrite Nat2Z.inj_succ, Z.pow_succ_r in Hx by lia.
    assert (0 < 256 ^ Z.of_nat n) by (apply Z.pow_pos_nonneg; lia).
    destruct (x =? 0) eqn:E; [apply Z.eqb_eq in E; lia |].
    specialize (IH f (x / 256) (x mod 256 :: acc) ltac:(lia)
                   ltac:(apply Z.div_le_lower_bound; lia)).
    cbn [length] in IH. lia.
Qed.

Lemma big_Bytes_head (fuel : nat) :
  forall (x : Z) (acc : list Z),
    0 < x < 256 ^ Z.of_nat fuel ->
    exists b rest, big_Bytes fuel x acc = b :: rest /\ 0 < b < 256.
Proof.
  induction fuel as [| f IH]; intros x acc Hx; [cbn in Hx; lia |].
  cbn [big_Bytes]. destruct (x =? 0) eqn:E; [apply Z.eqb_eq in E; lia |].
  rewrite Nat2Z.inj_succ, Z.pow_succ_r in Hx by lia.
  destruct (Z.eq_dec (x / 256) 0) as [Hz | Hnz].
  - exists (x mod 256), acc. rewrite Hz.
    split; [destruct f; reflexivity |].
    pose proof (Z.div_mod x 256). pose proof (Z.mod_pos_bound x 256). lia.
  - apply IH. split.
    + pose proof (Z.div_pos x 256). lia.
    + apply Z.div_lt_upper_bound; lia.
Qed.

(** X15. [timeToBytes] writes the absolute value of the Unix time in
    nanoseconds big-endian: the bytes read back as a number give that
    value, so the sign is lost; there are at most 8 of them, none of
    them leading zeros, none at all for the time 0, and exactly 8 from
    2^56 ns on. *)
Theorem timeToBytes_spec (t : Z) :
  Int64.in_range t ->
  big_value (timeToBytes t) = Z.abs t
  /\ Forall (fun b => 0 <= b < 256) (timeToBytes t)
  /\ (length (timeToBytes t) <= 8)%nat
  /\ head (timeToBytes t) <> Some 0
  /\ (timeToBytes t = [] <-> t = 0)
  /\ (2 ^ 56 <= Z.abs t -> length (timeToBytes t) = 8%nat).
Proof.
  unfold Int64.in_range, Int64.min_signed, Int64.max_signed, timeToBytes, big_value.
  intros Hr.
  assert (Habs : 0 <= Z.abs t < 256 ^ Z.of_nat 8) by (change (256 ^ Z.of_nat 8) with (2 ^ 64); lia).
  pose proof (big_Bytes_length_le 8 (Z.abs t) []) as Hle. cbn [length] in Hle.
  assert (Hnil : big_Bytes 8 (Z.abs t) [] = [] <-> t = 0).
  { split.
    - intros Hn. destruct (Z.eq_dec t 0) as [| Hne]; [assumption |].
      destruct (big_Bytes_head 8 (Z.abs t) []) as (b & rest & Hb & _); [lia |].
      rewrite Hn in Hb. discriminate.
    - intros ->. reflexivity. }
  repeat split.
  - rewrite big_Bytes_value by exact Habs. reflexivity.
  - apply big_Bytes_bytes. constructor.
  - lia.
  - destruct (Z.eq_dec t 0) as [-> | Hne]; [discriminate |].
    destruct (big_Bytes_head 8 (Z.abs t) []) as (b & rest & -> & Hb); [lia |].
    cbn. intros [= ->]. lia.
  - apply Hnil.
  - apply Hnil.
  - intros Hbig.
    pose proof (big_Bytes_length_ge 7 8 (Z.abs t) [] ltac:(lia)
                  ltac:(change (256 ^ Z.of_nat 7) with (2 ^ 56); exact Hbig)) as Hge.
    cbn [length] in Hge. lia.
Qed.

Lemma timeToBytes_spec_witness :
  big_value (timeToBytes (-1600000000000000000)) = 1600000000000000000
  /\ length (timeToBytes (-1600000000000000000)) = 8%nat.
Proof.
  destruct (timeToBytes_spec (-1600000000000000000)) as (Hv & _ & _ & _ & _ & Hl).
  - unfold Int64.in_range, Int64.min_signed, Int64.max_signed. lia.
  - split; [exact Hv | apply Hl; vm_compute; discriminate].
Defined.

(** * The chat *)

(** ** The wire format *)

Section WireFacts.

Import SocketChat.

Lemma string_bytes (s : string) : string_ (bytes s) = s.
Proof.
  unfold string_, bytes. rewrite map_map.
  induction s as [| a s IH]; [reflexivity |].
  cbn. rewrite N2Z.id, Ascii.ascii_N_embedding. f_equal. exact IH.
Qed.

Lemma bytes_string (b : list Z) :
  Forall (fun z => 0 <= z < 256) b -> bytes (string_ b) = b.
Proof.
  unfold string_, bytes. induction 1 as [| z b Hz _ IH]; [reflexivity |].
  cbn. rewrite Ascii.N_ascii_embedding by lia. rewrite Z2N.id by lia. f_equal. exact IH.
Qed.

Lemma length_bytes (s : string) : Z.of_nat (length (bytes s)) = len s.
Proof.
  unfold bytes, len. rewrite length_map. f_equal.
  induction s as [| a s IH]; [reflexivity |]. cbn. f_equal. exact IH.
Qed.

Lemma len_string (b : list Z) : len (string_ b) = Z.of_nat (length b).
Proof.
  unfold string_, len. f_equal.
  induction b as [| z b IH]; [reflexivity |]. cbn. f_equal. exact IH.
Qed.

Lemma Send_accepts (write : list Z -> write_result) (msg : Message) (data : list Z) :
  Send write msg = (Some data, None) ->
  len (Sender msg) <= 32 /\ len (Receiver msg) <= 32 /\ len (Data msg) <= 255
  /\ data = frame msg.
Proof.
  unfold Send, MaxNameByteSize, MaxDataByteSize.
  destruct (32 <? len (Sender msg)) eqn:E1; [discriminate |].
  destruct (32 <? len (Receiver msg)) eqn:E2; [discriminate |].
  destruct (255 <? len (Data msg)) eqn:E3; [discriminate |].
  destruct (wr_err (write (frame msg))); [discriminate |].
  destruct (negb _); [discriminate |].
  intros [= <-]. repeat split; lia.
Qed.

Lemma len_nonneg (s : string) : 0 <= len s.
Proof. unfold len. lia. Qed.

Lemma frame_split (msg : Message) :
  frame msg
  = [0; 255; byte (Command msg); byte (len (Sender msg)); byte (len (Receiver msg));
     byte (len (Data msg))]
    ++ (bytes (Sender msg) ++ bytes (Receiver msg) ++ bytes (Data msg)).
Proof. reflexivity. Qed.

Lemma buf_after_exact (l : list Z) :
  buf_after (Z.of_nat (length l)) {| rd_data := l; rd_fail := None |} = l.
Proof.
  unfold buf_after. cbn [rd_data]. rewrite Nat2Z.id, Nat.sub_diag. cbn [replicate].
  rewrite app_nil_r. apply firstn_all.
Qed.

Lemma slice_app (a b : list Z) (n : Z) :
  n = Z.of_nat (length a) ->
  slice (a ++ b) 0 n = Some a.
Proof.
  intros ->. unfold slice. rewrite length_app.
  replace (_ && _ && _) with true by (symmetry; rewrite !andb_true_iff, !Z.leb_le; lia).
  rewrite Z.sub_0_r, Nat2Z.id. change (Z.to_nat 0) with 0%nat. rewrite drop_0.
  now rewrite take_app_length.
Qed.

Lemma slice_mid (a b c : list Z) (lo hi : Z) :
  lo = Z.of_nat (length a) ->
  hi = Z.of_nat (length a + length b) ->
  slice (a ++ b ++ c) lo hi = Some b.
Proof.
  intros -> ->. unfold slice. rewrite !length_app.
  replace (_ && _ && _) with true by (symmetry; rewrite !andb_true_iff, !Z.leb_le; lia).
  rewrite Nat2Z.id, drop_app_length.
  replace (Z.to_nat _) with (length b) by lia.
  now rewrite take_app_length.
Qed.

Lemma slice_end (a b : list Z) (lo : Z) :
  lo = Z.of_nat (length a) ->
  slice (a ++ b) lo (Z.of_nat (length (a ++ b))) = Some b.
Proof.
  intros ->. unfold slice. rewrite !length_app.
  replace (_ && _ && _) with true by (symmetry; rewrite !andb_true_iff, !Z.leb_le; lia).
  rewrite Nat2Z.id, drop_app_length.
  replace (Z.to_nat _) with (length b) by lia.
  apply f_equal, firstn_all.
Qed.

(** X16. What [Send] wrote, [Receive] reads back. For a message that
    [Send] accepted and whose three lengths sum to at most 255, a
    reader that gets the six header bytes with its first read and the
    rest with its second returns the message itself. *)
Theorem Receive_Send (write : list Z -> write_result) (msg : Message) (data : list Z) :
  0 <= Command msg < 256 ->
  Send write msg = (Some data, None) ->
  len (Sender msg) + len (Receiver msg) + len (Data msg) <= 255 ->
  Receive {| rd_data := take 6 data; rd_fail := None |}
          {| rd_data := drop 6 data; rd_fail := None |} = Got msg.
Proof.
  intros Hc Hs Hsum.
  destruct (Send_accepts write msg data Hs) as (H1 & H2 & H3 & ->).
  pose proof (len_nonneg (Sender msg)). pose proof (len_nonneg (Receiver msg)).
  pose proof (len_nonneg (Data msg)).
  rewrite frame_split. unfold byte. rewrite !Z.mod_small by lia.
  set (payload := bytes (Sender msg) ++ bytes (Receiver msg) ++ bytes (Data msg)).
  change (take 6 (?h ++ payload)) with h. change (drop 6 (?h ++ payload)) with payload.
  assert (Hlen : Z.of_nat (length payload)
                 = len (Sender msg) + len (Receiver msg) + len (Data msg)).
  { subst payload. rewrite !length_app, !Nat2Z.inj_add, !length_bytes. lia. }
  unfold Receive. cbn [rd_fail rd_data].
  change (buf_after HeaderSize _) with
    [0; 255; Command msg; len (Sender msg); len (Receiver msg); len (Data msg)].
  change (count HeaderSize _) with 6. cbn [take nth].
  change (negb (6 =? HeaderSize)) with false.
  change (negb (bool_decide ([0; 255] = MessageStartBytes))) with false. cbv iota.
  unfold byte. rewrite !Z.mod_small by lia. rewrite <- Hlen, buf_after_exact.
  unfold count. cbn [rd_data]. rewrite Z.min_id, Z.eqb_refl. cbn [negb].
  subst payload.
  rewrite slice_app by (rewrite length_bytes; reflexivity).
  rewrite slice_mid
    by (rewrite ?Nat2Z.inj_add, !length_bytes; reflexivity).
  rewrite app_assoc, slice_end
    by (rewrite length_app, Nat2Z.inj_add, !length_bytes; reflexivity).
  rewrite !string_bytes. destruct msg; reflexivity.
Qed.

Lemma buf_after_length (size : Z) (r : read) :
  length (buf_after size r) = Z.to_nat size.
Proof.
  unfold buf_after. rewrite length_take, length_app, length_replicate. lia.
Qed.

(** X17. [Send] accepts messages that [Receive] cannot read. The
    limits of [Send] let the three lengths sum to more than 255, and
    [Receive] adds them in [uint8]. After the header of such a message
    no second read makes [Receive] return a message: it returns an
    error or panics, and it panics on the slicing whenever the read
    fills the buffer. *)
Theorem Receive_overflow (write : list Z -> write_result) (msg : Message) (data : list Z)
        (r2 : read) :
  Send write msg = (Some data, None) ->
  255 < len (Sender msg) + len (Receiver msg) + len (Data msg) ->
  (forall m, Receive {| rd_data := take 6 data; rd_fail := None |} r2 <> Got m)
  /\ (rd_fail r2 = None ->
      len (Sender msg) + len (Receiver msg) + len (Data msg) - 256
      <= Z.of_nat (length (rd_data r2)) ->
      Receive {| rd_data := take 6 data; rd_fail := None |} r2 = Panic).
Proof.
  intros Hs Hsum.
  destruct (Send_accepts write msg data Hs) as (H1 & H2 & H3 & ->).
  pose proof (len_nonneg (Sender msg)). pose proof (len_nonneg (Receiver msg)).
  pose proof (len_nonneg (Data msg)).
  rewrite frame_split.
  set (payload := bytes (Sender msg) ++ bytes (Receiver msg) ++ bytes (Data msg)).
  change (take 6 (?h ++ payload)) with h.
  unfold Receive. cbn [rd_fail rd_data].
  change (buf_after HeaderSize _) with
    [0; 255; byte (Command msg); byte (len (Sender msg)); byte (len (Receiver msg));
     byte (len (Data msg))].
  change (count HeaderSize _) with 6. cbn [take nth].
  change (negb (6 =? HeaderSize)) with false.
  change (negb (bool_decide ([0; 255] = MessageStartBytes))) with false. cbv iota.
  assert (Eb : forall n, 0 <= n < 256 -> byte n = n)
    by (intros n Hn; apply Z.mod_small; exact Hn).
  rewrite !(Eb (len (Sender msg))), !(Eb (len (Receiver msg))), !(Eb (len (Data msg))) by lia.
  rewrite !(Eb (len (Sender msg) + len (Receiver msg))) by lia.
  set (sum := len (Sender msg) + len (Receiver msg) + len (Data msg)) in *.
  assert (Et : byte sum = sum - 256).
  { unfold byte. rewrite <- (Z.mod_small (sum - 256) 256) by lia.
    replace sum with (sum - 256 + 1 * 256) at 1 by lia. apply Z.mod_add. lia. }
  rewrite Et, buf_after_length.
  assert (Hpanic : forall s r,
             match slice (buf_after (sum - 256) r2)
                         (len (Sender msg) + len (Receiver msg))
                         (Z.of_nat (Z.to_nat (sum - 256))) with
             | Some d => Got {| Command := byte (Command msg); Sender := string_ s;
                                Receiver := string_ r; Data := string_ d |}
             | None => Panic
             end = Panic).
  { intros s r. unfold slice.
    replace (_ && _ && _) with false; [reflexivity |].
    symmetry. rewrite !andb_false_iff, !Z.leb_gt. subst sum. lia. }
  split.
  - intros m. destruct (rd_fail r2); [discriminate |].
    destruct (negb _); [discriminate |].
    destruct (slice _ 0 _); [| discriminate].
    destruct (slice _ (len (Sender msg)) _); [| discriminate].
    rewrite Hpanic. discriminate.
  - intros -> Hlen. unfold count.
    rewrite Z.min_l, Z.eqb_refl by lia. cbn [negb].
    destruct (slice _ 0 _); [| reflexivity].
    destruct (slice _ (len (Sender msg)) _); [| reflexivity].
    apply Hpanic.
Qed.

Lemma buf_after_full (size : Z) (r : read) :
  0 <= size ->
  count size r = size ->
  buf_after size r = take (Z.to_nat size) (rd_data r).
Proof.
  unfold count, buf_after. intros H0 Hc.
  apply take_app_le. lia.
Qed.

Lemma slice_Some (b : list Z) (lo hi : Z) (l : list Z) :
  slice b lo hi = Some l ->
  0 <= lo <= hi /\ hi <= Z.of_nat (length b)
  /\ l = take (Z.to_nat (hi - lo)) (drop (Z.to_nat lo) b).
Proof.
  unfold slice. destruct (_ && _ && _) eqn:E; [| discriminate].
  rewrite !andb_true_iff, !Z.leb_le in E. intros [= <-]. repeat split; lia.
Qed.

(** X18. A message that [Receive] returned is the message of the
    bytes that were read: its frame is the six header bytes followed
    by as many bytes of the second read as its three lengths sum to,
    and that sum is at most 255. *)
Theorem Receive_frame (r1 r2 : read) (m : Message) :
  Forall (fun z => 0 <= z < 256) (rd_data r1) ->
  Forall (fun z => 0 <= z < 256) (rd_data r2) ->
  Receive r1 r2 = Got m ->
  len (Sender m) + len (Receiver m) + len (Data m) <= 255
  /\ frame m
     = take 6 (rd_data r1)
       ++ take (Z.to_nat (len (Sender m) + len (Receiver m) + len (Data m))) (rd_data r2).
Proof.
  intros Hb1 Hb2. unfold Receive.
  destruct (rd_fail r1); [discriminate |].
  destruct (count HeaderSize r1 =? HeaderSize) eqn:Ec; [| discriminate]. cbn [negb].
  apply Z.eqb_eq in Ec.
  rewrite (buf_after_full HeaderSize r1) by (unfold HeaderSize in *; lia || exact Ec).
  destruct (bool_decide _) eqn:Eh; [| discriminate]. cbn [negb].
  apply bool_decide_eq_true in Eh.
  unfold count, HeaderSize in Ec.
  destruct (rd_data r1) as [| h0 [| h1 [| c [| s [| r [| d rest]]]]]]; cbn [length] in Ec; try lia.
  change (take (Z.to_nat HeaderSize) _) with [h0; h1; c; s; r; d] in *.
  cbn [take nth] in *. injection Eh as -> ->.
  repeat match goal with H : Forall _ (_ :: _) |- _ => inversion_clear H end.
  set (total := byte (s + r + d)).
  assert (Ht : 0 <= total < 256) by (apply Z.mod_pos_bound; lia).
  destruct (rd_fail r2); [discriminate |].
  destruct (count total r2 =? total) eqn:Ec2; [| discriminate]. cbn [negb].
  apply Z.eqb_eq in Ec2.
  rewrite (buf_after_full total r2) by lia.
  unfold count in Ec2.
  set (db := take (Z.to_nat total) (rd_data r2)).
  assert (Hdb : Z.of_nat (length db) = total) by (subst db; rewrite length_take; lia).
  destruct (slice db 0 s) as [bs |] eqn:E1; [| discriminate].
  destruct (slice db s (byte (s + r))) as [br |] eqn:E2; [| discriminate].
  destruct (slice db (byte (s + r)) _) as [bd |] eqn:E3; [| discriminate].
  intros [= <-]. cbn [Command Sender Receiver Data].
  apply slice_Some in E1 as (_ & Hs & ->).
  apply slice_Some in E2 as (Hr & _ & ->).
  apply slice_Some in E3 as (Hd & _ & ->).
  assert (Hsr : byte (s + r) = s + r).
  { destruct (Z_lt_ge_dec (s + r) 256) as [Hlt | Hge]; [apply Z.mod_small; lia |].
    exfalso. assert (byte (s + r) = s + r - 256); [| lia].
    unfold byte. rewrite <- (Z.mod_small (s + r - 256) 256) by lia.
    replace (s + r) with (s + r - 256 + 1 * 256) at 1 by lia. apply Z.mod_add. lia. }
  rewrite Hsr in *. rewrite Hdb in *.
  assert (Hsum : total = s + r + d).
  { destruct (Z_lt_ge_dec (s + r + d) 256) as [Hlt | Hge]; [apply Z.mod_small; lia |].
    exfalso. assert (total = s + r + d - 256); [| lia].
    unfold total, byte. rewrite <- (Z.mod_small (s + r + d - 256) 256) by lia.
    replace (s + r + d) with (s + r + d - 256 + 1 * 256) at 1 by lia. apply Z.mod_add. lia. }
  assert (Hbdb : Forall (fun z => 0 <= z < 256) db) by (apply Forall_take; exact Hb2).
  replace (Z.to_nat (s - 0)) with (Z.to_nat s) by lia.
  replace (Z.to_nat (s + r - s)) with (Z.to_nat r) by lia.
  change (Z.to_nat 0) with 0%nat. rewrite drop_0.
  replace (take (Z.to_nat (total - (s + r))) (drop (Z.to_nat (s + r)) db))
    with (drop (Z.to_nat (s + r)) db) by (symmetry; apply take_ge; rewrite length_drop; lia).
  set (bs := take (Z.to_nat s) db).
  set (br := take (Z.to_nat r) (drop (Z.to_nat s) db)).
  set (bd := drop (Z.to_nat (s + r)) db).
  assert (Hls : Z.of_nat (length bs) = s) by (subst bs; rewrite length_take; lia).
  assert (Hlr : Z.of_nat (length br) = r)
    by (subst br; rewrite length_take, length_drop; lia).
  assert (Hld : Z.of_nat (length bd) = d) by (subst bd; rewrite length_drop; lia).
  assert (Hcat : db = bs ++ br ++ bd).
  { subst bs br bd. rewrite <- (take_drop (Z.to_nat s) db) at 1. f_equal.
    rewrite <- (take_drop (Z.to_nat r) (drop (Z.to_nat s) db)) at 1. f_equal.
    rewrite drop_drop. f_equal. lia. }
  rewrite !len_string, Hls, Hlr, Hld. split; [lia |].
  rewrite frame_split. cbn [Command Sender Receiver Data].
  rewrite !len_string, Hls, Hlr, Hld.
  assert (Hfs : Forall (fun z => 0 <= z < 256) bs) by (apply Forall_take; exact Hbdb).
  assert (Hfr : Forall (fun z => 0 <= z < 256) br)
    by (apply Forall_take, Forall_drop; exact Hbdb).
  assert (Hfd : Forall (fun z => 0 <= z < 256) bd) by (apply Forall_drop; exact Hbdb).
  rewrite !bytes_string by assumption.
  unfold byte. rewrite !Z.mod_small by lia.
  rewrite <- Hcat, <- Hsum. reflexivity.
Qed.

End WireFacts.

Lemma Receive_Send_witness :
  SocketChat.Receive
    {| SocketChat.rd_data := take 6 (SocketChat.frame example_hello);
       SocketChat.rd_fail := None |}
    {| SocketChat.rd_data := drop 6 (SocketChat.frame example_hello);
       SocketChat.rd_fail := None |}
  = SocketChat.Got example_hello.
Proof.
  apply (Receive_Send (example_Write 0) example_hello (SocketChat.frame example_hello)).
  - cbn. unfold SocketChat.CommandMessage. lia.
  - reflexivity.
  - vm_compute. discriminate.
Defined.

Lemma Receive_overflow_witness :
  SocketChat.Receive
    {| SocketChat.rd_data := take 6 (SocketChat.frame example_big);
       SocketChat.rd_fail := None |}
    {| SocketChat.rd_data := [97; 110; 110; 98; 111]; SocketChat.rd_fail := None |}
  = SocketChat.Panic.
Proof.
  apply (Receive_overflow (example_Write 0) example_big (SocketChat.frame example_big)).
  - reflexivity.
  - vm_compute. reflexivity.
  - reflexivity.
  - vm_compute. discriminate.
Defined.

Lemma Receive_frame_witness :
  SocketChat.frame (example_command 5 "hi" "")
  = [0; 255; 5; 2; 0; 0; 104; 105].
Proof.
  apply (Receive_frame {| SocketChat.rd_data := [0; 255; 5; 2; 0; 0];
                          SocketChat.rd_fail := None |}
                       {| SocketChat.rd_data := [104; 105; 33];
                          SocketChat.rd_fail := None |}
                       (example_command 5 "hi" "")).
  - repeat constructor; lia.
  - repeat constructor; lia.
  - reflexivity.
Defined.

(** ** The server *)

Section ServerFacts.

Import SocketChat ChatServer.

Variable Write : nat -> list Z -> write_result.
Variable Error : srv_error -> string.
Variable range : gmap string bool -> list string.

Lemma Send_oversize (write : list Z -> write_result) (msg : Message) :
  oversize msg -> (Send write msg).1 = None.
Proof.
  unfold oversize, Send, MaxNameByteSize, MaxDataByteSize. intros H.
  destruct (32 <? len (Sender msg)) eqn:E1; [reflexivity |].
  destruct (32 <? len (Receiver msg)) eqn:E2; [reflexivity |].
  destruct (255 <? len (Data msg)) eqn:E3; [reflexivity |].
  apply Z.ltb_ge in E1, E2, E3. lia.
Qed.

Lemma GetConnection_run (connID : string) (s : Server) :
  connsMux s = false ->
  GetConnection connID s = Done (conns s !! connID) s.
Proof.
  intros Hm. unfold GetConnection, connsMux_Lock, connsMux_Unlock, deferred, then_, read_, unit_.
  rewrite Hm. cbn. destruct s; cbn in *; subst; reflexivity.
Qed.

Lemma SetConnection_run (connID : string) (c : conn) (s : Server) :
  connsMux s = false ->
  SetConnection connID c s = Done tt (set_conns (<[connID := c]> (conns s)) s).
Proof.
  intros Hm. unfold SetConnection, connsMux_Lock, connsMux_Unlock, deferred, then_, update, unit_.
  rewrite Hm. cbn. destruct s; cbn in *; subst; reflexivity.
Qed.

Lemma DeleteConnection_run (connID : string) (s : Server) :
  connsMux s = false ->
  DeleteConnection connID s = Done tt (set_conns (delete connID (conns s)) s).
Proof.
  intros Hm. unfold DeleteConnection, connsMux_Lock, connsMux_Unlock, deferred, then_, update, unit_.
  rewrite Hm. cbn. destruct s; cbn in *; subst; reflexivity.
Qed.

(** [Send] hands to [Write] nothing but the frame of the message. *)
Lemma Send_data (write : list Z -> write_result) (msg : Message) (d : list Z)
      (err : option SocketChat.error) :
  Send write msg = (Some d, err) -> d = frame msg.
Proof.
  unfold Send.
  destruct (_ <? len (Sender msg)); [discriminate |].
  destruct (_ <? len (Receiver msg)); [discriminate |].
  destruct (_ <? len (Data msg)); [discriminate |].
  destruct (wr_err _); [intros [= <- _]; reflexivity |].
  destruct (negb _); intros [= <- _]; reflexivity.
Qed.

(** A [Send] on a connection returns; it writes at most once, the
    frame of the message, and touches nothing else. *)
Lemma conn_Send_run (c : conn) (msg : Message) (s : Server) :
  exists err s',
    conn_Send Write c msg s = Done err s'
    /\ same_tables s s' /\ log s' = log s
    /\ (sent s' = sent s \/ sent s' = sent s ++ [(c, frame msg)])
    /\ (err = None -> sent s' = sent s ++ [(c, frame msg)])
    /\ err = (Send (Write (length (sent s))) msg).2
    /\ (oversize msg -> sent s' = sent s).
Proof.
  unfold conn_Send, same_tables.
  pose proof (Send_oversize (Write (length (sent s))) msg) as Hov.
  destruct (Send (Write (length (sent s))) msg) as [[d |] err] eqn:E.
  - apply Send_data in E as E'. subst d.
    eexists _, _. split; [reflexivity |]. cbn. repeat split; auto.
    intros H. specialize (Hov H). discriminate.
  - eexists _, _. split; [reflexivity |]. repeat split; auto.
    intros ->. exfalso. revert E. unfold Send.
    destruct (_ <? len (Sender msg)); [discriminate |].
    destruct (_ <? len (Receiver msg)); [discriminate |].
    destruct (_ <? len (Data msg)); [discriminate |].
    destruct (wr_err _); [discriminate |]. destruct (negb _); discriminate.
Qed.

(** A call of [sendToClient] for a member, made while [groupsMux] is
    held: it sends when the member has a connection and waits for
    [groupsMux] forever when not. *)
Lemma sendToClient_member (fuel : nat) (msg : Message) (member : string) (s : Server) :
  connsMux s = false ->
  groupsMux s = true ->
  sendToClient Write range (S fuel) msg (Some member) s
  = match conns s !! member with
    | Some c =>
      match conn_Send Write c msg s with
      | Done (Some e) s' => Done (Some (ErrForwarding e)) s'
      | Done None s' => Done None s'
      | Crashed f => Crashed f
      | Stuck => Stuck
      | Spent => Spent
      end
    | None => Stuck
    end.
Proof.
  intros Hc Hg. cbn [sendToClient]. unfold then_ at 1.
  rewrite GetConnection_run by exact Hc.
  destruct (conns s !! member) as [c |].
  - unfold then_. destruct (conn_Send Write c msg s) as [[e |] s' | | |]; reflexivity.
  - unfold then_, groupsMux_Lock. rewrite Hg. reflexivity.
Qed.

(** The loop of [sendToClient] over the members, [groupsMux] held. *)
Lemma each_member (fuel : nat) (msg : Message) (l : list string) :
  forall s : Server,
    connsMux s = false ->
    groupsMux s = true ->
    match each (fun member => sendToClient Write range (S fuel) msg (Some member)) l s with
    | Done err s' =>
      same_tables s s' /\ log s' = log s
      /\ (exists k, sent s' = sent s ++ k
                    /\ Forall (fun e => e.2 = frame msg
                                        /\ exists m, m ∈ l /\ conns s !! m = Some e.1) k)
      /\ (err = None ->
          exists cs, Forall2 (fun m c => conns s !! m = Some c) l cs
                     /\ sent s' = sent s ++ ((fun c => (c, frame msg)) <$> cs))
      /\ (forall e, err = Some e ->
                    exists e' n, e = ErrForwarding e' /\ (Send (Write n) msg).2 = Some e')
      /\ (oversize msg -> sent s' = sent s)
    | Stuck => exists m, m ∈ l /\ conns s !! m = None
    | Crashed _ => False
    | Spent => False
    end.
Proof.
  induction l as [| m rest IH]; intros s Hc Hg.
  - cbn. unfold same_tables. repeat split; auto; try discriminate.
    + exists []. rewrite app_nil_r. auto.
    + intros _. exists []. rewrite app_nil_r. auto.
  - cbn [each]. unfold then_ at 1. rewrite sendToClient_member by assumption.
    destruct (conns s !! m) as [c |] eqn:Em.
    + destruct (conn_Send_run c msg s) as (err & s1 & -> & Hst & Hl & Hs & Hok & He & Hov).
      destruct Hst as (Hc1 & Hg1 & Hcm1 & Hgm1 & Hcl1).
      destruct err as [e |].
      * unfold unit_.
        split; [unfold same_tables; repeat split; congruence |].
        split; [congruence |]. split; [| split; [discriminate | split; [| exact Hov]]].
        -- destruct Hs as [-> | ->].
           ++ exists []. rewrite app_nil_r. auto.
           ++ eexists. split; [reflexivity |]. repeat constructor. cbn.
              exists m. split; [left | exact Em].
        -- intros e0 [= <-]. eauto.
      * specialize (Hok eq_refl).
        specialize (IH s1 ltac:(congruence) ltac:(congruence)).
        destruct (each _ rest s1) as [err s2 | | |]; try contradiction.
        -- destruct IH as (Hst2 & Hl2 & (k & Hk & Hfk) & Hok2 & He2 & Hov2).
           destruct Hst2 as (Hc2 & Hg2 & Hcm2 & Hgm2 & Hcl2).
           split; [unfold same_tables; repeat split; congruence |].
           split; [congruence |].
           split; [| split; [| split; [exact He2 | intros Ho; rewrite Hov2, Hov; auto]]].
           ++ exists ((c, frame msg) :: k). split.
              ** rewrite Hk, Hok, <- app_assoc. reflexivity.
              ** constructor.
                 --- cbn. split; [reflexivity |]. exists m. split; [left | exact Em].
                 --- eapply Forall_impl; [exact Hfk |]. cbn.
                     intros e (Hfe & m' & Hin & Hm'). split; [exact Hfe |].
                     exists m'. split; [right; exact Hin | congruence].
           ++ intros Hn. destruct (Hok2 Hn) as (cs & Hcs & Hse).
              exists (c :: cs). split.
              ** constructor; [exact Em |].
                 eapply Forall2_impl; [exact Hcs |]. cbn. intros; congruence.
              ** rewrite Hse, Hok, <- app_assoc. reflexivity.
        -- destruct IH as (m' & Hin & Hm'). exists m'. split; [right; exact Hin | congruence].
    + exists m. split; [left | exact Em].
Qed.

(** [sendToClient] from a state where both mutexes are free. *)
Lemma sendToClient_run (fuel : nat) (msg : Message) (overrideReceiver : option string)
      (s : Server) :
  connsMux s = false ->
  groupsMux s = false ->
  let receiver := default (Receiver msg) overrideReceiver in
  match sendToClient Write range (S (S fuel)) msg overrideReceiver s with
  | Done err s' =>
    same_tables s s' /\ log s' = log s
    /\ (oversize msg -> sent s' = sent s)
    /\ match conns s !! receiver with
       | Some c =>
         (sent s' = sent s \/ sent s' = sent s ++ [(c, frame msg)])
         /\ (err = None -> sent s' = sent s ++ [(c, frame msg)])
         /\ (forall e, err = Some e ->
                       exists e' n, e = ErrForwarding e' /\ (Send (Write n) msg).2 = Some e')
       | None =>
         match groups s !! receiver with
         | None => err = Some (ErrClientNotFound receiver) /\ sent s' = sent s
         | Some members =>
           (exists k, sent s' = sent s ++ k
                      /\ Forall (fun e => e.2 = frame msg
                                          /\ exists m, m ∈ range members
                                                       /\ conns s !! m = Some e.1) k)
           /\ (err = None ->
               exists cs, Forall2 (fun m c => conns s !! m = Some c) (range members) cs
                          /\ sent s' = sent s ++ ((fun c => (c, frame msg)) <$> cs))
           /\ (forall e, err = Some e ->
                         exists e' n, e = ErrForwarding e'
                                      /\ (Send (Write n) msg).2 = Some e')
         end
       end
  | Stuck =>
    conns s !! receiver = None
    /\ exists members m, groups s !! receiver = Some members
                         /\ m ∈ range members /\ conns s !! m = None
  | Crashed _ => False
  | Spent => False
  end.
Proof.
  intros Hc Hg receiver.
  assert (Er : match overrideReceiver with Some r => r | None => Receiver msg end = receiver)
    by (destruct overrideReceiver; reflexivity).
  cbn [sendToClient]. rewrite Er. unfold then_ at 1.
  rewrite GetConnection_run by exact Hc.
  destruct (conns s !! receiver) as [c |] eqn:Ec.
  - unfold then_.
    destruct (conn_Send_run c msg s) as (err & s1 & -> & Hst & Hl & Hs & Hok & He & Hov).
    destruct err as [e |]; unfold unit_.
    + repeat split; try assumption; try discriminate; try apply Hst.
      intros e0 [= <-]. eauto.
    + repeat split; try assumption; try apply Hst; auto. discriminate.
  - unfold then_ at 1. unfold groupsMux_Lock. rewrite Hg.
    unfold deferred, then_ at 1. unfold then_ at 1. unfold read_ at 1.
    cbn [groups set_groupsMux].
    destruct (groups s !! receiver) as [members |] eqn:Eg.
    + pose proof (each_member fuel msg (range members) (set_groupsMux true s) Hc eq_refl)
        as Hloop.
      change (fix sendToClient (fuel : nat) (msg : Message) (overrideReceiver : option string)
                {struct fuel} : Act (option srv_error) := _)
        with (sendToClient Write range).
      destruct (each _ (range members) (set_groupsMux true s)) as [err s1 | | |];
        try contradiction.
      * destruct Hloop as (Hst & Hl & Hk & Hok & He & Hov).
        destruct Hst as (Hc1 & Hg1 & Hcm1 & Hgm1 & Hcl1).
        cbn in Hc1, Hg1, Hcm1, Hgm1, Hcl1, Hl, Hk, Hok, Hov.
        unfold then_, groupsMux_Unlock. rewrite Hgm1. unfold unit_.
        unfold same_tables. cbn. repeat split; try congruence; assumption.
      * destruct Hloop as (m & Hin & Hm). split; [reflexivity |]. exists members, m. auto.
    + unfold unit_, then_, groupsMux_Unlock. cbn.
      unfold same_tables. cbn. repeat split; congruence.
Qed.

Lemma range_elem (members : gmap string bool) (m : string) :
  range members ≡ₚ (map_to_list members).*1 ->
  is_Some (members !! m) ->
  m ∈ range members.
Proof.
  intros Hperm [b Hb]. rewrite Hperm. apply list_elem_of_fmap.
  exists (m, b). split; [reflexivity |]. apply elem_of_map_to_list. exact Hb.
Qed.

(** X19. From a state where both mutexes are free [sendToClient]
    never runs deeper than two calls and never crashes: it waits for a
    mutex forever, or it returns, and then the tables, the mutexes and
    the log are as before and all it wrote are frames of the
    message. *)
Theorem sendToClient_returns_or_waits (fuel : nat) (msg : Message)
        (overrideReceiver : option string) (s : Server) :
  (2 <= fuel)%nat ->
  connsMux s = false ->
  groupsMux s = false ->
  sendToClient Write range fuel msg overrideReceiver s = Stuck
  \/ exists err s',
      sendToClient Write range fuel msg overrideReceiver s = Done err s'
      /\ same_tables s s' /\ log s' = log s
      /\ exists k, sent s' = sent s ++ k /\ Forall (fun e => e.2 = frame msg) k.
Proof.
  intros Hf Hc Hg. destruct fuel as [| [| fuel]]; try lia.
  pose proof (sendToClient_run fuel msg overrideReceiver s Hc Hg) as H. cbv zeta in H.
  destruct (sendToClient Write range (S (S fuel)) msg overrideReceiver s) as [err s' | | |];
    try contradiction; [right | left; reflexivity].
  destruct H as (Hst & Hl & _ & H). exists err, s'.
  split; [reflexivity |]. split; [exact Hst |]. split; [exact Hl |].
  destruct (conns s !! default (Receiver msg) overrideReceiver) as [c |].
  - destruct H as ([-> | ->] & _).
    + exists []. rewrite app_nil_r. auto.
    + eexists. split; [reflexivity |]. repeat constructor.
  - destruct (groups s !! default (Receiver msg) overrideReceiver) as [members |].
    + destruct H as ((k & Hk & Hf') & _). exists k. split; [exact Hk |].
      eapply Forall_impl; [exact Hf' |]. cbn. tauto.
    + destruct H as (_ & ->). exists []. rewrite app_nil_r. auto.
Qed.

(** X20. A message for a group, when no client has the name of the
    group, every member has a connection and every [Send] works: the
    frame of the message is written once to the connection of each
    member, in the order in which [range] visits the members, and
    [sendToClient] returns nil with both mutexes free. *)
Theorem sendToClient_group (fuel : nat) (msg : Message) (members : gmap string bool)
        (s : Server) :
  (2 <= fuel)%nat ->
  connsMux s = false ->
  groupsMux s = false ->
  conns s !! Receiver msg = None ->
  groups s !! Receiver msg = Some members ->
  (forall m, m ∈ range members -> is_Some (conns s !! m)) ->
  Send_works Write msg ->
  exists s' cs,
    sendToClient Write range fuel msg None s = Done None s'
    /\ Forall2 (fun m c => conns s !! m = Some c) (range members) cs
    /\ sent s' = sent s ++ ((fun c => (c, frame msg)) <$> cs)
    /\ same_tables s s' /\ log s' = log s.
Proof.
  intros Hf Hc Hg Hnc Hgr Hall Hw. destruct fuel as [| [| fuel]]; try lia.
  pose proof (sendToClient_run fuel msg None s Hc Hg) as H. cbv zeta in H.
  cbn [default] in H. rewrite Hnc, Hgr in H.
  destruct (sendToClient Write range (S (S fuel)) msg None s) as [err s' | | |];
    try contradiction.
  - destruct H as (Hst & Hl & _ & _ & Hok & He).
    destruct err as [e |].
    + destruct (He e eq_refl) as (e' & n & _ & Hn). rewrite Hw in Hn. discriminate.
    + destruct (Hok eq_refl) as (cs & Hcs & Hs). exists s', cs. auto.
  - destruct H as (_ & members' & m & [= <-] & Hin & Hm).
    destruct (Hall m Hin) as [c Hc']. congruence.
Qed.

(** A message for a group one of whose members has no connection is
    never delivered to all: the call waits for [groupsMux], which it
    holds itself, unless a [Send] fails before. *)
Lemma sendToClient_blocked (fuel : nat) (msg : Message) (members : gmap string bool)
      (m : string) (s : Server) :
  connsMux s = false ->
  groupsMux s = false ->
  conns s !! Receiver msg = None ->
  groups s !! Receiver msg = Some members ->
  m ∈ range members ->
  conns s !! m = None ->
  (forall s', sendToClient Write range (S (S fuel)) msg None s <> Done None s')
  /\ (Send_works Write msg -> sendToClient Write range (S (S fuel)) msg None s = Stuck).
Proof.
  intros Hc Hg Hnc Hgr Hin Hcm.
  pose proof (sendToClient_run fuel msg None s Hc Hg) as H. cbv zeta in H.
  cbn [default] in H. rewrite Hnc, Hgr in H.
  destruct (sendToClient Write range (S (S fuel)) msg None s) as [err s' | | |];
    try contradiction.
  - destruct H as (Hst & Hl & _ & _ & Hok & He). split.
    + intros s'' [= -> _]. destruct (Hok eq_refl) as (cs & Hcs & _).
      apply list_elem_of_lookup in Hin as [i Hi].
      destruct (Forall2_lookup_l _ _ _ _ _ Hcs Hi) as (c & _ & Hc'). congruence.
    + intros Hw. destruct err as [e |].
      * destruct (He e eq_refl) as (e' & n & _ & Hn). rewrite Hw in Hn. discriminate.
      * destruct (Hok eq_refl) as (cs & Hcs & _).
        apply list_elem_of_lookup in Hin as [i Hi].
        destruct (Forall2_lookup_l _ _ _ _ _ Hcs Hi) as (c & _ & Hc'). congruence.
  - split; [discriminate | reflexivity].
Qed.

Lemma sendToClient_eq (fuel : nat) (msg : Message) (overrideReceiver : option string) :
  sendToClient Write range (S fuel) msg overrideReceiver
  = let receiver := default (Receiver msg) overrideReceiver in
    then_ (GetConnection receiver)
      (fun rc =>
         match rc with
         | Some receiverc =>
           then_ (conn_Send Write receiverc msg)
             (fun err => match err with
                         | Some e => unit_ (Some (ErrForwarding e))
                         | None => unit_ None
                         end)
         | None =>
           then_ groupsMux_Lock
             (fun _ =>
                deferred groupsMux_Unlock
                  (then_ (read_ (fun s => groups s !! receiver))
                     (fun g =>
                        match g with
                        | None => unit_ (Some (ErrClientNotFound receiver))
                        | Some members =>
                          each (fun member => sendToClient Write range fuel msg (Some member))
                               (range members)
                        end)))
         end).
Proof. destruct overrideReceiver; reflexivity. Qed.

(** When the member that [range] visits first has no connection,
    nothing is sent at all. *)
Lemma sendToClient_first_unconnected (fuel : nat) (msg : Message)
      (members : gmap string bool) (m : string) (rest : list string) (s : Server) :
  connsMux s = false ->
  groupsMux s = false ->
  conns s !! Receiver msg = None ->
  groups s !! Receiver msg = Some members ->
  range members = m :: rest ->
  conns s !! m = None ->
  sendToClient Write range (S (S fuel)) msg None s = Stuck.
Proof.
  intros Hc Hg Hnc Hgr Hr Hm.
  rewrite sendToClient_eq. cbn [default]. cbv zeta.
  unfold then_ at 1. rewrite GetConnection_run by exact Hc.
  rewrite Hnc. unfold then_ at 1. unfold groupsMux_Lock. rewrite Hg.
  unfold deferred, then_ at 1. unfold then_ at 1. unfold read_ at 1.
  cbn [groups set_groupsMux]. rewrite Hgr, Hr. cbn [each]. unfold then_ at 1.
  rewrite sendToClient_member by (exact Hc || reflexivity).
  cbn [conns set_groupsMux]. rewrite Hm. reflexivity.
Qed.

(** X21. A message for a group one of whose members has no
    connection is never delivered to all of the group: [sendToClient]
    does not return nil, and when every [Send] works it does not return
    at all, since the call for that member waits for [groupsMux], which
    the caller holds. *)
Theorem sendToClient_deadlock (fuel : nat) (msg : Message) (members : gmap string bool)
        (m : string) (s : Server) :
  (2 <= fuel)%nat ->
  connsMux s = false ->
  groupsMux s = false ->
  range members ≡ₚ (map_to_list members).*1 ->
  conns s !! Receiver msg = None ->
  groups s !! Receiver msg = Some members ->
  is_Some (members !! m) ->
  conns s !! m = None ->
  (forall s', sendToClient Write range fuel msg None s <> Done None s')
  /\ (Send_works Write msg -> sendToClient Write range fuel msg None s = Stuck).
Proof.
  intros Hf Hc Hg Hperm Hnc Hgr Hm Hcm. destruct fuel as [| [| fuel]]; try lia.
  apply (sendToClient_blocked fuel msg members m s); try assumption.
  apply range_elem; assumption.
Qed.


Ltac run_a :=
  unfold logPrint, Close, deferred;
  unfold then_, unit_, read_, update,
    groupsMux_Lock, groupsMux_Unlock, connsMux_Lock, connsMux_Unlock;
  cbn [conns groups connsMux groupsMux log sent closed
       set_conns set_groups set_connsMux set_groupsMux add_log add_sent add_closed].

Tactic Notation "run_a" "in" hyp(H) :=
  unfold logPrint, Close, deferred in H;
  unfold then_, unit_, read_, update,
    groupsMux_Lock, groupsMux_Unlock, connsMux_Lock, connsMux_Unlock in H;
  cbn [conns groups connsMux groupsMux log sent closed
       set_conns set_groups set_connsMux set_groupsMux add_log add_sent add_closed] in H.

(** [returnErrorToClient] returns; it writes at most once, to the
    connection it was given. *)
Lemma returnErrorToClient_run (c : conn) (err : srv_error) (s : Server) :
  exists s',
    returnErrorToClient Write Error c err s = Done tt s'
    /\ same_tables s s'
    /\ (sent s' = sent s
        \/ sent s' = sent s ++ [(c, frame {| Command := CommandError; Sender := "server";
                                             Receiver := ""; Data := Error err |})]).
Proof.
  unfold returnErrorToClient, then_.
  destruct (conn_Send_run c {| Command := CommandError; Sender := "server";
                               Receiver := ""; Data := Error err |} s)
    as (e & s1 & -> & Hst & Hl & Hs & _).
  destruct e as [e |].
  - eexists. split; [reflexivity |]. split; [exact Hst | exact Hs].
  - eexists. split; [reflexivity |]. split; [exact Hst | exact Hs].
Qed.

(** The end of the three group commands: the notification and the
    line in the log. *)
Lemma notify_tail (fuel : nat) (g text : string) (s : Server) :
  connsMux s = false ->
  groupsMux s = false ->
  match then_ (notifyClients Write range (S (S fuel)) g text)
              (fun _ => then_ (logPrint (LogPrint text)) (fun _ => unit_ Continue)) s with
  | Done k s' => k = Continue /\ same_tables s s'
  | Stuck =>
    conns s !! g = None
    /\ exists members m, groups s !! g = Some members
                         /\ m ∈ range members /\ conns s !! m = None
  | Crashed _ => False
  | Spent => False
  end.
Proof.
  intros Hc Hg. unfold notifyClients.
  pose proof (sendToClient_run fuel {| Command := CommandMessage; Sender := "server";
                                       Receiver := g; Data := text |} None s Hc Hg) as H.
  cbv zeta in H. cbn [default Receiver] in H.
  unfold then_ at 1.
  destruct (sendToClient _ _ _ _ _ s) as [err s' | | |]; try contradiction.
  - run_a. destruct H as (Hst & _). split; [reflexivity |].
    unfold same_tables in *. cbn. exact Hst.
  - exact H.
Qed.

(** A round of [handleConn] on a message, from a state where both
    mutexes are free: it is stuck or done, and then both mutexes are
    free again and no connection was closed; it ends the loop on
    [CommandLeave] only, which removes the registered name and nothing
    else; and the groups are as before but for the members of the
    group that the message names, where at most the sender of the
    message came or went. *)
Lemma handle_message_run (fuel : nat) (c : conn) (name : string) (msg : Message)
      (s : Server) :
  connsMux s = false ->
  groupsMux s = false ->
  match handle_message Write Error range (S (S fuel)) c name msg s with
  | Done k s' =>
    connsMux s' = false /\ groupsMux s' = false /\ closed s' = closed s
    /\ (groups s' = groups s
        \/ exists members',
            groups s' = <[Data msg := members']> (groups s)
            /\ forall m, m <> Sender msg ->
                         members' !! m = groups s !! Data msg ≫= (fun g => g !! m))
    /\ ((k = Continue /\ Command msg <> CommandLeave /\ conns s' = conns s)
        \/ (k = Return /\ Command msg = CommandLeave
            /\ conns s' = delete name (conns s) /\ groups s' = groups s
            /\ sent s' = sent s))
  | Stuck => Command msg <> CommandLeave
  | Crashed _ => False
  | Spent => False
  end.
Proof.
  intros Hc Hg. unfold handle_message.
  unfold then_ at 1. unfold logPrint at 1, update at 1.
  set (s0 := add_log (LogMessageReceived msg) s).
  assert (Hc0 : connsMux s0 = false) by exact Hc.
  assert (Hg0 : groupsMux s0 = false) by exact Hg.
  assert (Hgroup : forall (g' : gmap string (gmap string bool)) text,
             match then_ (notifyClients Write range (S (S fuel)) (Data msg) text)
                         (fun _ => then_ (logPrint (LogPrint text))
                                         (fun _ => unit_ Continue))
                         (set_groupsMux false (set_groups g' (set_groupsMux true s0))) with
             | Done k s' =>
               connsMux s' = false /\ groupsMux s' = false /\ closed s' = closed s
               /\ k = Continue /\ conns s' = conns s /\ groups s' = g'
             | Stuck => True
             | Crashed _ => False
             | Spent => False
             end).
  { intros g' text.
    pose proof (notify_tail fuel (Data msg) text
                  (set_groupsMux false (set_groups g' (set_groupsMux true s0)))
                  Hc eq_refl) as H.
    destruct (then_ _ _ _) as [k s' | | |]; try contradiction; [| exact I].
    destruct H as (-> & Hc1 & Hg1 & Hcm1 & Hgm1 & Hcl1). cbn in *.
    repeat split; congruence. }
  assert (Herr : forall e,
             match then_ groupsMux_Unlock
                         (fun _ => then_ (returnErrorToClient Write Error c e)
                                         (fun _ => unit_ Continue))
                         (set_groupsMux true s0) with
             | Done k s' =>
               connsMux s' = false /\ groupsMux s' = false /\ closed s' = closed s
               /\ k = Continue /\ conns s' = conns s /\ groups s' = groups s
             | _ => False
             end).
  { intros e. unfold then_ at 1. unfold groupsMux_Unlock. cbn [groupsMux set_groupsMux].
    unfold then_.
    destruct (returnErrorToClient_run c e (set_groupsMux false (set_groupsMux true s0)))
      as (s' & -> & (Hc1 & Hg1 & Hcm1 & Hgm1 & Hcl1) & _).
    cbn in *. unfold unit_. repeat split; congruence. }
  destruct (Command msg =? CommandNewChat) eqn:E2.
  { apply Z.eqb_eq in E2.
    assert (Hne : Command msg <> CommandLeave) by (rewrite E2; discriminate).
    unfold then_ at 1. unfold groupsMux_Lock. rewrite Hg0.
    unfold then_ at 1. unfold read_ at 1. cbn [groups set_groupsMux].
    change (groups s0) with (groups s).
    destruct (groups s !! Data msg) as [members |] eqn:Egr.
    - specialize (Herr (ErrGroupExists (Data msg))).
      destruct (then_ _ _ _) as [k s' | | |]; try contradiction.
      destruct Herr as (? & ? & ? & -> & ? & ?). auto 10.
    - unfold then_ at 1. unfold update at 1. unfold then_ at 1. unfold groupsMux_Unlock.
      cbn [groupsMux set_groupsMux set_groups].
      match goal with
      | |- context [notifyClients _ _ _ _ ?text] => specialize (Hgroup
          (<[Data msg := {[Sender msg := true]}]> (groups s)) text)
      end.
      destruct (then_ _ _ _) as [k s' | | |]; try contradiction; [| exact Hne].
      destruct Hgroup as (? & ? & ? & -> & ? & ?).
      split; [assumption |]. split; [assumption |]. split; [assumption |].
      split; [| auto]. right. eexists. split; [eassumption |].
      intros m Hm. cbn. apply lookup_singleton_ne. congruence. }
  destruct (Command msg =? CommandJoinChat) eqn:E3.
  { apply Z.eqb_eq in E3.
    assert (Hne : Command msg <> CommandLeave) by (rewrite E3; discriminate).
    unfold then_ at 1. unfold groupsMux_Lock. rewrite Hg0.
    unfold then_ at 1. unfold read_ at 1. cbn [groups set_groupsMux].
    change (groups s0) with (groups s).
    destruct (groups s !! Data msg) as [members |] eqn:Egr.
    - unfold then_ at 1. unfold update at 1. unfold then_ at 1. unfold groupsMux_Unlock.
      cbn [groupsMux set_groupsMux set_groups].
      match goal with
      | |- context [notifyClients _ _ _ _ ?text] => specialize (Hgroup
          (<[Data msg := <[Sender msg := true]> members]> (groups s)) text)
      end.
      destruct (then_ _ _ _) as [k s' | | |]; try contradiction; [| exact Hne].
      destruct Hgroup as (? & ? & ? & -> & ? & ?).
      split; [assumption |]. split; [assumption |]. split; [assumption |].
      split; [| auto]. right. eexists. split; [eassumption |].
      intros m Hm. cbn. apply lookup_insert_ne. congruence.
    - specialize (Herr (ErrGroupMissing (Data msg))).
      destruct (then_ _ _ _) as [k s' | | |]; try contradiction.
      destruct Herr as (? & ? & ? & -> & ? & ?). auto 10. }
  destruct (Command msg =? CommandLeaveChat) eqn:E4.
  { apply Z.eqb_eq in E4.
    assert (Hne : Command msg <> CommandLeave) by (rewrite E4; discriminate).
    unfold then_ at 1. unfold groupsMux_Lock. rewrite Hg0.
    unfold then_ at 1. unfold read_ at 1. cbn [groups set_groupsMux].
    change (groups s0) with (groups s).
    destruct (groups s !! Data msg) as [members |] eqn:Egr.
    - unfold then_ at 1. unfold update at 1. unfold then_ at 1. unfold groupsMux_Unlock.
      cbn [groupsMux set_groupsMux set_groups].
      match goal with
      | |- context [notifyClients _ _ _ _ ?text] => specialize (Hgroup
          (<[Data msg := delete (Sender msg) members]> (groups s)) text)
      end.
      destruct (then_ _ _ _) as [k s' | | |]; try contradiction; [| exact Hne].
      destruct Hgroup as (? & ? & ? & -> & ? & ?).
      split; [assumption |]. split; [assumption |]. split; [assumption |].
      split; [| auto]. right. eexists. split; [eassumption |].
      intros m Hm. cbn. apply lookup_delete_ne. congruence.
    - specialize (Herr (ErrGroupMissing (Data msg))).
      destruct (then_ _ _ _) as [k s' | | |]; try contradiction.
      destruct Herr as (? & ? & ? & -> & ? & ?). auto 10. }
  destruct (Command msg =? CommandMessage) eqn:E5.
  { apply Z.eqb_eq in E5.
    assert (Hne : Command msg <> CommandLeave) by (rewrite E5; discriminate).
    pose proof (sendToClient_run fuel msg None s0 Hc0 Hg0) as H. cbv zeta in H.
    unfold then_ at 1.
    destruct (sendToClient Write range (S (S fuel)) msg None s0) as [err s1 | | |];
      try contradiction; [| exact Hne].
    destruct H as ((Hc1 & Hg1 & Hcm1 & Hgm1 & Hcl1) & _).
    destruct err as [e |].
    - unfold then_ at 1. unfold logPrint at 1, update at 1. unfold then_.
      destruct (returnErrorToClient_run c e (add_log (LogFailedToSend e) s1))
        as (s' & -> & (Hc2 & Hg2 & Hcm2 & Hgm2 & Hcl2) & _).
      cbn in *. unfold unit_. split; [congruence |]. split; [congruence |].
      split; [congruence |]. split; [left; congruence |]. left. repeat split; congruence.
    - unfold unit_. cbn in *. split; [congruence |]. split; [congruence |].
      split; [congruence |]. split; [left; congruence |]. left. repeat split; congruence. }
  destruct (Command msg =? CommandLeave) eqn:E6.
  { apply Z.eqb_eq in E6. unfold then_ at 1.
    rewrite DeleteConnection_run by exact Hc0. run_a.
    repeat split; try assumption; [left; reflexivity |]. right. repeat split; assumption. }
  apply Z.eqb_neq in E6. run_a. repeat split; try assumption; [left; reflexivity |].
  left. auto.
Qed.

(** X29. What a round of [handleConn] can change in the tables. No
    group is ever removed, also not when its last member leaves; in
    the groups nothing changes but whether the sender named in the
    message is a member of the group named in its data; and of the
    connections only the one registered for this client can go. *)
Theorem handle_message_tables (fuel : nat) (c : conn) (name : string) (msg : Message)
        (k : ctl) (s s' : Server) :
  (2 <= fuel)%nat ->
  connsMux s = false ->
  groupsMux s = false ->
  handle_message Write Error range fuel c name msg s = Done k s' ->
  (forall g, is_Some (groups s !! g) -> is_Some (groups s' !! g))
  /\ (forall g m, g <> Data msg \/ m <> Sender msg ->
                  groups s' !! g ≫= (fun x => x !! m) = groups s !! g ≫= (fun x => x !! m))
  /\ (forall n, n <> name -> conns s' !! n = conns s !! n).
Proof.
  intros Hf Hc Hg Hrun. destruct fuel as [| [| fuel]]; try lia.
  pose proof (handle_message_run fuel c name msg s Hc Hg) as H. rewrite Hrun in H.
  destruct H as (_ & _ & _ & Hgr & Hk).
  assert (Hconn : forall n, n <> name -> conns s' !! n = conns s !! n).
  { intros n Hn. destruct Hk as [(_ & _ & ->) | (_ & _ & -> & _)]; [reflexivity |].
    apply lookup_delete_ne. congruence. }
  destruct Hgr as [-> | (members' & -> & Hm)]; [auto |].
  split; [| split; [| exact Hconn]].
  - intros g Hg'. destruct (decide (g = Data msg)) as [-> | Hne].
    + rewrite lookup_insert_eq. eauto.
    + rewrite lookup_insert_ne by congruence. exact Hg'.
  - intros g m Hgm. destruct (decide (g = Data msg)) as [-> | Hne].
    + rewrite lookup_insert_eq. cbn. apply Hm. destruct Hgm; congruence.
    + rewrite lookup_insert_ne by congruence. reflexivity.
Qed.

(** A round of [handleConn], whatever the read gave. *)
Lemma handle_round_run (fuel : nat) (c : conn) (name : string) (rc : outcome)
      (s : Server) :
  connsMux s = false ->
  groupsMux s = false ->
  rc <> Panic ->
  match handle_round Write Error range (S (S fuel)) c name rc s with
  | Done k s' =>
    connsMux s' = false /\ groupsMux s' = false /\ closed s' = closed s
    /\ (k = Return <->
        rc = Failed (Underlying EOF) \/ exists msg, rc = Got msg /\ Command msg = CommandLeave)
  | Stuck => exists msg, rc = Got msg /\ Command msg <> CommandLeave
  | Crashed _ => False
  | Spent => False
  end.
Proof.
  intros Hc Hg Hp. destruct rc as [msg | e |]; [| | contradiction].
  - cbn [handle_round].
    pose proof (handle_message_run fuel c name msg s Hc Hg) as H.
    destruct (handle_message _ _ _ _ _ _ _ s) as [k s' | | |]; try contradiction.
    + destruct H as (? & ? & ? & _ & H). repeat split; try assumption.
      * intros ->. destruct H as [(? & _) | (_ & ? & _)]; [discriminate | eauto].
      * intros [? | (msg' & [= <-] & Hl)]; [discriminate |].
        destruct H as [(_ & ? & _) | (? & _)]; [contradiction | assumption].
    + eauto.
  - assert (Hcont : e <> Underlying EOF ->
            handle_round Write Error range (S (S fuel)) c name (Failed e) s
            = Done Continue (add_log (LogErrorReading e) s)).
    { intros Hne. destruct e as [| | | [|] |]; try reflexivity. contradiction. }
    assert (Hdec : e = Underlying EOF \/ e <> Underlying EOF).
    { destruct e as [| | | [|] |]; (left; reflexivity) || (right; discriminate). }
    destruct Hdec as [-> | Hne].
    + cbn. repeat split; auto.
    + rewrite Hcont by exact Hne. repeat split; auto; try discriminate.
      intros [[= ->] | (msg & [=] & _)]. contradiction.
Qed.

Lemma range_singleton (m : string) :
  range {[ m := true ]} ≡ₚ (map_to_list ({[ m := true ]} : gmap string bool)).*1 ->
  range {[ m := true ]} = [m].
Proof.
  rewrite map_to_list_singleton. cbn. intros H. apply Permutation_singleton_r in H. exact H.
Qed.

(** X23. [CommandNewChat] for a group that exists: the round goes
    on, the tables are as before, both mutexes are free, and the only
    write is the error message to the connection that asked, if [Send]
    took it. *)
Theorem NewChat_refused (fuel : nat) (c : conn) (name : string) (msg : Message)
        (members : gmap string bool) (s : Server) :
  connsMux s = false ->
  groupsMux s = false ->
  Command msg = CommandNewChat ->
  groups s !! Data msg = Some members ->
  exists s',
    handle_message Write Error range fuel c name msg s = Done Continue s'
    /\ same_tables s s'
    /\ (sent s' = sent s
        \/ sent s' = sent s ++ [(c, frame {| Command := CommandError; Sender := "server";
                                             Receiver := "";
                                             Data := Error (ErrGroupExists (Data msg)) |})]).
Proof.
  intros Hc Hg Hcmd Hgr. unfold handle_message. rewrite Hcmd.
  change (CommandNewChat =? CommandNewChat) with true. cbv iota.
  run_a. rewrite Hg. run_a. rewrite Hgr. run_a.
  destruct (returnErrorToClient_run c (ErrGroupExists (Data msg))
              (set_groupsMux false (set_groupsMux true (add_log (LogMessageReceived msg) s))))
    as (s' & -> & (Hc1 & Hg1 & Hcm1 & Hgm1 & Hcl1) & Hs).
  exists s'. split; [reflexivity |]. cbn in *. unfold same_tables.
  repeat split; first [congruence | exact Hs].
Qed.

(** X24. [CommandNewChat] for a new group whose name is not the
    name of a client. The group is made of the sender named in the
    message, not of the name the connection registered. When that
    sender has no connection, the round never ends: the notification
    waits for [groupsMux], which it holds. When the sender has one and
    every [Send] works, the group holds the sender alone and the
    notification is written to the connection of the sender. *)
Theorem NewChat_created (fuel : nat) (c : conn) (name : string) (msg : Message)
        (s : Server) :
  (2 <= fuel)%nat ->
  connsMux s = false ->
  groupsMux s = false ->
  range {[ Sender msg := true ]}
    ≡ₚ (map_to_list ({[ Sender msg := true ]} : gmap string bool)).*1 ->
  Command msg = CommandNewChat ->
  groups s !! Data msg = None ->
  conns s !! Data msg = None ->
  let note := {| Command := CommandMessage; Sender := "server"; Receiver := Data msg;
                 Data := created_text (Data msg) (Sender msg) |} in
  match conns s !! Sender msg with
  | None => handle_message Write Error range fuel c name msg s = Stuck
  | Some c' =>
    Send_works Write note ->
    exists s',
      handle_message Write Error range fuel c name msg s = Done Continue s'
      /\ groups s' = <[Data msg := {[ Sender msg := true ]}]> (groups s)
      /\ sent s' = sent s ++ [(c', frame note)]
      /\ conns s' = conns s /\ connsMux s' = false /\ groupsMux s' = false
  end.
Proof.
  intros Hf Hc Hg Hperm Hcmd Hgr Hnc note. destruct fuel as [| [| fuel]]; try lia.
  apply range_singleton in Hperm.
  set (s2 := set_groupsMux false
               (set_groups (<[Data msg := {[ Sender msg := true ]}]> (groups s))
                           (set_groupsMux true (add_log (LogMessageReceived msg) s)))).
  assert (Hrun : handle_message Write Error range (S (S fuel)) c name msg s
                 = match sendToClient Write range (S (S fuel)) note None s2 with
                   | Done _ s' =>
                     Done Continue
                          (add_log (LogPrint (created_text (Data msg) (Sender msg))) s')
                   | Crashed f => Crashed f
                   | Stuck => Stuck
                   | Spent => Spent
                   end).
  { unfold handle_message. rewrite Hcmd.
    change (CommandNewChat =? CommandNewChat) with true. cbv iota.
    run_a. rewrite Hg. run_a. rewrite Hgr. run_a. reflexivity. }
  rewrite Hrun. clear Hrun.
  assert (Hg2 : groups s2 !! Receiver note = Some {[ Sender msg := true ]})
    by apply lookup_insert_eq.
  destruct (conns s !! Sender msg) as [c' |] eqn:Ec.
  - intros Hw.
    pose proof (sendToClient_run fuel note None s2 Hc eq_refl) as H. cbv zeta in H.
    cbn [default] in H. rewrite Hg2 in H.
    change (conns s2 !! Receiver note) with (conns s !! Data msg) in H. rewrite Hnc in H.
    destruct (sendToClient Write range (S (S fuel)) note None s2) as [err s' | | |];
      try contradiction.
    + destruct H as ((Hc1 & Hg1 & Hcm1 & Hgm1 & Hcl1) & Hl & _ & _ & Hok & He).
      destruct err as [e |].
      { destruct (He e eq_refl) as (e' & n & _ & Hn). rewrite Hw in Hn. discriminate. }
      destruct (Hok eq_refl) as (cs & Hcs & Hs). rewrite Hperm in Hcs.
      apply Forall2_cons_inv_l in Hcs as (c1 & cs' & Hc1' & Hnil & ->).
      apply Forall2_nil_inv_l in Hnil as ->.
      change (conns s2 !! Sender msg) with (conns s !! Sender msg) in Hc1'.
      rewrite Ec in Hc1'. injection Hc1' as <-.
      eexists. split; [reflexivity |]. cbn in *.
      repeat split; congruence.
    + destruct H as (_ & members & m & [= <-] & Hin & Hm).
      rewrite Hperm in Hin. apply list_elem_of_singleton in Hin as ->.
      change (conns s2 !! Sender msg) with (conns s !! Sender msg) in Hm. congruence.
  - rewrite (sendToClient_first_unconnected fuel note {[ Sender msg := true ]}
               (Sender msg) [] s2); try assumption; reflexivity.
Qed.

(** X25. [CommandLeave] removes the connection of the client, writes
    nothing and leaves the groups as they are. So for a group the
    client is a member of, and whose name is not the name of a client,
    no later message is delivered to the group, and when every [Send]
    works [sendToClient] waits forever. *)
Theorem Leave_keeps_membership (fuel : nat) (c : conn) (name group : string)
        (msg later : Message) (members : gmap string bool) (s : Server) :
  (2 <= fuel)%nat ->
  connsMux s = false ->
  groupsMux s = false ->
  range members ≡ₚ (map_to_list members).*1 ->
  Command msg = CommandLeave ->
  groups s !! group = Some members ->
  is_Some (members !! name) ->
  conns s !! group = None ->
  Receiver later = group ->
  exists s',
    handle_message Write Error range fuel c name msg s = Done Return s'
    /\ conns s' = delete name (conns s)
    /\ groups s' = groups s
    /\ sent s' = sent s
    /\ (forall s'', sendToClient Write range fuel later None s' <> Done None s'')
    /\ (Send_works Write later -> sendToClient Write range fuel later None s' = Stuck).
Proof.
  intros Hf Hc Hg Hperm Hcmd Hgr Hm Hnc Hrecv. destruct fuel as [| [| fuel]]; try lia.
  pose proof (handle_message_run fuel c name msg s Hc Hg) as H.
  destruct (handle_message _ _ _ _ _ _ _ s) as [k s' | | |]; try contradiction.
  - destruct H as (Hc' & Hg' & _ & _ & [(_ & Hne & _) | (-> & _ & Hcs & Hgs & Hss)]);
      [contradiction |].
    exists s'. split; [reflexivity |]. split; [exact Hcs |]. split; [exact Hgs |].
    split; [exact Hss |].
    apply (sendToClient_blocked fuel later members name s'); try assumption.
    + rewrite Hrecv, Hcs. apply lookup_delete_None. right. exact Hnc.
    + rewrite Hrecv, Hgs. exact Hgr.
    + apply range_elem; assumption.
    + rewrite Hcs. apply lookup_delete_eq.
Qed.

(** X26. A round of the loop of [handleConn] whose [Receive] did not
    panic, from a state where both mutexes are free: it waits forever,
    or it is done with both mutexes free and no connection closed. It
    never unlocks a mutex that is not locked. The loop ends on
    [io.EOF] and on [CommandLeave] only; any other read error lets it
    go on. *)
Theorem handle_round_safe (fuel : nat) (c : conn) (name : string) (rc : outcome)
        (s : Server) :
  (2 <= fuel)%nat ->
  connsMux s = false ->
  groupsMux s = false ->
  rc <> Panic ->
  handle_round Write Error range fuel c name rc s = Stuck
  \/ exists k s',
      handle_round Write Error range fuel c name rc s = Done k s'
      /\ connsMux s' = false /\ groupsMux s' = false /\ closed s' = closed s
      /\ (k = Return <->
          rc = Failed (Underlying EOF)
          \/ exists msg, rc = Got msg /\ Command msg = CommandLeave).
Proof.
  intros Hf Hc Hg Hp. destruct fuel as [| [| fuel]]; try lia.
  pose proof (handle_round_run fuel c name rc s Hc Hg Hp) as H.
  destruct (handle_round _ _ _ _ _ _ _ s) as [k s' | | |]; try contradiction.
  - right. exists k, s'. split; [reflexivity | exact H].
  - left. reflexivity.
Qed.

(** The loop of [handleConn]: when it returns, both mutexes are free
    and it has closed nothing. *)
Lemma handle_loop_run (fuel : nat) (c : conn) (name : string) (rcs : list outcome) :
  forall s s',
    connsMux s = false ->
    groupsMux s = false ->
    handle_loop Write Error range (S (S fuel)) c name rcs s = Done tt s' ->
    connsMux s' = false /\ groupsMux s' = false /\ closed s' = closed s.
Proof.
  induction rcs as [| rc rest IH]; intros s s' Hc Hg H; [discriminate |].
  cbn [handle_loop] in H. unfold then_ at 1 in H.
  destruct rc as [msg | e |]; [| | discriminate].
  - pose proof (handle_round_run fuel c name (Got msg) s Hc Hg ltac:(discriminate)) as Hr.
    destruct (handle_round _ _ _ _ _ _ _ s) as [k s1 | | |]; try discriminate.
    destruct Hr as (Hc1 & Hg1 & Hcl1 & _). destruct k.
    + destruct (IH s1 s' Hc1 Hg1 H) as (? & ? & ?). repeat split; congruence.
    + injection H as <-. auto.
  - pose proof (handle_round_run fuel c name (Failed e) s Hc Hg ltac:(discriminate)) as Hr.
    destruct (handle_round _ _ _ _ _ _ _ s) as [k s1 | | |]; try discriminate.
    destruct Hr as (Hc1 & Hg1 & Hcl1 & _). destruct k.
    + destruct (IH s1 s' Hc1 Hg1 H) as (? & ? & ?). repeat split; congruence.
    + injection H as <-. auto.
Qed.

(** X27. Whenever [handleConn] returns, it has closed its
    connection, once, and no other, and both mutexes are free. When the
    first message is not [CommandNewClient], or could not be read,
    nothing was registered and nothing written. *)
Theorem handleConn_closes (fuel : nat) (c : conn) (first : outcome) (rcs : list outcome)
        (s s' : Server) :
  (2 <= fuel)%nat ->
  connsMux s = false ->
  groupsMux s = false ->
  handleConn Write Error range fuel c first rcs s = Done tt s' ->
  closed s' = closed s ++ [c] /\ connsMux s' = false /\ groupsMux s' = false
  /\ ((forall m, first = Got m -> Command m <> CommandNewClient) ->
      conns s' = conns s /\ groups s' = groups s /\ sent s' = sent s).
Proof.
  intros Hf Hc Hg H. destruct fuel as [| [| fuel]]; try lia.
  unfold handleConn, deferred in H. unfold then_ at 1 in H.
  destruct first as [m | e |]; [| | discriminate].
  - destruct (Command m =? CommandNewClient) eqn:E; cbn [negb] in H.
    + unfold then_ at 1 in H. rewrite SetConnection_run in H by exact Hc.
      destruct (handle_loop _ _ _ _ _ _ rcs _) as [[] s1 | | |] eqn:El; try discriminate.
      apply handle_loop_run in El as (Hc1 & Hg1 & Hcl1); [| exact Hc | exact Hg].
      run_a in H. injection H as <-. cbn in *.
      split; [congruence |]. split; [congruence |]. split; [congruence |].
      intros Hn. apply Z.eqb_eq in E. exfalso. exact (Hn m eq_refl E).
    + run_a in H. injection H as <-. cbn. repeat split; assumption.
  - run_a in H. injection H as <-. cbn. repeat split; assumption.
Qed.

(** Reads that fail, but not with [io.EOF], keep the loop going;
    [io.EOF] ends it. *)
Lemma handle_loop_failed (fuel : nat) (c : conn) (name : string) (pre : list outcome) :
  Forall (fun rc => exists e, rc = Failed e /\ e <> Underlying EOF) pre ->
  forall s,
  exists s',
    handle_loop Write Error range fuel c name (pre ++ [Failed (Underlying EOF)]) s
    = Done tt s'
    /\ same_tables s s' /\ sent s' = sent s
    /\ length (log s') = (length (log s) + length pre + 1)%nat.
Proof.
  induction 1 as [| rc pre (e & -> & Hne) _ IH]; intros s.
  - cbn. eexists. split; [reflexivity |]. unfold same_tables. cbn.
    rewrite length_app. cbn. repeat split; lia.
  - cbn [app handle_loop]. unfold then_ at 1.
    assert (Hcont : handle_round Write Error range fuel c name (Failed e) s
                    = Done Continue (add_log (LogErrorReading e) s)).
    { destruct e as [| | | [|] |]; try reflexivity. contradiction. }
    rewrite Hcont.
    destruct (IH (add_log (LogErrorReading e) s)) as (s' & -> & Hst & Hs & Hl).
    exists s'. split; [reflexivity |]. unfold same_tables in *. cbn in *.
    rewrite length_app in Hl. cbn in Hl. repeat split; try tauto; lia.
Qed.

(** X28. A client that registers and then goes away without
    [CommandLeave]: after read errors that are not [io.EOF], which only
    let the loop go on, [io.EOF] ends [handleConn]. The connection is
    closed, but the name stays registered to it; nothing was written
    and the groups are as before. *)
Theorem handleConn_EOF_stays_registered (fuel : nat) (c : conn) (namemsg : Message)
        (pre : list outcome) (s : Server) :
  connsMux s = false ->
  Command namemsg = CommandNewClient ->
  Forall (fun rc => exists e, rc = Failed e /\ e <> Underlying EOF) pre ->
  exists s',
    handleConn Write Error range fuel c (Got namemsg)
               (pre ++ [Failed (Underlying EOF)]) s = Done tt s'
    /\ conns s' = <[Data namemsg := c]> (conns s)
    /\ closed s' = closed s ++ [c]
    /\ groups s' = groups s /\ sent s' = sent s
    /\ connsMux s' = false.
Proof.
  intros Hc Hcmd Hpre. unfold handleConn, deferred. rewrite Hcmd.
  change (negb (CommandNewClient =? CommandNewClient)) with false. cbv iota.
  unfold then_ at 1. unfold then_ at 1. rewrite SetConnection_run by exact Hc.
  destruct (handle_loop_failed fuel c (Data namemsg) pre Hpre
              (set_conns (<[Data namemsg := c]> (conns s)) s))
    as (s1 & -> & (Hc1 & Hg1 & Hcm1 & Hgm1 & Hcl1) & Hs & _).
  run_a. eexists. split; [reflexivity |]. cbn in *. repeat split; congruence.
Qed.

End ServerFacts.

Lemma sendToClient_returns_or_waits_witness :
  ChatServer.sendToClient example_Write example_range 2 (example_to "room") None
                          example_server = ChatServer.Stuck
  \/ exists err s',
      ChatServer.sendToClient example_Write example_range 2 (example_to "room") None
                              example_server = ChatServer.Done err s'
      /\ same_tables example_server s'
      /\ ChatServer.log s' = ChatServer.log example_server
      /\ exists k, ChatServer.sent s' = ChatServer.sent example_server ++ k
                   /\ Forall (fun e => e.2 = SocketChat.frame (example_to "room")) k.
Proof.
  apply (sendToClient_returns_or_waits example_Write example_range 2 (example_to "room")
           None example_server); [lia | reflexivity | reflexivity].
Defined.

Lemma sendToClient_group_witness :
  exists s',
    ChatServer.sendToClient example_Write example_range 2 (example_to "room") None
                            example_server = ChatServer.Done None s'
    /\ ChatServer.sent s'
       = [(1%nat, SocketChat.frame (example_to "room"));
          (2%nat, SocketChat.frame (example_to "room"))].
Proof.
  destruct (sendToClient_group example_Write example_range 2 (example_to "room")
              {[ "ann"%string := true; "bob"%string := true ]} example_server)
    as (s' & cs & Hrun & Hcs & Hsent & _).
  - lia.
  - reflexivity.
  - reflexivity.
  - reflexivity.
  - reflexivity.
  - intros m Hm. vm_compute in Hm.
    apply elem_of_cons in Hm as [-> | Hm]; [vm_compute; eauto |].
    apply elem_of_cons in Hm as [-> | Hm]; [vm_compute; eauto |].
    apply elem_of_nil in Hm. contradiction.
  - intros n. reflexivity.
  - exists s'. split; [exact Hrun |].
    vm_compute in Hcs.
    apply Forall2_cons_inv_l in Hcs as (c1 & cs1 & H1 & Hcs & ->).
    apply Forall2_cons_inv_l in Hcs as (c2 & cs2 & H2 & Hcs & ->).
    apply Forall2_nil_inv_l in Hcs as ->.
    injection H1 as <-. injection H2 as <-. exact Hsent.
Defined.

Lemma sendToClient_deadlock_witness :
  ChatServer.sendToClient example_Write example_range 2 (example_to "team") None
                          example_server = ChatServer.Stuck.
Proof.
  apply (sendToClient_deadlock example_Write example_range 2 (example_to "team")
           {[ "ann"%string := true; "cy"%string := true ]} "cy" example_server).
  - lia.
  - reflexivity.
  - reflexivity.
  - reflexivity.
  - reflexivity.
  - reflexivity.
  - vm_compute. eauto.
  - reflexivity.
  - intros n. reflexivity.
Defined.


Lemma NewChat_refused_witness :
  exists s',
    ChatServer.handle_message example_Write example_Error example_range 2 1%nat "ann"
      (example_command SocketChat.CommandNewChat "ann" "room") example_server
    = ChatServer.Done Continue s'
    /\ ChatServer.groups s' = ChatServer.groups example_server.
Proof.
  destruct (NewChat_refused example_Write example_Error example_range 2 1%nat "ann"
              (example_command SocketChat.CommandNewChat "ann" "room")
              {[ "ann"%string := true; "bob"%string := true ]} example_server)
    as (s' & Hrun & (_ & Hg & _) & _); [reflexivity | reflexivity | reflexivity | reflexivity |].
  exists s'. split; [exact Hrun | exact Hg].
Defined.

Lemma NewChat_created_witness :
  ChatServer.handle_message example_Write example_Error example_range 2 1%nat "ann"
    (example_command SocketChat.CommandNewChat "dee" "club") example_server
  = ChatServer.Stuck.
Proof.
  apply (NewChat_created example_Write example_Error example_range 2 1%nat "ann"
           (example_command SocketChat.CommandNewChat "dee" "club") example_server);
    [lia | reflexivity | reflexivity | reflexivity | reflexivity | reflexivity | reflexivity].
Defined.

Lemma Leave_keeps_membership_witness :
  exists s',
    ChatServer.handle_message example_Write example_Error example_range 2 2%nat "bob"
      (example_command SocketChat.CommandLeave "bob" "") example_server
    = ChatServer.Done Return s'
    /\ ChatServer.sendToClient example_Write example_range 2 (example_to "room") None s'
       = ChatServer.Stuck.
Proof.
  destruct (Leave_keeps_membership example_Write example_Error example_range 2 2%nat
              "bob" "room" (example_command SocketChat.CommandLeave "bob" "")
              (example_to "room") {[ "ann"%string := true; "bob"%string := true ]}
              example_server)
    as (s' & Hrun & _ & _ & _ & _ & Hstuck).
  - lia.
  - reflexivity.
  - reflexivity.
  - reflexivity.
  - reflexivity.
  - reflexivity.
  - vm_compute. eauto.
  - reflexivity.
  - reflexivity.
  - exists s'. split; [exact Hrun |]. apply Hstuck. intros n. reflexivity.
Defined.

Lemma handle_round_safe_witness :
  ChatServer.handle_round example_Write example_Error example_range 2 1%nat "ann"
    (SocketChat.Failed SocketChat.ReceiveHeaderError) example_server = ChatServer.Stuck
  \/ exists k s',
      ChatServer.handle_round example_Write example_Error example_range 2 1%nat "ann"
        (SocketChat.Failed SocketChat.ReceiveHeaderError) example_server
      = ChatServer.Done k s'
      /\ ChatServer.connsMux s' = false /\ ChatServer.groupsMux s' = false
      /\ ChatServer.closed s' = ChatServer.closed example_server
      /\ (k = Return <->
          SocketChat.Failed SocketChat.ReceiveHeaderError
          = SocketChat.Failed (SocketChat.Underlying SocketChat.EOF)
          \/ exists msg, SocketChat.Failed SocketChat.ReceiveHeaderError = SocketChat.Got msg
                         /\ SocketChat.Command msg = SocketChat.CommandLeave).
Proof.
  apply (handle_round_safe example_Write example_Error example_range 2 1%nat "ann"
           (SocketChat.Failed SocketChat.ReceiveHeaderError) example_server);
    [lia | reflexivity | reflexivity | discriminate].
Defined.

Lemma handleConn_closes_witness :
  ChatServer.closed
    (ChatServer.add_closed 3%nat
       (ChatServer.add_log (ChatServer.LogNotInitialized None) example_server))
  = [3%nat].
Proof.
  apply (handleConn_closes example_Write example_Error example_range 2 3%nat
           (SocketChat.Got example_hello) [] example_server
           (ChatServer.add_closed 3%nat
              (ChatServer.add_log (ChatServer.LogNotInitialized None) example_server)));
    [lia | reflexivity | reflexivity | reflexivity].
Defined.

Lemma handleConn_EOF_stays_registered_witness :
  exists s',
    ChatServer.handleConn example_Write example_Error example_range 2 3%nat
      (SocketChat.Got (example_command SocketChat.CommandNewClient "" "dee"))
      [SocketChat.Failed SocketChat.ReceiveHeaderError;
       SocketChat.Failed (SocketChat.Underlying SocketChat.EOF)] example_server
    = ChatServer.Done tt s'
    /\ ChatServer.conns s' !! "dee"%string = Some 3%nat
    /\ ChatServer.closed s' = [3%nat].
Proof.
  destruct (handleConn_EOF_stays_registered example_Write example_Error example_range 2
              3%nat (example_command SocketChat.CommandNewClient "" "dee")
              [SocketChat.Failed SocketChat.ReceiveHeaderError] example_server)
    as (s' & Hrun & Hc & Hcl & _).
  - reflexivity.
  - reflexivity.
  - repeat constructor. exists SocketChat.ReceiveHeaderError. split; [reflexivity | discriminate].
  - exists s'. split; [exact Hrun |]. split; [| exact Hcl].
    rewrite Hc. apply lookup_insert_eq.
Defined.

Lemma handle_message_tables_witness :
  exists k s',
    ChatServer.handle_message example_Write example_Error example_range 2 1%nat "ann"
      (example_command SocketChat.CommandLeaveChat "ann" "room") example_server
    = ChatServer.Done k s'
    /\ is_Some (ChatServer.groups s' !! "room"%string)
    /\ ChatServer.conns s' !! "bob"%string = Some 2%nat.
Proof.
  destruct (ChatServer.handle_message example_Write example_Error example_range 2 1%nat
              "ann" (example_command SocketChat.CommandLeaveChat "ann" "room")
              example_server) as [k s' | f | |] eqn:Hrun;
    [| vm_compute in Hrun; discriminate Hrun ..].
  exists k, s'. split; [reflexivity |].
  destruct (handle_message_tables example_Write example_Error example_range 2 1%nat "ann"
              (example_command SocketChat.CommandLeaveChat "ann" "room") k
              example_server s') as (Hgr & _ & Hcn);
    [lia | reflexivity | reflexivity | exact Hrun |].
  split.
  - apply Hgr. vm_compute. eauto.
  - rewrite Hcn by discriminate. reflexivity.
Defined.
